(** * Resume parser: a shallow embedding of [resume_parser.py]

    The development follows the layout of the Python module:

    - [Py]     the string primitives of the Python runtime the parser calls
               ([str.strip], [str.split], [str.lower], [in], [str.count],
               [str.title], slices, [list(set(...))]);
    - [Re]     a backtracking matcher for the fragment of the [re] module the
               patterns of the parser are written in, with [findall] and [sub];
    - [Parser] the methods of [ResumeParser], one definition per method, under
               the name the method has in the source;
    - [Api]    the two handlers of [main.py] that call the parser;
    - [Spec]   the notions the statements are written with: what a pattern
               matches, what a mention of years of experience is, ...

    The facts come after the definitions, the matcher first (it is sound and
    complete for the meaning of patterns), then one part for each extractor.

    A Python [str] is a sequence of code points.  The texts the parser reads
    are taken with code points below 256 (Latin-1), on which the character
    classes below are the ones of CPython ([Py_UNICODE_ISSPACE],
    [str.isalpha], the category [\w] of [re], ...).  The only place where
    CPython leaves that range is the title case of the three letters 181, 223
    and 255 (capital mu, [Ss], capital y with diaeresis): what [str.title]
    gives is therefore a sequence of code points as numbers, a [ustr].

    Two limits of the runtime are part of the embedding: [int] raises a
    [ValueError] on more than 4300 digits, and a [set] is listed in an order
    that the language does not fix. *)

From Stdlib Require Import Ascii String DecimalString.
From Stdlib Require Import List Arith Lia Bool NArith ZArith.
From Stdlib Require Import Sorted Permutation.
Import ListNotations.

Open Scope string_scope.
Open Scope nat_scope.
Open Scope list_scope.

Set Implicit Arguments.

(* ================================================================== *)
(** * The Python string primitives                                      *)
(* ================================================================== *)

Module Py.

(** A [str] value: its code points, in order. *)
Definition str := list ascii.

Definition of_string (s : string) : str := list_ascii_of_string s.
Coercion of_string : string >-> str.

(** The characters the source names by an escape. *)
Definition nl : ascii := "010"%char.       (* '\n' *)
Definition sp : ascii := " "%char.
Definition dot : ascii := "."%char.
Definition bs : ascii := "008"%char.       (* '\b' in a non-raw literal *)

Definition code (c : ascii) : nat := nat_of_ascii c.

(** A [str] value that may leave Latin-1: its code points, as numbers. *)
Definition ustr := list N.

Definition cp (c : ascii) : N := N_of_ascii c.

(** A Latin-1 text among all texts. *)
Definition wide (s : str) : ustr := map cp s.

Definition between (lo hi : nat) (c : ascii) : bool :=
  (lo <=? code c) && (code c <=? hi).

(** [Py_UNICODE_ISSPACE]: the class behind [str.strip], [str.split] and the
    category [\s] of [re] on a [str] pattern. *)
Definition isspace (c : ascii) : bool :=
  between 9 13 c || between 28 32 c || (code c =? 133) || (code c =? 160).

Definition is_upper (c : ascii) : bool :=
  between 65 90 c || between 192 214 c || between 216 222 c.

(** [c.isalpha()] for one character. *)
Definition is_alpha (c : ascii) : bool :=
  between 65 90 c || between 97 122 c
  || (code c =? 170) || (code c =? 181) || (code c =? 186)
  || between 192 214 c || between 216 246 c || between 248 255 c.

(** The decimal digits, category [\d]. *)
Definition is_digit (c : ascii) : bool := between 48 57 c.

(** [Py_UNICODE_ISALNUM] or the underscore: category [\w]. *)
Definition is_word (c : ascii) : bool :=
  is_alpha c || is_digit c || (code c =? 95)
  || (code c =? 178) || (code c =? 179) || (code c =? 185)
  || between 188 190 c.

Definition to_lower (c : ascii) : ascii :=
  if is_upper c then ascii_of_nat (code c + 32) else c.

(** The title case of one character ([_PyUnicode_ToTitleFull]).  Three
    letters leave Latin-1 or take two characters: the micro sign gives the
    capital mu (U+039C), the sharp s gives [Ss], the y with diaeresis gives
    its capital (U+0178). *)
Definition to_title (c : ascii) : ustr :=
  if code c =? 181 then [924%N]
  else if code c =? 223 then [83%N; 115%N]
  else if code c =? 255 then [376%N]
  else if between 97 122 c || between 224 246 c || between 248 254 c
  then [N.of_nat (code c - 32)]
  else [cp c].

(** [s.lower()] *)
Definition lower (s : str) : str := map to_lower s.

(** [s.isalpha()]: every character alphabetic, and at least one. *)
Definition isalpha (s : str) : bool :=
  match s with
  | [] => false
  | _ => forallb is_alpha s
  end.

(** [s.title()]: a character after a cased one is lowered, any other one is
    put in title case. *)
Fixpoint title_from (previous_is_cased : bool) (s : str) : ustr :=
  match s with
  | [] => []
  | c :: s' =>
      (if previous_is_cased then [cp (to_lower c)] else to_title c)
        ++ title_from (is_alpha c) s'
  end.

Definition title (s : str) : ustr := title_from false s.

Fixpoint dropwhile (p : ascii -> bool) (s : str) : str :=
  match s with
  | [] => []
  | c :: s' => if p c then dropwhile p s' else s
  end.

Definition lstrip (s : str) : str := dropwhile isspace s.
Definition rstrip (s : str) : str := rev (dropwhile isspace (rev s)).

(** [s.strip()] *)
Definition strip (s : str) : str := rstrip (lstrip s).

(** [s.split(sep)] for a one-character separator: empty pieces are kept. *)
Fixpoint split_on (sep : ascii) (s : str) : list str :=
  match s with
  | [] => [[]]
  | c :: s' =>
      if Ascii.eqb c sep then [] :: split_on sep s'
      else match split_on sep s' with
           | l :: ls => (c :: l) :: ls
           | [] => [[c]]
           end
  end.

Definition emit (w : str) : list str :=
  match w with
  | [] => []
  | _ => [w]
  end.

(** [s.split()]: the maximal runs of non-blank characters; [w] is the run
    being read. *)
Fixpoint split_from (w : str) (s : str) : list str :=
  match s with
  | [] => emit w
  | c :: s' =>
      if isspace c then emit w ++ split_from [] s'
      else split_from (w ++ [c]) s'
  end.

Definition split (s : str) : list str := split_from [] s.

(** [sep.join(parts)] *)
Fixpoint join (sep : str) (parts : list str) : str :=
  match parts with
  | [] => []
  | [p] => p
  | p :: ps => p ++ sep ++ join sep ps
  end.

Fixpoint startswith (p s : str) : bool :=
  match p, s with
  | [], _ => true
  | _ :: _, [] => false
  | a :: p', b :: s' => Ascii.eqb a b && startswith p' s'
  end.

(** [sub in s] *)
Fixpoint contains (sub s : str) : bool :=
  startswith sub s
  || match s with
     | [] => false
     | _ :: s' => contains sub s'
     end.

(** [s.count(sub)]: occurrences that do not overlap, from the left; [skip]
    is what is left of the occurrence just counted. *)
Fixpoint count_from (sub s : str) (skip : nat) : nat :=
  match s with
  | [] => 0
  | _ :: s' =>
      match skip with
      | S k => count_from sub s' k
      | 0 => if startswith sub s
             then S (count_from sub s' (length sub - 1))
             else count_from sub s' 0
      end
  end.

Definition count (sub s : str) : nat :=
  match sub with
  | [] => S (length s)
  | _ => count_from sub s 0
  end.

(** [s.replace(old, new)] for a one-character [old]. *)
Definition replace (old : ascii) (new : str) (s : str) : str :=
  flat_map (fun c => if Ascii.eqb c old then new else [c]) s.

(** [str(n)] for a length. *)
Definition str_of_nat (n : nat) : str :=
  of_string (NilEmpty.string_of_uint (Nat.to_uint n)).

(** The number a string of decimal digits writes. *)
Definition digit_value (c : ascii) : Z := Z.of_nat (code c - 48).

Definition int_value (s : str) : Z :=
  fold_left (fun acc c => (10 * acc + digit_value c)%Z) s 0%Z.

(** [sys.get_int_max_str_digits()], as CPython sets it by default (from
    3.11 on). *)
Definition int_max_str_digits : nat := 4300.

(** [int(s)] on a string of decimal digits: the number it writes, or, when
    it has more than [int_max_str_digits] digits (leading zeros count), the
    message of the [ValueError] that is raised. *)
Definition int_limit_message (digits : nat) : str :=
  of_string "Exceeds the limit (4300 digits) for integer string conversion: value has "
    ++ str_of_nat digits
    ++ of_string " digits; use sys.set_int_max_str_digits() to increase the limit".

Definition int (s : str) : str + Z :=
  if int_max_str_digits <? length s then inl (int_limit_message (length s))
  else inr (int_value s).

(** [max(xs)] on the list [x :: xs]. *)
Definition max (x : Z) (xs : list Z) : Z := fold_left Z.max xs x.

(** [xs.sort(key=key, reverse=True)]: the sort is stable, and with [reverse]
    the elements of equal key still keep the order they had.  [insert_desc]
    puts [x], which came first, before the first element whose key is not
    above its own. *)
Section Sort.
Variable T : Type.
Variable key : T -> nat.

Fixpoint insert_desc (x : T) (l : list T) : list T :=
  match l with
  | [] => [x]
  | y :: l' => if key y <=? key x then x :: l else y :: insert_desc x l'
  end.

Fixpoint sort_reverse (l : list T) : list T :=
  match l with
  | [] => []
  | x :: l' => insert_desc x (sort_reverse l')
  end.

End Sort.

Definition str_eqb (a b : str) : bool :=
  if list_eq_dec ascii_dec a b then true else false.

(** [list(set(xs))].  The order in which a [set] is iterated is not fixed by
    the language (it follows the hashes of the run): the embedding takes it as
    a parameter and fixes only what every run has, the elements of [xs] once
    each. *)
(** The values a [set] can hold; here the strings, whose equality is
    decided. *)
Class Hashable (A : Type) := eq_dec : forall x y : A, {x = y} + {x <> y}.

#[export] Instance str_Hashable : Hashable str := list_eq_dec ascii_dec.

#[export] Instance ustr_Hashable : Hashable ustr := list_eq_dec N.eq_dec.

Class SetOrder := {
  set_list : forall (A : Type) (HA : Hashable A), list A -> list A;
  set_list_NoDup :
    forall (A : Type) (HA : Hashable A) (xs : list A),
      NoDup (set_list HA xs);
  set_list_In :
    forall (A : Type) (HA : Hashable A) (xs : list A) (x : A),
      In x (set_list HA xs) <-> In x xs
}.

Arguments set_list {SetOrder A HA} xs.
Arguments set_list_NoDup {SetOrder A HA} xs.
Arguments set_list_In {SetOrder A HA} xs x.

(** One iteration order: that of the first occurrences. *)
Fixpoint dedup {A : Type} {HA : Hashable A} (xs : list A) : list A :=
  match xs with
  | [] => []
  | x :: xs' =>
      x :: filter (fun y => if eq_dec x y then false else true) (dedup xs')
  end.

End Py.

(* ================================================================== *)
(** * The fragment of [re] the parser uses                              *)
(* ================================================================== *)

Module Re.
Import Py.

(** Pattern syntax.  Quantifiers are greedy unless said otherwise; a class
    stands for [\s], [\d], [\w] or a bracket expression. *)
Inductive regex : Type :=
| Eps
| Chr (c : ascii)
| Any                               (* [.]: any character but a newline *)
| Cls (p : ascii -> bool)
| Bnd                               (* [\b] *)
| Seq (r1 r2 : regex)
| Alt (r1 r2 : regex)
| Star (r : regex)                  (* [r*] *)
| LazyStar (r : regex)              (* [r*?] *)
| Grp (n : nat) (r : regex).        (* the capturing group number [n] *)

Definition Plus (r : regex) : regex := Seq r (Star r).      (* [r+] *)
Definition Opt (r : regex) : regex := Alt r Eps.            (* [r?] *)

Fixpoint Rep (n : nat) (r : regex) : regex :=               (* [r{n}] *)
  match n with
  | 0 => Eps
  | S n' => Seq r (Rep n' r)
  end.

Fixpoint UpTo (n : nat) (r : regex) : regex :=              (* [r{0,n}] *)
  match n with
  | 0 => Eps
  | S n' => Alt (Seq r (UpTo n' r)) Eps
  end.

Definition Range (lo hi : nat) (r : regex) : regex :=       (* [r{lo,hi}] *)
  Seq (Rep lo r) (UpTo (hi - lo) r).

Definition AtLeast (lo : nat) (r : regex) : regex :=        (* [r{lo,}] *)
  Seq (Rep lo r) (Star r).

(** A run of literal characters. *)
Fixpoint chars (s : str) : regex :=
  match s with
  | [] => Eps
  | [c] => Chr c
  | c :: s' => Seq (Chr c) (chars s')
  end.

Definition lit (s : string) : regex := chars (of_string s).

(** [r1|r2|...] *)
Fixpoint alts (rs : list regex) : regex :=
  match rs with
  | [] => Eps
  | [r] => r
  | r :: rs' => Alt r (alts rs')
  end.

(** [r1 r2 ...] *)
Fixpoint seqs (rs : list regex) : regex :=
  match rs with
  | [] => Eps
  | [r] => r
  | r :: rs' => Seq r (seqs rs')
  end.

Definition s_ : regex := Cls isspace.      (* [\s] *)
Definition d_ : regex := Cls is_digit.     (* [\d] *)
Definition w_ : regex := Cls is_word.      (* [\w] *)

(** The text of the groups that took part in a match, latest first. *)
Definition caps := list (nat * str).

(** [m.group(n)] as [findall] reports it: empty for a group that took no
    part. *)
Fixpoint group (n : nat) (cs : caps) : str :=
  match cs with
  | [] => []
  | (i, t) :: cs' => if i =? n then t else group n cs'
  end.

Definition word_at (c : option ascii) : bool :=
  match c with
  | Some x => is_word x
  | None => false
  end.

Definition orelse {A} (x y : option A) : option A :=
  match x with
  | Some a => Some a
  | None => y
  end.

Section Matcher.

(** The flag [re.IGNORECASE]. *)
Variable ignorecase : bool.

Definition chr_match (c x : ascii) : bool :=
  Ascii.eqb c x || (ignorecase && Ascii.eqb (to_lower c) (to_lower x)).

Variable A : Type.

(** What is left to match: it is given the character before the position
    reached, the rest of the subject and the groups so far. *)
Definition cont := option ascii -> str -> caps -> option A.

(** The two loops of a star.  [body] matches one iteration and hands over to
    the continuation it is given; an iteration that consumes nothing is not
    repeated, so the length of the subject bounds the number of rounds. *)
Section Loops.

Variable body : option ascii -> str -> caps -> cont -> option A.
Variable k : cont.

(** Greedy: one more iteration is tried before the continuation. *)
Fixpoint greedy (fuel : nat) (prev : option ascii) (s : str) (cs : caps)
  : option A :=
  match fuel with
  | 0 => k prev s cs
  | S fuel' =>
      orelse
        (body prev s cs
           (fun prev' s' cs' =>
              if length s' <? length s then greedy fuel' prev' s' cs'
              else None))
        (k prev s cs)
  end.

(** Lazy: the continuation is tried before one more iteration. *)
Fixpoint lazy (fuel : nat) (prev : option ascii) (s : str) (cs : caps)
  : option A :=
  match fuel with
  | 0 => k prev s cs
  | S fuel' =>
      orelse
        (k prev s cs)
        (body prev s cs
           (fun prev' s' cs' =>
              if length s' <? length s then lazy fuel' prev' s' cs'
              else None))
  end.

End Loops.

(** The backtracking matcher: [run r prev s cs k] matches [r] at the front of
    [s], [prev] being the character before it, and hands over to [k]; the
    first way of matching that [k] accepts is the result. *)
Fixpoint run (r : regex) (prev : option ascii) (s : str) (cs : caps)
    (k : cont) {struct r} : option A :=
  match r with
  | Eps => k prev s cs
  | Chr c =>
      match s with
      | x :: s' => if chr_match c x then k (Some x) s' cs else None
      | [] => None
      end
  | Any =>
      match s with
      | x :: s' => if Ascii.eqb x nl then None else k (Some x) s' cs
      | [] => None
      end
  | Cls p =>
      match s with
      | x :: s' => if p x then k (Some x) s' cs else None
      | [] => None
      end
  | Bnd =>
      if xorb (word_at prev) (word_at (hd_error s)) then k prev s cs else None
  | Seq r1 r2 =>
      run r1 prev s cs (fun prev' s' cs' => run r2 prev' s' cs' k)
  | Alt r1 r2 =>
      orelse (run r1 prev s cs k) (run r2 prev s cs k)
  | Star r1 => greedy (run r1) k (length s) prev s cs
  | LazyStar r1 => lazy (run r1) k (length s) prev s cs
  | Grp n r1 =>
      run r1 prev s cs
        (fun prev' s' cs' =>
           k prev' s' ((n, firstn (length s - length s') s) :: cs'))
  end.

End Matcher.

(** [pattern.match] at one position: the length of the match and its
    groups. *)
Definition match_at (ic : bool) (r : regex) (prev : option ascii) (s : str)
  : option (nat * caps) :=
  run ic r prev s [] (fun _ s' cs => Some (length s - length s', cs)).

(** The subject cut by the matches of a pattern: the characters outside the
    matches, and the matches. *)
Inductive piece : Type :=
| Lit (c : ascii)
| Hit (text : str) (cs : caps).

(** The scan of [finditer]: a match is looked for at every position that is
    not inside the previous match; after an empty match the scan moves on by
    one character.  [skip] counts the characters of the current match still
    to pass. *)
Fixpoint scan (ic : bool) (r : regex) (prev : option ascii) (s : str)
    (skip : nat) {struct s} : list piece :=
  match skip with
  | S skip' =>
      match s with
      | [] => []
      | c :: s' => scan ic r (Some c) s' skip'
      end
  | 0 =>
      match match_at ic r prev s with
      | Some (len, cs) =>
          Hit (firstn len s) cs ::
          match s with
          | [] => []
          | c :: s' =>
              (if len =? 0 then [Lit c] else [])
                ++ scan ic r (Some c) s' (len - 1)
          end
      | None =>
          match s with
          | [] => []
          | c :: s' => Lit c :: scan ic r (Some c) s' 0
          end
      end
  end.

Definition finditer (ic : bool) (r : regex) (s : str) : list piece :=
  scan ic r None s 0.

Definition hits (ps : list piece) : list (str * caps) :=
  flat_map (fun p => match p with
                     | Lit _ => []
                     | Hit t cs => [(t, cs)]
                     end) ps.

(** [re.findall] for a pattern without group: the texts matched. *)
Definition findall0 (ic : bool) (r : regex) (s : str) : list str :=
  map fst (hits (finditer ic r s)).

(** [re.findall] for a pattern with one group: the text of the group. *)
Definition findall1 (ic : bool) (r : regex) (s : str) : list str :=
  map (fun h => group 1 (snd h)) (hits (finditer ic r s)).

(** [re.findall] for a pattern with two groups: the pairs of their texts. *)
Definition findall2 (ic : bool) (r : regex) (s : str) : list (str * str) :=
  map (fun h => (group 1 (snd h), group 2 (snd h))) (hits (finditer ic r s)).

(** [re.sub] with a replacement that has no back-reference. *)
Definition sub (ic : bool) (r : regex) (repl : str) (s : str) : str :=
  flat_map (fun p => match p with
                     | Lit c => [c]
                     | Hit _ _ => repl
                     end) (finditer ic r s).

End Re.

(* ================================================================== *)
(** * The methods of [ResumeParser]                                     *)
(* ================================================================== *)

Module Parser.
Import Py Re.

Definition strs (l : list string) : list str := map of_string l.

(** ** The tables of [__init__] *)

Definition skills_keywords : list str := strs
  [ (* Programming Languages *)
    "python"; "java"; "javascript"; "typescript"; "c++"; "c#"; "php"; "ruby";
    "go"; "rust"; "swift"; "kotlin"; "scala"; "r"; "matlab"; "sql"; "html";
    "css"; "sass"; "less";
    (* Frameworks & Libraries *)
    "react"; "angular"; "vue"; "node.js"; "express"; "django"; "flask";
    "spring"; "laravel"; "rails"; "asp.net"; ".net"; "fastapi"; "nextjs";
    "nuxt"; "svelte"; "jquery";
    (* Databases *)
    "mysql"; "postgresql"; "mongodb"; "redis"; "sqlite"; "oracle";
    "sql server"; "elasticsearch"; "firebase"; "dynamodb"; "cassandra";
    "neo4j";
    (* Cloud & DevOps *)
    "aws"; "azure"; "gcp"; "google cloud"; "docker"; "kubernetes"; "jenkins";
    "gitlab ci"; "github actions"; "terraform"; "ansible"; "vagrant"; "chef";
    "puppet";
    (* Data Science & AI *)
    "machine learning"; "deep learning"; "artificial intelligence";
    "data science"; "pandas"; "numpy"; "scikit-learn"; "tensorflow";
    "pytorch"; "keras"; "opencv"; "nltk"; "spacy";
    (* Other Technical Skills *)
    "git"; "linux"; "unix"; "windows"; "macos"; "bash"; "powershell";
    "rest api"; "graphql"; "microservices"; "agile"; "scrum"; "kanban";
    "jira"; "confluence"; "slack"; "teams" ].

Definition experience_keywords : list string :=
  [ "intern"; "junior"; "senior"; "lead"; "principal"; "architect";
    "manager"; "director"; "ceo"; "cto"; "vp"; "head"; "specialist";
    "consultant"; "analyst"; "developer"; "engineer"; "programmer";
    "designer"; "administrator" ].

(** ** [_clean_text] *)

Definition _clean_text (text : str) : str :=
  let text := sub false (Plus s_) " " text in
  let text := sub false (Plus (Chr nl)) [nl] text in
  strip text.

(** [any(keyword in line.lower() for keyword in keywords)] *)
Definition any_keyword_in (keywords : list string) (line : str) : bool :=
  existsb (fun keyword => contains (of_string keyword) (lower line)) keywords.

(** ** [_extract_personal_info] *)

Record PersonalInfo : Type := {
  name : option str;
  extracted_from : str
}.

(** [word[0].isupper()]; [str.split] yields no empty word. *)
Definition first_isupper (word : str) : bool :=
  match word with
  | c :: _ => is_upper c
  | [] => false
  end.

(** The loop over the first lines, left at the first line taken as a name. *)
Fixpoint name_loop (lines : list str) : option str :=
  match lines with
  | [] => None
  | line :: rest =>
      let line := strip line in
      if (0 <? length line)
         && negb (any_keyword_in ["email"; "phone"; "address"; "linkedin"] line)
      then
        let words := split line in
        if (2 <=? length words) && (length words <=? 4)
           && forallb (fun word => isalpha (replace dot [] word)) words
        then
          if existsb first_isupper words then Some line
          else name_loop rest
        else name_loop rest
      else name_loop rest
  end.

(** The entity recogniser, when the model is loaded: the entities of a text,
    each with its label. *)
Definition recogniser := str -> list (str * str).

Fixpoint first_person (ents : list (str * str)) : option str :=
  match ents with
  | [] => None
  | (text, label) :: ents' =>
      if str_eqb label "PERSON" then Some text else first_person ents'
  end.

Definition _extract_personal_info (nlp : option recogniser) (text : str)
  : PersonalInfo :=
  let lines := firstn 5 (split_on nl text) in
  let name := name_loop lines in
  let name :=
    match nlp, name with
    | Some model, None => first_person (model (firstn 500 text))
    | _, _ => name
    end in
  {| name := name; extracted_from := "text_analysis" |}.

(** ** [_extract_contact_info] *)

Record ContactInfo : Type := {
  emails : list str;
  phones : list str;
  linkedin : option str;
  location : option (str * str)
}.

Definition one_of (s : string) (c : ascii) : bool :=
  existsb (Ascii.eqb c) (of_string s).

Definition ascii_letter (c : ascii) : bool :=
  between 65 90 c || between 97 122 c.

(** [\b[A-Za-z0-9._%+-]+@[A-Za-z0-9.-]+\.[A-Z|a-z]{2,}\b] *)
Definition email_pattern : regex :=
  seqs [ Bnd;
         Plus (Cls (fun c => ascii_letter c || is_digit c || one_of "._%+-" c));
         Chr "@";
         Plus (Cls (fun c => ascii_letter c || is_digit c || one_of ".-" c));
         Chr ".";
         AtLeast 2 (Cls (fun c => ascii_letter c || one_of "|" c));
         Bnd ].

Definition sep_ : regex := Cls (one_of "-.").      (* [[-.]] *)

Definition phone_patterns : list regex :=
  [ (* \+?1?[-.]?\(?\d{3}\)?[-.]?\d{3}[-.]?\d{4} *)
    seqs [ Opt (Chr "+"); Opt (Chr "1"); Opt sep_; Opt (Chr "("); Rep 3 d_;
           Opt (Chr ")"); Opt sep_; Rep 3 d_; Opt sep_; Rep 4 d_ ];
    (* \+?\d{1,3}[-.]?\(?\d{3,4}\)?[-.]?\d{3,4}[-.]?\d{3,4} *)
    seqs [ Opt (Chr "+"); Range 1 3 d_; Opt sep_; Opt (Chr "(");
           Range 3 4 d_; Opt (Chr ")"); Opt sep_; Range 3 4 d_; Opt sep_;
           Range 3 4 d_ ];
    (* \(\d{3}\)\s?\d{3}-\d{4} *)
    seqs [ Chr "("; Rep 3 d_; Chr ")"; Opt s_; Rep 3 d_; Chr "-"; Rep 4 d_ ] ].

(** [linkedin\.com/in/([A-Za-z0-9-]+)] *)
Definition linkedin_pattern : regex :=
  seqs [ lit "linkedin.com/in/";
         Grp 1 (Plus (Cls (fun c => ascii_letter c || is_digit c
                                    || one_of "-" c))) ].

(** [\b([A-Za-z\s]+),\s*([A-Za-z\s]{2,})\b] *)
Definition location_pattern : regex :=
  seqs [ Bnd;
         Grp 1 (Plus (Cls (fun c => ascii_letter c || isspace c)));
         Chr ","; Star s_;
         Grp 2 (AtLeast 2 (Cls (fun c => ascii_letter c || isspace c)));
         Bnd ].

Definition _extract_contact_info `{SetOrder} (text : str) : ContactInfo :=
  let emails := findall0 false email_pattern text in
  let phones := flat_map (fun pattern => findall0 false pattern text)
                         phone_patterns in
  let linkedin_matches := findall1 true linkedin_pattern text in
  let locations := findall2 false location_pattern text in
  {| emails := set_list emails;
     phones := set_list phones;
     linkedin := hd_error linkedin_matches;
     location := hd_error locations |}.

(** ** [_categorize_skill] and [_extract_skills] *)

Definition mem (x : str) (l : list string) : bool :=
  existsb (fun y => str_eqb x (of_string y)) l.

Definition _categorize_skill (skill : str) : str :=
  let programming_langs :=
    ["python"; "java"; "javascript"; "c++"; "php"; "ruby"] in
  let frameworks := ["react"; "angular"; "django"; "flask"; "spring"] in
  let databases := ["mysql"; "mongodb"; "postgresql"; "redis"] in
  let cloud := ["aws"; "azure"; "gcp"; "docker"; "kubernetes"] in
  if mem (lower skill) programming_langs then "programming_language"
  else if mem (lower skill) frameworks then "framework"
  else if mem (lower skill) databases then "database"
  else if mem (lower skill) cloud then "cloud_devops"
  else "other".

Record SkillEntry : Type := {
  skill : ustr;
  mentions : nat;
  category : str
}.

Record Skills : Type := {
  technical_skills : list SkillEntry;
  total_skills_found : nat
}.

(** The entry appended for a keyword found in the text. *)
Definition skill_entry (text_lower : str) (skill : str) : SkillEntry :=
  {| skill := title skill;
     mentions := count (lower skill) text_lower;
     category := _categorize_skill skill |}.

(** The loop over [skills_keywords]: [found_skills] before the sort. *)
Definition find_skills (keywords : list str) (text_lower : str)
  : list SkillEntry :=
  flat_map (fun skill =>
              if contains (lower skill) text_lower
              then [skill_entry text_lower skill]
              else []) keywords.

Definition _extract_skills (text : str) : Skills :=
  let text_lower := lower text in
  let found_skills := find_skills skills_keywords text_lower in
  let found_skills := sort_reverse mentions found_skills in
  {| technical_skills := firstn 20 found_skills;
     total_skills_found := length found_skills |}.

(** ** [_extract_education] *)

Record Degree : Type := {
  degree : ustr;
  field : ustr;
  type : str
}.

Record Education : Type := {
  degrees : list Degree;
  institutions : list str;
  graduation_years : list str
}.

(** [(bachelor|master|phd|doctorate|diploma|b\.tech|m\.tech|b\.sc|m\.sc|mba|bca|mca).*?(?:in|of)\s+([\w\s]+)] *)
Definition degree_pattern : regex :=
  seqs [ Grp 1 (alts (map lit
           [ "bachelor"; "master"; "phd"; "doctorate"; "diploma"; "b.tech";
             "m.tech"; "b.sc"; "m.sc"; "mba"; "bca"; "mca" ]));
         LazyStar Any;
         Alt (lit "in") (lit "of");
         Plus s_;
         Grp 2 (Plus (Cls (fun c => is_word c || isspace c))) ].

(** [\b(19|20)\d{2}\b] *)
Definition year_pattern : regex :=
  seqs [ Bnd; Grp 1 (Alt (lit "19") (lit "20")); Rep 2 d_; Bnd ].

Definition university_keywords : list string :=
  ["university"; "college"; "institute"; "school"].

(** The loop over the lines that collects [universities]. *)
Definition find_universities (lines : list str) : list str :=
  flat_map (fun line =>
              if any_keyword_in university_keywords line then
                let clean_line := strip (sub false (Rep 4 d_) [] line) in
                if 5 <? length clean_line then [clean_line] else []
              else []) lines.

Definition _extract_education `{SetOrder} (text : str) : Education :=
  let degree_matches := findall2 true degree_pattern text in
  let education_info :=
    map (fun m => {| degree := title (fst m);
                     field := title (strip (snd m));
                     type := "degree" |}) degree_matches in
  let years := findall1 false year_pattern text in
  let lines := split_on nl text in
  let universities := find_universities lines in
  {| degrees := education_info;
     institutions := firstn 3 universities;
     graduation_years := set_list years |}.

(** ** [_determine_experience_level] and [_extract_experience] *)

Definition _determine_experience_level (years : option Z) : str :=
  match years with
  | None => "unknown"
  | Some years =>
      if (years <? 2)%Z then "entry_level"
      else if (years <? 5)%Z then "junior"
      else if (years <? 10)%Z then "mid_level"
      else "senior"
  end.

(** The exceptions that reach [parse_resume_file]: the two the parser raises
    itself, the [ValueError] of [int], and whatever [file.read] or a decoding
    library raises. *)
Inductive exn : Type :=
| ValueError (msg : str)
| ImportError (msg : str)
| LibraryError (msg : str).

(** [str(e)] *)
Definition exn_str (e : exn) : str :=
  match e with
  | ValueError msg | ImportError msg | LibraryError msg => msg
  end.

Record Experience : Type := {
  total_years_experience : option Z;
  job_titles : list ustr;
  companies : list str;
  experience_level : str
}.

(** [(\d+)\+?\s*(years?|yrs?)\s*of\s*experience] *)
Definition exp_pattern : regex :=
  seqs [ Grp 1 (Plus d_); Opt (Chr "+"); Star s_;
         Grp 2 (Alt (Seq (lit "year") (Opt (Chr "s")))
                    (Seq (lit "yr") (Opt (Chr "s"))));
         Star s_; lit "of"; Star s_; lit "experience" ].

(** The pattern built for one keyword.  The literal is not a raw string:
    its first character is the backspace that ['\b'] denotes there, while
    [\s] and [\w], which are no escapes of a string literal, reach [re] as
    they are. *)
Definition title_pattern (keyword : string) : regex :=
  seqs [ Chr bs; lit keyword; Plus s_;
         Star (Grp 1 (Seq (Plus w_) (Star s_)));
         alts (map lit [ "engineer"; "developer"; "manager"; "analyst";
                         "designer"; "specialist" ]) ].

(** The two nested loops that fill [job_titles]; a match is the text of the
    group, which [''.join] gives back as it is. *)
Definition find_job_titles (keywords : list string) (text : str) : list ustr :=
  flat_map (fun keyword =>
              map (fun m => title (of_string keyword ++ of_string " " ++ strip m))
                  (findall1 true (title_pattern keyword) text)) keywords.

(** [\bat\s+([A-Z][\w\s&.,]+(?:Inc|LLC|Corp|Ltd|Company|Co\.)?)] *)
Definition company_pattern : regex :=
  seqs [ Bnd; lit "at"; Plus s_;
         Grp 1 (seqs [ Cls (between 65 90);
                       Plus (Cls (fun c => is_word c || isspace c
                                           || one_of "&.," c));
                       Opt (alts (map lit [ "Inc"; "LLC"; "Corp"; "Ltd";
                                            "Company"; "Co." ])) ]) ].

(** [[int(match[0]) for match in exp_matches]]: the numbers, or the
    [ValueError] of the first one that [int] turns down. *)
Fixpoint years_of (exp_matches : list (str * str)) : exn + list Z :=
  match exp_matches with
  | [] => inr []
  | m :: exp_matches' =>
      match int (fst m) with
      | inl msg => inl (ValueError msg)
      | inr y =>
          match years_of exp_matches' with
          | inl e => inl e
          | inr years => inr (y :: years)
          end
      end
  end.

Definition _extract_experience `{SetOrder} (text : str) : exn + Experience :=
  let exp_matches := findall2 true exp_pattern text in
  match years_of exp_matches with
  | inl e => inl e
  | inr years =>
      let total_experience :=
        match years with
        | [] => None
        | y :: years' => Some (max y years')
        end in
      let job_titles := find_job_titles experience_keywords text in
      let companies := findall1 false company_pattern text in
      inr {| total_years_experience := total_experience;
             job_titles := firstn 5 (set_list job_titles);
             companies := firstn 5 (set_list companies);
             experience_level :=
               _determine_experience_level total_experience |}
  end.

(** ** [_extract_summary] *)

Record Summary : Type := {
  summary : option str;
  source : str
}.

Definition summary_keywords : list string :=
  ["summary"; "objective"; "profile"; "about"].

(** The loop over [enumerate(lines)]: at the first line with a keyword the
    three lines after it are joined, and the loop is left.  [rest] is
    [lines[i+1:]] for the line at hand. *)
Fixpoint summary_loop (lines : list str) : option str :=
  match lines with
  | [] => None
  | line :: rest =>
      if any_keyword_in summary_keywords line
      then Some (strip (join [nl] (firstn 3 rest)))
      else summary_loop rest
  end.

(** The truth value of [summary_text]: [None] and the empty string are
    false. *)
Definition truthy (x : option str) : bool :=
  match x with
  | Some (_ :: _) => true
  | _ => false
  end.

Definition _extract_summary (text : str) : Summary :=
  let lines := split_on nl text in
  let summary_text := summary_loop lines in
  {| summary := summary_text;
     source := if truthy summary_text then "extracted" else "not_found" |}.

(** ** [_parse_text] *)

Record Metadata : Type := {
  filename : str;
  file_type : str;
  parsed_at : str;
  text_length : nat;
  parser_version : str
}.

(** The record returned for a document; [summary_section] is the entry of
    key ["summary"], [metadata] is filled in by [parse_resume_file]. *)
Record ParsedData : Type := {
  personal_info : PersonalInfo;
  contact_info : ContactInfo;
  skills : Skills;
  education : Education;
  experience : Experience;
  summary_section : Summary;
  raw_text : str;
  metadata : option Metadata
}.

(** Of the extractors only [_extract_experience] can raise; what it raises
    goes through [_parse_text]. *)
Definition _parse_text `{SetOrder} (nlp : option recogniser) (text : str)
  : exn + ParsedData :=
  let cleaned_text := _clean_text text in
  match _extract_experience cleaned_text with
  | inl e => inl e
  | inr experience_info =>
      inr {| personal_info := _extract_personal_info nlp cleaned_text;
             contact_info := _extract_contact_info cleaned_text;
             skills := _extract_skills cleaned_text;
             education := _extract_education cleaned_text;
             experience := experience_info;
             summary_section := _extract_summary cleaned_text;
             raw_text := if 1000 <? length text
                         then firstn 1000 text ++ of_string "..."
                         else text;
             metadata := None |}
  end.

(** ** The documents, the decoding libraries and their failures *)

Definition bytes := list Byte.byte.

(** What a run of the parser does outside of its own memory. *)
Inductive event : Type :=
| FileRead (filename : str)            (* [await file.read()] *)
| PdfOpen (content : bytes)            (* [pdfplumber.open] *)
| DocxOpen (content : bytes)           (* [docx.Document] *)
| LogError (msg : str).                (* [logger.error] *)

(** An uploaded file; [read] is what [await file.read()] gives. *)
Record UploadFile : Type := {
  file_name : str;
  content_type : str;
  read : exn + bytes
}.

(** What the module finds when it is loaded and run: the two optional
    decoders (the text of each page, [None] for a page without text; the text
    of each paragraph), the entity recogniser, the clock and the iteration
    order of sets. *)
Record Runtime : Type := {
  PDF_AVAILABLE : bool;
  DOCX_AVAILABLE : bool;
  pdf_pages : bytes -> exn + list (option str);
  docx_paragraphs : bytes -> exn + list str;
  nlp : option recogniser;
  utcnow_isoformat : str;
  set_order : SetOrder
}.

(** Computations that log events and may raise. *)
Definition M (A : Type) : Type := list event -> list event * (exn + A).

Definition ret {A} (a : A) : M A := fun tr => (tr, inr a).

Definition raise {A} (e : exn) : M A := fun tr => (tr, inl e).

Definition bind {A B} (m : M A) (k : A -> M B) : M B :=
  fun tr =>
    match m tr with
    | (tr', inl e) => (tr', inl e)
    | (tr', inr a) => k a tr'
    end.

Definition tell (ev : event) : M unit := fun tr => (tr ++ [ev], inr tt).

(** The result of a call into a library. *)
Definition lift {A} (r : exn + A) : M A := fun tr => (tr, r).

Notation "x <- m ;; k" := (bind m (fun x => k))
  (at level 61, m at next level, right associativity).
Notation "m ;; k" := (bind m (fun _ => k))
  (at level 61, right associativity).

(** [try: body  except Exception as e: logger.error(f"{what}{e}"); raise] *)
Definition logged {A} (what : string) (body : M A) : M A :=
  fun tr =>
    match body tr with
    | (tr', inl e) =>
        (tr' ++ [LogError (of_string what ++ exn_str e)], inl e)
    | (tr', inr a) => (tr', inr a)
    end.

(** The loop over the pages: a page without text adds nothing. *)
Fixpoint pages_text (pages : list (option str)) (text : str) : str :=
  match pages with
  | [] => text
  | Some (c :: page_text) :: pages' =>
      pages_text pages' (text ++ (c :: page_text) ++ [nl])
  | _ :: pages' => pages_text pages' text
  end.

Definition _extract_text_from_pdf (rt : Runtime) (file : UploadFile) : M str :=
  if negb (PDF_AVAILABLE rt) then
    raise (ImportError
             "pdfplumber not available. Install with: pip install pdfplumber")
  else
    logged "Error extracting text from PDF: "
      (tell (FileRead (file_name file)) ;;
       content <- lift (read file) ;;
       tell (PdfOpen content) ;;
       pages <- lift (pdf_pages rt content) ;;
       ret (strip (pages_text pages []))).

(** The loop over the paragraphs. *)
Fixpoint paragraphs_text (paragraphs : list str) (text : str) : str :=
  match paragraphs with
  | [] => text
  | paragraph :: paragraphs' =>
      paragraphs_text paragraphs' (text ++ paragraph ++ [nl])
  end.

Definition _extract_text_from_docx (rt : Runtime) (file : UploadFile)
  : M str :=
  if negb (DOCX_AVAILABLE rt) then
    raise (ImportError
             "python-docx not available. Install with: pip install python-docx")
  else
    logged "Error extracting text from DOCX: "
      (tell (FileRead (file_name file)) ;;
       content <- lift (read file) ;;
       tell (DocxOpen content) ;;
       paragraphs <- lift (docx_paragraphs rt content) ;;
       ret (strip (paragraphs_text paragraphs []))).

Definition with_metadata (parsed_data : ParsedData) (m : Metadata)
  : ParsedData :=
  {| personal_info := personal_info parsed_data;
     contact_info := contact_info parsed_data;
     skills := skills parsed_data;
     education := education parsed_data;
     experience := experience parsed_data;
     summary_section := summary_section parsed_data;
     raw_text := raw_text parsed_data;
     metadata := Some m |}.

(** ** [parse_resume_file] *)

Definition parse_resume_file (rt : Runtime) (file : UploadFile)
  : M ParsedData :=
  logged "Error parsing resume file: "
    (text <-
       (if str_eqb (content_type file) "application/pdf" then
          _extract_text_from_pdf rt file
        else if mem (content_type file)
                  [ "application/vnd.openxmlformats-officedocument.wordprocessingml.document";
                    "application/msword" ] then
          _extract_text_from_docx rt file
        else
          raise (ValueError (of_string "Unsupported file type: "
                               ++ content_type file))) ;;
     parsed_data <- lift (@_parse_text (set_order rt) (nlp rt) text) ;;
     ret (with_metadata parsed_data
            {| filename := file_name file;
               file_type := content_type file;
               parsed_at := utcnow_isoformat rt;
               text_length := length text;
               parser_version := "1.0.0" |})).

End Parser.

(* ================================================================== *)
(** * The handlers of [main.py]                                         *)
(* ================================================================== *)

Module Api.
Import Py Re Parser.

Definition allowed_types : list string :=
  [ "application/pdf";
    "application/vnd.openxmlformats-officedocument.wordprocessingml.document";
    "application/msword" ].

(** The entry of a file in the [results] of a batch. *)
Inductive item : Type :=
| ItemSuccess (filename : str) (data : ParsedData)
| ItemError (filename : str) (message : str).

(** The [content] of a response. *)
Inductive content : Type :=
| ParsedContent (message filename : str) (file_size : N) (data : ParsedData)
| ErrorContent (message detail : str)
| BatchContent (message : str) (results : list item).

Inductive response : Type :=
| JSONResponse (status_code : nat) (body : content).

(** What a handler can raise: the [HTTPException] it raises itself, and the
    exceptions of the calls it makes. *)
Inductive api_exn : Type :=
| HTTPException (status_code : nat) (detail : str)
| Unhandled (e : exn).

(** What a handler does: it reads the file, rewinds it, logs an error, and
    runs the parser, which has its own events. *)
Inductive api_event : Type :=
| HandlerRead (filename : str)         (* [await file.read()] *)
| HandlerSeek (filename : str)         (* [await file.seek(0)] *)
| HandlerLog (msg : str)               (* [logger.error] *)
| ParserEvent (ev : event).

Definition H (A : Type) : Type :=
  list api_event -> list api_event * (api_exn + A).

Definition hret {A} (a : A) : H A := fun tr => (tr, inr a).

Definition hraise {A} (e : api_exn) : H A := fun tr => (tr, inl e).

Definition hbind {A B} (m : H A) (k : A -> H B) : H B :=
  fun tr =>
    match m tr with
    | (tr', inl e) => (tr', inl e)
    | (tr', inr a) => k a tr'
    end.

Definition htell (ev : api_event) : H unit := fun tr => (tr ++ [ev], inr tt).

Notation "x <-- m ;;; k" := (hbind m (fun x => k))
  (at level 61, m at next level, right associativity).
Notation "m ;;; k" := (hbind m (fun _ => k))
  (at level 61, right associativity).

(** [await resume_parser.parse_resume_file(file)]: the run of the parser,
    its events and its result. *)
Definition call_parser (rt : Runtime) (file : UploadFile)
    (tr : list api_event) : list api_event * (exn + ParsedData) :=
  let (evs, r) := parse_resume_file rt file [] in
  (tr ++ map ParserEvent evs, r).

(** A call whose exceptions are not the handler's own. *)
Definition external {A} (call : list api_event -> list api_event * (exn + A))
  : H A :=
  fun tr =>
    match call tr with
    | (tr', inl e) => (tr', inl (Unhandled e))
    | (tr', inr a) => (tr', inr a)
    end.

(** [await file.read()] in a handler. *)
Definition read_file (file : UploadFile) : H bytes :=
  external (fun tr => (tr ++ [HandlerRead (file_name file)], read file)).

(** [try: body  except HTTPException: raise  except Exception as e:
    logger.error(what + str(e)); return JSONResponse(500, ...)] *)
Definition guarded (what message : string) (body : H response) : H response :=
  fun tr =>
    match body tr with
    | (tr', inl (Unhandled e)) =>
        (tr' ++ [HandlerLog (of_string what ++ exn_str e)],
         inr (JSONResponse 500
                (ErrorContent (of_string message) (exn_str e))))
    | other => other
    end.

(** ** [parse_resume] *)

Definition parse_resume (rt : Runtime) (file : UploadFile) : H response :=
  guarded "Error parsing resume: " "Internal server error while parsing resume"
    (if negb (mem (content_type file) allowed_types) then
       hraise (HTTPException 400
                 (of_string "Unsupported file type: " ++ content_type file
                    ++ of_string ". Supported types: PDF, DOC, DOCX"))
     else
       content <-- read_file file ;;;
       if (10 * 1024 * 1024 <? N.of_nat (length content))%N then
         hraise (HTTPException 413 "File too large. Maximum size: 10MB")
       else
         htell (HandlerSeek (file_name file)) ;;;
         parsed_data <-- external (call_parser rt file) ;;;
         hret (JSONResponse 200
                 (ParsedContent "Resume parsed successfully" (file_name file)
                    (N.of_nat (length content)) parsed_data))).

(** ** [parse_resume_batch] *)

(** One round of the loop over the files, with its own [try]: the entry
    appended to [results]. *)
Definition batch_item (rt : Runtime) (file : UploadFile) : H item :=
  fun tr =>
    if negb (mem (content_type file) allowed_types) then
      (tr, inr (ItemError (file_name file)
                  (of_string "Unsupported file type: " ++ content_type file)))
    else
      match call_parser rt file tr with
      | (tr', inr parsed_data) =>
          (tr', inr (ItemSuccess (file_name file) parsed_data))
      | (tr', inl e) =>
          (tr', inr (ItemError (file_name file) (exn_str e)))
      end.

Fixpoint batch_loop (rt : Runtime) (files : list UploadFile)
    (results : list item) : H (list item) :=
  match files with
  | [] => hret results
  | file :: files' =>
      entry <-- batch_item rt file ;;;
      batch_loop rt files' (results ++ [entry])
  end.

Definition parse_resume_batch (rt : Runtime) (files : list UploadFile)
  : H response :=
  guarded "Error in batch processing: "
    "Internal server error in batch processing"
    (if 10 <? length files then
       hraise (HTTPException 400 "Maximum 10 files allowed per batch")
     else
       results <-- batch_loop rt files [] ;;;
       hret (JSONResponse 200
               (BatchContent
                  (of_string "Processed " ++ str_of_nat (length files)
                     ++ of_string " files")
                  results))).

End Api.

(* ================================================================== *)
(** * Notions the statements are written with                           *)
(* ================================================================== *)

Module Spec.
Import Py Re Parser.

(** ** Strings whose only blanks are single spaces *)

(** [tidy after_space s]: every blank of [s] is a space, and no space follows
    another one, nor the start when [after_space] holds. *)
Fixpoint tidy (after_space : bool) (s : str) : bool :=
  match s with
  | [] => true
  | c :: s' =>
      if isspace c then Ascii.eqb c sp && negb after_space && tidy true s'
      else tidy false s'
  end.

(** [squeeze p repl in_run s]: every maximal run of characters of [p] is
    replaced by [repl]; [in_run] tells that the run at the front has been
    replaced already. *)
Fixpoint squeeze (p : ascii -> bool) (repl : str) (in_run : bool) (s : str)
  : str :=
  match s with
  | [] => []
  | c :: s' =>
      if p c then (if in_run then [] else repl) ++ squeeze p repl true s'
      else c :: squeeze p repl false s'
  end.

(** The length of the run of characters of [p] at the front of [s]. *)
Fixpoint lead (p : ascii -> bool) (s : str) : nat :=
  match s with
  | [] => 0
  | c :: s' => if p c then S (lead p s') else 0
  end.

(** ** The name heuristic, as the specification words it *)

Definition name_stop_words : list string :=
  ["email"; "phone"; "address"; "linkedin"].

Definition without_periods (token : str) : str :=
  filter (fun c => negb (Ascii.eqb c dot)) token.

Definition starts_uppercase (token : str) : bool :=
  match token with
  | c :: _ => is_upper c
  | [] => false
  end.

(** A line is taken as a name when (a) it contains none of the stop words,
    whatever the case, (b) it splits into two to four tokens, each alphabetic
    once its periods are taken out, and (c) one token at least starts with an
    uppercase letter. *)
Definition name_candidate (line : str) : bool :=
  let tokens := split line in
  negb (existsb (fun w => contains (of_string w) (lower line)) name_stop_words)
  && ((2 <=? length tokens) && (length tokens <=? 4)
      && forallb (fun t => isalpha (without_periods t)) tokens)
  && existsb starts_uppercase tokens.

(** A string that is not empty. *)
Definition nonempty (s : str) : bool :=
  match s with
  | [] => false
  | _ :: _ => true
  end.

(** ** What a pattern matches

    [den ic r prev t rest cs prev' cs']: the pattern [r] matches the text
    [t], which stands between the character [prev] and the text [rest];
    [cs] are the groups before the match and [cs'] the groups after it,
    [prev'] is the character before [rest]. *)
Inductive den (ic : bool)
  : regex -> option ascii -> str -> str -> caps -> option ascii -> caps
    -> Prop :=
| den_Eps prev rest cs :
    den ic Eps prev [] rest cs prev cs
| den_Chr c x prev rest cs :
    chr_match ic c x = true ->
    den ic (Chr c) prev [x] rest cs (Some x) cs
| den_Any x prev rest cs :
    Ascii.eqb x nl = false ->
    den ic Any prev [x] rest cs (Some x) cs
| den_Cls (p : ascii -> bool) x prev rest cs :
    p x = true ->
    den ic (Cls p) prev [x] rest cs (Some x) cs
| den_Bnd prev rest cs :
    xorb (word_at prev) (word_at (hd_error rest)) = true ->
    den ic Bnd prev [] rest cs prev cs
| den_Seq r1 r2 prev t1 t2 rest cs p1 cs1 p2 cs2 :
    den ic r1 prev t1 (t2 ++ rest) cs p1 cs1 ->
    den ic r2 p1 t2 rest cs1 p2 cs2 ->
    den ic (Seq r1 r2) prev (t1 ++ t2) rest cs p2 cs2
| den_Alt_l r1 r2 prev t rest cs p1 cs1 :
    den ic r1 prev t rest cs p1 cs1 ->
    den ic (Alt r1 r2) prev t rest cs p1 cs1
| den_Alt_r r1 r2 prev t rest cs p1 cs1 :
    den ic r2 prev t rest cs p1 cs1 ->
    den ic (Alt r1 r2) prev t rest cs p1 cs1
| den_Star_nil r prev rest cs :
    den ic (Star r) prev [] rest cs prev cs
| den_Star_cons r prev t1 t2 rest cs p1 cs1 p2 cs2 :
    t1 <> [] ->
    den ic r prev t1 (t2 ++ rest) cs p1 cs1 ->
    den ic (Star r) p1 t2 rest cs1 p2 cs2 ->
    den ic (Star r) prev (t1 ++ t2) rest cs p2 cs2
| den_Lazy_nil r prev rest cs :
    den ic (LazyStar r) prev [] rest cs prev cs
| den_Lazy_cons r prev t1 t2 rest cs p1 cs1 p2 cs2 :
    t1 <> [] ->
    den ic r prev t1 (t2 ++ rest) cs p1 cs1 ->
    den ic (LazyStar r) p1 t2 rest cs1 p2 cs2 ->
    den ic (LazyStar r) prev (t1 ++ t2) rest cs p2 cs2
| den_Grp n r prev t rest cs p1 cs1 :
    den ic r prev t rest cs p1 cs1 ->
    den ic (Grp n r) prev t rest cs p1 ((n, t) :: cs1).

(** The pattern [r] matches the text [t] wherever it stands. *)
Definition accepts (ic : bool) (r : regex) (t : str) : Prop :=
  forall prev rest cs, exists p1 cs1, den ic r prev t rest cs p1 cs1.

(** The character before the position reached after [pre], when [prev] is
    the one before [pre]. *)
Fixpoint prev_at (prev : option ascii) (pre : str) : option ascii :=
  match pre with
  | [] => prev
  | c :: pre' => prev_at (Some c) pre'
  end.

(** The words [years?|yrs?] matches, up to case. *)
Definition units : list str := strs ["year"; "years"; "yr"; "yrs"].

(** ** Mentions of years of experience

    [mention digits m]: the text [m] is a number written [digits], an
    optional plus sign, then the words "year(s)" or "yr(s)", "of" and
    "experience" in any case, with any blanks, or none, between them. *)
Definition mention (digits m : str) : Prop :=
  exists plus ws1 unit ws2 of_ ws3 exp_,
    m = digits ++ plus ++ ws1 ++ unit ++ ws2 ++ of_ ++ ws3 ++ exp_
    /\ digits <> []
    /\ forallb is_digit digits = true
    /\ (plus = [] \/ plus = of_string "+")
    /\ forallb isspace ws1 = true
    /\ In (lower unit) units
    /\ forallb isspace ws2 = true
    /\ lower of_ = of_string "of"
    /\ forallb isspace ws3 = true
    /\ lower exp_ = of_string "experience".


(** [c in s] for one character. *)
Definition has_char (c : ascii) (s : str) : bool := existsb (Ascii.eqb c) s.

(** A character that is no decimal digit. *)
Definition nodigit (c : ascii) : bool := negb (is_digit c).

(** A text that starts with a character that is no digit. *)
Definition starts_nodigit (x : str) : Prop :=
  match x with
  | c :: _ => is_digit c = false
  | [] => False
  end.

(** The second group of [exp_pattern]: [years?|yrs?]. *)
Definition unit_pattern : regex :=
  Alt (Seq (lit "year") (Opt (Chr "s"))) (Seq (lit "yr") (Opt (Chr "s"))).

(** The events of a decoder: reading the file, opening it as a PDF or as a
    Word document. *)
Definition decoder_event (ev : event) : bool :=
  match ev with
  | FileRead _ | PdfOpen _ | DocxOpen _ => true
  | LogError _ => false
  end.

(** A text that does not end with a blank. *)
Fixpoint ends_nonspace (s : str) : bool :=
  match s with
  | [] => true
  | [c] => negb (isspace c)
  | _ :: s' => ends_nonspace s'
  end.

(** A text that does not start with a blank. *)
Definition starts_nonspace (s : str) : bool :=
  match s with
  | [] => true
  | c :: _ => negb (isspace c)
  end.

(** ** The classes of the contact patterns *)

(** [[A-Za-z0-9._%+-]] *)
Definition email_local_char (c : ascii) : bool :=
  ascii_letter c || is_digit c || one_of "._%+-" c.

(** [[A-Za-z0-9.-]] *)
Definition email_domain_char (c : ascii) : bool :=
  ascii_letter c || is_digit c || one_of ".-" c.

(** [[A-Z|a-z]]: the bar is a character of the class. *)
Definition email_tld_char (c : ascii) : bool :=
  ascii_letter c || one_of "|" c.

(** [[A-Za-z0-9-]] *)
Definition handle_char (c : ascii) : bool :=
  ascii_letter c || is_digit c || one_of "-" c.

(** The number of decimal digits of a text. *)
Definition digits_in (t : str) : nat := length (filter is_digit t).

(** ** The declared types *)

Definition pdf_type : str := "application/pdf".
Definition docx_type : str :=
  "application/vnd.openxmlformats-officedocument.wordprocessingml.document".
Definition msword_type : str := "application/msword".

(** ** The degrees *)



(** ** Runs of digits *)

(** No run of [n] digits stands in the text. *)
Definition no_digit_run (n : nat) (s : str) : Prop :=
  forall pre d post,
    s = pre ++ d ++ post -> length d = n -> forallb is_digit d = false.

(** The same, decided from left to right: [k] digits stand just before. *)
Fixpoint runs_below (n k : nat) (s : str) : bool :=
  match s with
  | [] => true
  | c :: s' =>
      if is_digit c then (S k <? n) && runs_below n (S k) s'
      else runs_below n 0 s'
  end.

(** ** What a substitution keeps, and the places *)

(** What [re.sub] keeps of the subject when the replacement is empty. *)
Definition kept (ps : list piece) : str :=
  flat_map (fun p => match p with
                     | Lit c => [c]
                     | Hit _ _ => []
                     end) ps.

(** [[A-Za-z\s]] *)
Definition place_char (c : ascii) : bool := ascii_letter c || isspace c.

End Spec.

(** ** Notions for the handlers *)

Module ApiSpec.
Import Py Re Parser Api.

(** An event of the parser. *)
Definition parser_event (ev : api_event) : bool :=
  match ev with
  | ParserEvent _ => true
  | _ => false
  end.

Definition item_filename (entry : item) : str :=
  match entry with
  | ItemSuccess filename _ | ItemError filename _ => filename
  end.

(** The entry of a file in a batch, told from the file alone: an error for
    a type that is not allowed, else the data of the parser or the text of
    its exception. *)
Definition item_of (rt : Runtime) (file : UploadFile) (entry : item) : Prop :=
  if mem (content_type file) allowed_types then
    match snd (parse_resume_file rt file []) with
    | inr data => entry = ItemSuccess (file_name file) data
    | inl e => entry = ItemError (file_name file) (exn_str e)
    end
  else
    entry = ItemError (file_name file)
              (of_string "Unsupported file type: " ++ content_type file).

End ApiSpec.

(* ================================================================== *)
(** * Facts about the string primitives                                 *)
(* ================================================================== *)

Import Py Re Parser Spec.

#[local] Arguments Ascii.eqb : simpl never.
#[local] Arguments isspace : simpl never.

Section StripFacts.

Variable p : ascii -> bool.

Lemma dropwhile_idem (s : str) : dropwhile p (dropwhile p s) = dropwhile p s.
Proof.
  induction s as [|c s IH]; simpl; trivial.
  destruct (p c) eqn:E; trivial.
  simpl. now rewrite E.
Qed.

(** What [dropwhile] removes is a prefix. *)
Lemma dropwhile_suffix (s : str) :
  exists t, s = t ++ dropwhile p s /\ forallb p t = true.
Proof.
  induction s as [|c s [t [IH1 IH2]]]; simpl.
  - now exists [].
  - destruct (p c) eqn:E.
    + exists (c :: t). simpl. rewrite E, IH2. split; trivial. now f_equal.
    + now exists [].
Qed.

Lemma dropwhile_head (s : str) (c : ascii) (t : str) :
  dropwhile p s = c :: t -> p c = false.
Proof.
  induction s as [|x s IH]; simpl; try discriminate.
  destruct (p x) eqn:E; trivial.
  intros H. injection H as -> _. exact E.
Qed.

Lemma dropwhile_fix (s : str) :
  match s with [] => True | c :: _ => p c = false end -> dropwhile p s = s.
Proof.
  destruct s as [|c s]; simpl; trivial. now intros ->.
Qed.

End StripFacts.

Lemma rstrip_prefix (s : str) : exists t, s = rstrip s ++ t.
Proof.
  unfold rstrip.
  destruct (dropwhile_suffix isspace (rev s)) as [t [H _]].
  exists (rev t).
  rewrite <- rev_app_distr, <- H. now rewrite rev_involutive.
Qed.

Lemma rstrip_idem (s : str) : rstrip (rstrip s) = rstrip s.
Proof.
  unfold rstrip. now rewrite rev_involutive, dropwhile_idem.
Qed.

(** Stripping on the right leaves a string that starts with no blank as it
    starts. *)
Lemma lstrip_rstrip_lstrip (s : str) :
  lstrip (rstrip (lstrip s)) = rstrip (lstrip s).
Proof.
  unfold lstrip at 1. apply dropwhile_fix.
  destruct (rstrip_prefix (lstrip s)) as [t Ht].
  destruct (rstrip (lstrip s)) as [|c u] eqn:E; trivial.
  simpl in Ht. unfold lstrip in Ht.
  now apply dropwhile_head in Ht.
Qed.

Lemma strip_idem (s : str) : strip (strip s) = strip s.
Proof.
  unfold strip. now rewrite lstrip_rstrip_lstrip, rstrip_idem.
Qed.

Lemma tidy_weaken (b : bool) (s : str) : tidy true s = true -> tidy b s = true.
Proof.
  destruct s as [|c s]; simpl; trivial.
  destruct (isspace c); trivial.
  rewrite andb_false_r. discriminate.
Qed.

Lemma tidy_squeeze (b : bool) (s : str) :
  tidy b (squeeze isspace [sp] b s) = true.
Proof.
  revert b. induction s as [|c s IH]; intros b; simpl; trivial.
  destruct (isspace c) eqn:E.
  - destruct b; simpl.
    + apply IH.
    + now rewrite IH.
  - simpl. now rewrite E.
Qed.

Lemma squeeze_tidy (b : bool) (s : str) :
  tidy b s = true -> squeeze isspace [sp] b s = s.
Proof.
  revert b. induction s as [|c s IH]; intros b; simpl; trivial.
  destruct (isspace c) eqn:E.
  - intros H. apply andb_prop in H as [H H3]. apply andb_prop in H as [H1 H2].
    apply Ascii.eqb_eq in H1. subst c.
    destruct b; try discriminate. simpl.
    f_equal. now apply IH.
  - intros H. f_equal. now apply IH.
Qed.

Lemma squeeze_none (p : ascii -> bool) (repl : str) (b : bool) (s : str) :
  forallb (fun c => negb (p c)) s = true -> squeeze p repl b s = s.
Proof.
  revert b. induction s as [|c s IH]; intros b; simpl; trivial.
  intros H. apply andb_prop in H as [H1 H2].
  destruct (p c); try discriminate. f_equal. now apply IH.
Qed.

Lemma tidy_no_newline (b : bool) (s : str) :
  tidy b s = true -> forallb (fun c => negb (Ascii.eqb nl c)) s = true.
Proof.
  revert b. induction s as [|c s IH]; intros b; simpl; trivial.
  destruct (isspace c) eqn:E.
  - intros H. apply andb_prop in H as [H H3]. apply andb_prop in H as [H1 H2].
    apply Ascii.eqb_eq in H1. subst c.
    apply andb_true_intro. split; [reflexivity | now apply (IH true)].
  - intros H. apply andb_true_intro. split; [|now apply (IH false)].
    destruct (Ascii.eqb nl c) eqn:En; trivial.
    apply Ascii.eqb_eq in En. subst c. discriminate.
Qed.

Lemma tidy_dropwhile (b : bool) (s : str) :
  tidy b s = true -> tidy false (dropwhile isspace s) = true.
Proof.
  revert b. induction s as [|c s IH]; intros b; simpl; trivial.
  destruct (isspace c) eqn:E.
  - intros H. apply andb_prop in H as [_ H]. now apply (IH true).
  - intros H. simpl. now rewrite E.
Qed.

Lemma tidy_prefix (b : bool) (s t : str) :
  tidy b (s ++ t) = true -> tidy b s = true.
Proof.
  revert b. induction s as [|c s IH]; intros b; simpl; trivial.
  destruct (isspace c).
  - intros H. apply andb_prop in H as [H H3]. rewrite H. now apply IH.
  - apply IH.
Qed.

Lemma tidy_strip (s : str) : tidy false s = true -> tidy false (strip s) = true.
Proof.
  intros H. unfold strip.
  apply tidy_dropwhile in H. fold (lstrip s) in H.
  destruct (rstrip_prefix (lstrip s)) as [t Ht].
  rewrite Ht in H. now apply tidy_prefix in H.
Qed.

(** ** Substrings *)

Lemma startswith_iff (p s : str) :
  startswith p s = true <-> exists post, s = p ++ post.
Proof.
  revert s. induction p as [|a p IH]; intros s; cbn [startswith].
  - split; [now exists s | reflexivity].
  - destruct s as [|b s].
    + split; [discriminate | intros [post H]; discriminate H].
    + split.
      * intros H. apply andb_prop in H as [Hab H].
        apply Ascii.eqb_eq in Hab. subst b.
        apply IH in H as [post ->]. now exists post.
      * intros [post H]. cbn [app] in H. injection H as -> ->.
        rewrite Ascii.eqb_refl. apply IH. now exists post.
Qed.

(** [sub in s] holds when [s] is [sub] between two texts. *)
Lemma contains_iff (sub s : str) :
  contains sub s = true <-> exists pre post, s = pre ++ sub ++ post.
Proof.
  induction s as [|c s IH]; cbn [contains].
  - rewrite orb_false_r, startswith_iff. split.
    + intros [post H]. now exists [], post.
    + intros (pre & post & H). symmetry in H.
      apply app_eq_nil in H as [_ H]. apply app_eq_nil in H as [-> _].
      now exists [].
  - split.
    + intros H. apply orb_prop in H as [H|H].
      * apply startswith_iff in H as [post H]. now exists [], post.
      * apply IH in H as (pre & post & ->). now exists (c :: pre), post.
    + intros (pre & post & H). apply orb_true_intro.
      destruct pre as [|c' pre].
      * left. apply startswith_iff. now exists post.
      * right. cbn [app] in H. injection H as _ ->. apply IH.
        now exists pre, post.
Qed.

(** A string without the separator is one piece. *)
Lemma split_on_none (sep : ascii) (s : str) :
  forallb (fun c => negb (Ascii.eqb sep c)) s = true -> split_on sep s = [s].
Proof.
  induction s as [|c s IH]; simpl; trivial.
  intros H. apply andb_prop in H as [H1 H2].
  rewrite Ascii.eqb_sym. destruct (Ascii.eqb sep c); try discriminate.
  now rewrite IH.
Qed.

(* ================================================================== *)
(** * Facts about the matcher                                           *)
(* ================================================================== *)

Lemma lead_dropwhile (p : ascii -> bool) (s : str) :
  length (dropwhile p s) + lead p s = length s.
Proof.
  induction s as [|c s IH]; simpl; trivial.
  destruct (p c); simpl; lia.
Qed.

(** Patterns that match exactly one character, of a class [p]: [\s], a
    literal character, ... *)
Section SingleChar.

Variable ic : bool.
Variable r : regex.
Variable p : ascii -> bool.

Hypothesis r_single :
  forall (A : Type) prev s cs (k : cont A),
    run ic r prev s cs k =
    match s with
    | x :: s' => if p x then k (Some x) s' cs else None
    | [] => None
    end.

(** Under a continuation that accepts everything, the greedy star of such a
    pattern takes the whole run. *)
Lemma greedy_single (A : Type) (f : str -> caps -> A) (n : nat) :
  forall prev s cs,
    length s <= n ->
    greedy (run ic r) (fun _ s' cs' => Some (f s' cs')) n prev s cs
    = Some (f (dropwhile p s) cs).
Proof.
  induction n as [|n IH]; intros prev s cs Hn.
  - destruct s; simpl in *; [reflexivity | lia].
  - cbn [greedy]. rewrite r_single.
    destruct s as [|x s']; [reflexivity|].
    cbn [dropwhile]. destruct (p x); [|reflexivity].
    assert (Hlt : (length s' <? length (x :: s')) = true)
      by (apply Nat.ltb_lt; simpl; lia).
    rewrite Hlt, IH by (simpl in Hn; lia). reflexivity.
Qed.

Lemma match_at_plus_single prev (s : str) :
  match_at ic (Plus r) prev s =
  match s with
  | x :: s' => if p x then Some (S (lead p s'), []) else None
  | [] => None
  end.
Proof.
  unfold match_at, Plus. cbn [run]. rewrite r_single.
  destruct s as [|x s']; [reflexivity|].
  destruct (p x); [|reflexivity].
  rewrite (greedy_single (fun s'0 cs' => (length (x :: s') - length s'0, cs')))
    by lia.
  do 2 f_equal. pose proof (lead_dropwhile p s'). cbn [length]. lia.
Qed.

Variable repl : str.

Let out (ps : list piece) : str :=
  flat_map (fun q => match q with
                     | Lit c => [c]
                     | Hit _ _ => repl
                     end) ps.

(** The scan of [r+], at a position outside a match and at a position
    inside the run being passed. *)
Lemma scan_plus_single (s : str) :
  forall prev,
    out (scan ic (Plus r) prev s 0) = squeeze p repl false s
    /\ out (scan ic (Plus r) prev s (lead p s)) = squeeze p repl true s.
Proof.
  induction s as [|c s IH]; intros prev.
  - cbn [lead scan]. rewrite match_at_plus_single. now split.
  - assert (H0 : out (scan ic (Plus r) prev (c :: s) 0)
                 = squeeze p repl false (c :: s)).
    { cbn [scan]. rewrite match_at_plus_single. cbn [squeeze].
      destruct (p c).
      - cbn [Nat.eqb app]. replace (S (lead p s) - 1) with (lead p s) by lia.
        unfold out. cbn [flat_map]. f_equal. apply IH.
      - unfold out. cbn [flat_map]. simpl. f_equal. apply IH. }
    split; [exact H0|].
    cbn [lead]. destruct (p c) eqn:E.
    + cbn [scan squeeze]. rewrite E. simpl. apply IH.
    + rewrite H0. cbn [squeeze]. now rewrite E.
Qed.

(** [re.sub(r+, repl, s)] replaces every maximal run by [repl]. *)
Lemma sub_plus_single (s : str) :
  sub ic (Plus r) repl s = squeeze p repl false s.
Proof. apply (scan_plus_single s None). Qed.

End SingleChar.


(** ** The matcher and the meaning of patterns *)

Lemma orelse_Some {A} (x y : option A) (a : A) :
  orelse x y = Some a -> x = Some a \/ (x = None /\ y = Some a).
Proof. destruct x; cbn [orelse]; intros H; [left | right]; auto. Qed.

Lemma firstn_length_sub {A} (t rest : list A) :
  firstn (length (t ++ rest) - length rest) (t ++ rest) = t.
Proof.
  rewrite length_app.
  replace (length t + length rest - length rest) with (length t + 0) by lia.
  rewrite firstn_app_2. cbn [firstn]. apply app_nil_r.
Qed.

Section Soundness.

Variable ic : bool.
Variable A : Type.

(** What a successful run has done: it has matched a prefix of the subject
    and the continuation has accepted the rest. *)
Definition sound_for (r : regex)
    (body : option ascii -> str -> caps -> cont A -> option A) : Prop :=
  forall prev s cs (k : cont A) a,
    body prev s cs k = Some a ->
    exists t rest p1 cs1,
      s = t ++ rest /\ den ic r prev t rest cs p1 cs1
      /\ k p1 rest cs1 = Some a.

Lemma greedy_sound (r : regex) body (k : cont A) :
  sound_for r body ->
  forall fuel prev s cs a,
    greedy body k fuel prev s cs = Some a ->
    exists t rest p1 cs1,
      s = t ++ rest /\ den ic (Star r) prev t rest cs p1 cs1
      /\ k p1 rest cs1 = Some a.
Proof.
  intros Hbody. induction fuel as [|fuel IH]; intros prev s cs a H.
  - exists [], s, prev, cs. repeat split; [constructor | exact H].
  - cbn [greedy] in H. apply orelse_Some in H as [H|[_ H]].
    + apply Hbody in H as (t1 & rest1 & p1 & cs1 & -> & Hd & Hk).
      destruct (length rest1 <? length (t1 ++ rest1)) eqn:Hlen;
        [|discriminate].
      apply IH in Hk as (t2 & rest & p2 & cs2 & -> & Hd2 & Hk).
      exists (t1 ++ t2), rest, p2, cs2. repeat split.
      * now rewrite app_assoc.
      * apply den_Star_cons with (p1 := p1) (cs1 := cs1); trivial.
        intros ->. apply Nat.ltb_lt in Hlen. cbn [app] in Hlen. lia.
      * exact Hk.
    + exists [], s, prev, cs. repeat split; [constructor | exact H].
Qed.

Lemma lazy_sound (r : regex) body (k : cont A) :
  sound_for r body ->
  forall fuel prev s cs a,
    lazy body k fuel prev s cs = Some a ->
    exists t rest p1 cs1,
      s = t ++ rest /\ den ic (LazyStar r) prev t rest cs p1 cs1
      /\ k p1 rest cs1 = Some a.
Proof.
  intros Hbody. induction fuel as [|fuel IH]; intros prev s cs a H.
  - exists [], s, prev, cs. repeat split; [constructor | exact H].
  - cbn [lazy] in H. apply orelse_Some in H as [H|[_ H]].
    + exists [], s, prev, cs. repeat split; [constructor | exact H].
    + apply Hbody in H as (t1 & rest1 & p1 & cs1 & -> & Hd & Hk).
      destruct (length rest1 <? length (t1 ++ rest1)) eqn:Hlen;
        [|discriminate].
      apply IH in Hk as (t2 & rest & p2 & cs2 & -> & Hd2 & Hk).
      exists (t1 ++ t2), rest, p2, cs2. repeat split.
      * now rewrite app_assoc.
      * apply den_Lazy_cons with (p1 := p1) (cs1 := cs1); trivial.
        intros ->. apply Nat.ltb_lt in Hlen. cbn [app] in Hlen. lia.
      * exact Hk.
Qed.

(** Soundness of the matcher. *)
Lemma run_sound (r : regex) : sound_for r (@run ic A r).
Proof.
  induction r as [|c| |p| |r1 IH1 r2 IH2|r1 IH1 r2 IH2|r1 IH1|r1 IH1|n r1 IH1];
    intros prev s cs k a H; cbn [run] in H.
  - exists [], s, prev, cs. repeat split; [constructor | exact H].
  - destruct s as [|x s']; [discriminate|].
    destruct (chr_match ic c x) eqn:E; [|discriminate].
    exists [x], s', (Some x), cs. repeat split; [now constructor | exact H].
  - destruct s as [|x s']; [discriminate|].
    destruct (Ascii.eqb x nl) eqn:E; [discriminate|].
    exists [x], s', (Some x), cs. repeat split; [now constructor | exact H].
  - destruct s as [|x s']; [discriminate|].
    destruct (p x) eqn:E; [|discriminate].
    exists [x], s', (Some x), cs. repeat split; [now constructor | exact H].
  - destruct (xorb _ _) eqn:E; [|discriminate].
    exists [], s, prev, cs. repeat split; [now constructor | exact H].
  - apply IH1 in H as (t1 & rest1 & p1 & cs1 & -> & Hd1 & H).
    apply IH2 in H as (t2 & rest & p2 & cs2 & -> & Hd2 & H).
    exists (t1 ++ t2), rest, p2, cs2. repeat split.
    + now rewrite app_assoc.
    + now apply den_Seq with (p1 := p1) (cs1 := cs1).
    + exact H.
  - apply orelse_Some in H as [H|[_ H]].
    + apply IH1 in H as (t & rest & p1 & cs1 & -> & Hd & H).
      exists t, rest, p1, cs1. repeat split; [now apply den_Alt_l | exact H].
    + apply IH2 in H as (t & rest & p1 & cs1 & -> & Hd & H).
      exists t, rest, p1, cs1. repeat split; [now apply den_Alt_r | exact H].
  - exact (@greedy_sound r1 _ k IH1 _ _ _ _ _ H).
  - exact (@lazy_sound r1 _ k IH1 _ _ _ _ _ H).
  - apply IH1 in H as (t & rest & p1 & cs1 & -> & Hd & H).
    rewrite firstn_length_sub in H.
    exists t, rest, p1, ((n, t) :: cs1).
    repeat split; [now constructor | exact H].
Qed.

End Soundness.

(** A match found at a position is a match of the pattern. *)
Lemma match_at_sound (ic : bool) (r : regex) prev (s : str) len cs :
  match_at ic r prev s = Some (len, cs) ->
  exists t rest p1,
    s = t ++ rest /\ len = length t /\ den ic r prev t rest [] p1 cs.
Proof.
  unfold match_at. intros H.
  apply run_sound in H as (t & rest & p1 & cs1 & -> & Hd & H).
  injection H as <- <-. exists t, rest, p1. repeat split; trivial.
  rewrite length_app. lia.
Qed.

Section Completeness.

Variable ic : bool.

(** Completeness of the matcher: where the pattern matches a prefix after
    which the continuation accepts, the run finds a match (this one or one
    it tries before).  For a star the statement is made for any fuel that
    covers the subject. *)
Lemma den_complete r prev t rest cs p1 cs1 :
  den ic r prev t rest cs p1 cs1 ->
  forall (A : Type) (k : cont A) (a : A),
    k p1 rest cs1 = Some a ->
    (exists a', run ic r prev (t ++ rest) cs k = Some a')
    /\ (forall r1, r = Star r1 ->
        forall fuel, length (t ++ rest) <= fuel ->
        exists a', greedy (run ic r1) k fuel prev (t ++ rest) cs = Some a')
    /\ (forall r1, r = LazyStar r1 ->
        forall fuel, length (t ++ rest) <= fuel ->
        exists a', lazy (run ic r1) k fuel prev (t ++ rest) cs = Some a').
Proof.
  induction 1 as
    [prev rest cs
    |c x prev rest cs Hc
    |x prev rest cs Hx
    |p x prev rest cs Hp
    |prev rest cs Hb
    |r1 r2 prev t1 t2 rest cs p1 cs1 p2 cs2 H1 IH1 H2 IH2
    |r1 r2 prev t rest cs p1 cs1 H1 IH1
    |r1 r2 prev t rest cs p1 cs1 H1 IH1
    |r prev rest cs
    |r prev t1 t2 rest cs p1 cs1 p2 cs2 Hne H1 IH1 H2 IH2
    |r prev rest cs
    |r prev t1 t2 rest cs p1 cs1 p2 cs2 Hne H1 IH1 H2 IH2
    |n r prev t rest cs p1 cs1 H1 IH1];
    intros A k a Hk.
  - repeat split; try discriminate. exists a. exact Hk.
  - repeat split; try discriminate. exists a. cbn [app run]. now rewrite Hc.
  - repeat split; try discriminate. exists a. cbn [app run]. now rewrite Hx.
  - repeat split; try discriminate. exists a. cbn [app run]. now rewrite Hp.
  - repeat split; try discriminate. exists a. cbn [app run]. now rewrite Hb.
  - repeat split; try discriminate.
    destruct (IH2 A k a Hk) as [[a2 E2] _].
    destruct (IH1 A (fun p s c => run ic r2 p s c k) a2 E2) as [[a1 E1] _].
    exists a1. rewrite <- app_assoc. exact E1.
  - repeat split; try discriminate.
    destruct (IH1 A k a Hk) as [[a1 E1] _].
    exists a1. cbn [run]. now rewrite E1.
  - repeat split; try discriminate.
    destruct (IH1 A k a Hk) as [[a1 E1] _].
    cbn [run]. destruct (run ic r1 prev (t ++ rest) cs k) as [a0|].
    + now exists a0.
    + now exists a1.
  - assert (G : forall fuel,
               exists a', greedy (run ic r) k fuel prev rest cs = Some a').
    { intros [|fuel]; cbn [greedy]; [now exists a|].
      destruct (run ic r prev rest cs _) as [a0|]; cbn [orelse];
        [now exists a0 | now exists a]. }
    repeat split; try discriminate.
    + apply G.
    + intros r1 E fuel _. injection E as <-. apply G.
  - assert (G : forall fuel, length ((t1 ++ t2) ++ rest) <= fuel ->
               exists a', greedy (run ic r) k fuel prev ((t1 ++ t2) ++ rest) cs
                          = Some a').
    { intros fuel Hfuel. rewrite <- app_assoc in *.
      destruct fuel as [|fuel].
      { destruct t1; [congruence | cbn [app length] in Hfuel; lia]. }
      assert (Hlt : length (t2 ++ rest) < length (t1 ++ t2 ++ rest)).
      { rewrite (length_app t1). destruct t1; [congruence|]. cbn [length]. lia. }
      destruct (proj1 (proj2 (IH2 A k a Hk)) r eq_refl fuel) as [a2 E2]; [lia|].
      cbn [greedy].
      destruct (IH1 A
                  (fun prev' s' cs' =>
                     if length s' <? length (t1 ++ t2 ++ rest)
                     then greedy (run ic r) k fuel prev' s' cs' else None) a2)
        as [[a1 E1] _].
      { apply Nat.ltb_lt in Hlt. now rewrite Hlt. }
      exists a1. now rewrite E1. }
    repeat split; try discriminate.
    + cbn [run]. now apply G.
    + intros r1 E fuel Hfuel. injection E as <-. now apply G.
  - assert (G : forall fuel,
               exists a', lazy (run ic r) k fuel prev rest cs = Some a').
    { intros [|fuel]; cbn [lazy]; [now exists a|].
      cbn [app] in *. rewrite Hk. now exists a. }
    repeat split; try discriminate.
    + apply G.
    + intros r1 E fuel _. injection E as <-. apply G.
  - assert (G : forall fuel, length ((t1 ++ t2) ++ rest) <= fuel ->
               exists a', lazy (run ic r) k fuel prev ((t1 ++ t2) ++ rest) cs
                          = Some a').
    { intros fuel Hfuel. rewrite <- app_assoc in *.
      destruct fuel as [|fuel].
      { destruct t1; [congruence | cbn [app length] in Hfuel; lia]. }
      assert (Hlt : length (t2 ++ rest) < length (t1 ++ t2 ++ rest)).
      { rewrite (length_app t1). destruct t1; [congruence|]. cbn [length]. lia. }
      destruct (proj2 (proj2 (IH2 A k a Hk)) r eq_refl fuel) as [a2 E2]; [lia|].
      cbn [lazy].
      destruct (k prev (t1 ++ t2 ++ rest) cs) as [a0|]; cbn [orelse];
        [now exists a0|].
      destruct (IH1 A
                  (fun prev' s' cs' =>
                     if length s' <? length (t1 ++ t2 ++ rest)
                     then lazy (run ic r) k fuel prev' s' cs' else None) a2)
        as [[a1 E1] _].
      { apply Nat.ltb_lt in Hlt. now rewrite Hlt. }
      now exists a1. }
    repeat split; try discriminate.
    + cbn [run]. now apply G.
    + intros r1 E fuel Hfuel. injection E as <-. now apply G.
  - repeat split; try discriminate.
    destruct (IH1 A
                (fun prev' s' cs' =>
                   k prev' s'
                     ((n, firstn (length (t ++ rest) - length s') (t ++ rest))
                        :: cs')) a) as [[a1 E1] _].
    { now rewrite firstn_length_sub. }
    now exists a1.
Qed.

End Completeness.

(** Where the pattern matches, a match is found at that position. *)
Lemma match_at_complete (ic : bool) (r : regex) prev (t rest : str) p1 cs1 :
  den ic r prev t rest [] p1 cs1 ->
  exists len cs, match_at ic r prev (t ++ rest) = Some (len, cs).
Proof.
  intros H. unfold match_at.
  destruct (proj1 (den_complete H
                     (fun _ s' cs => Some (length (t ++ rest) - length s', cs))
                     eq_refl)) as [[len cs] E].
  now exists len, cs.
Qed.

(** ** What the scan reports *)

Lemma hits_app (ps qs : list piece) : hits (ps ++ qs) = hits ps ++ hits qs.
Proof. unfold hits. apply flat_map_app. Qed.

(** A pattern that no position of the subject lets start matches nowhere. *)
Lemma scan_no_start (ic : bool) (r : regex) (p : ascii -> bool) :
  (forall prev s,
      match s with
      | x :: _ => p x = false
      | [] => True
      end -> match_at ic r prev s = None) ->
  forall s prev skip,
    forallb (fun c => negb (p c)) s = true ->
    hits (scan ic r prev s skip) = [].
Proof.
  intros Hr. induction s as [|c s IH]; intros prev skip Hs.
  - destruct skip; cbn [scan]; [|reflexivity]. now rewrite Hr.
  - cbn [forallb] in Hs. apply andb_prop in Hs as [Hc Hs].
    destruct skip; cbn [scan]; [|now apply IH].
    rewrite Hr by now destruct (p c).
    now apply IH.
Qed.

Lemma chr_match_exact (c x : ascii) : chr_match false c x = true -> x = c.
Proof.
  unfold chr_match. cbn [andb]. rewrite orb_false_r.
  intros H. now apply Ascii.eqb_eq in H.
Qed.

Lemma length_sub_2 (a b : ascii) (s : str) :
  length (a :: b :: s) - length s = 2.
Proof. cbn [length]. lia. Qed.

Ltac case_if H :=
  match type of H with
  | context [if ?c then _ else _] => destruct c eqn:?
  end.

Lemma hits_Hit (t : str) (cs : caps) (ps : list piece) :
  hits (Hit t cs :: ps) = (t, cs) :: hits ps.
Proof. reflexivity. Qed.

Lemma hits_Lit (c : ascii) (ps : list piece) : hits (Lit c :: ps) = hits ps.
Proof. reflexivity. Qed.

(** Every match reported was found at a position of the subject. *)
Lemma scan_hit_pos (ic : bool) (r : regex) (s : str) :
  forall prev skip t cs,
    In (t, cs) (hits (scan ic r prev s skip)) ->
    exists pre rest len,
      s = pre ++ rest
      /\ match_at ic r (prev_at prev pre) rest = Some (len, cs).
Proof.
  induction s as [|c s IH]; intros prev skip t cs Hin.
  - destruct skip; cbn [scan] in Hin; [|contradiction].
    destruct (match_at ic r prev []) as [[len cs']|] eqn:E; [|contradiction].
    destruct Hin as [Hin|[]]. injection Hin as _ <-.
    now exists [], [], len.
  - assert (Hrec : forall skip',
               In (t, cs) (hits (scan ic r (Some c) s skip')) ->
               exists pre rest len,
                 c :: s = pre ++ rest
                 /\ match_at ic r (prev_at prev pre) rest = Some (len, cs)).
    { intros skip' H. apply IH in H as (pre & rest & len & -> & H).
      now exists (c :: pre), rest, len. }
    destruct skip; cbn [scan] in Hin; [|now apply Hrec in Hin].
    destruct (match_at ic r prev (c :: s)) as [[len cs']|] eqn:E.
    + destruct Hin as [Hin|Hin].
      * injection Hin as _ <-. now exists [], (c :: s), len.
      * cbn [app] in Hin. rewrite hits_app in Hin.
        apply in_app_or in Hin as [Hin|Hin]; [|now apply Hrec in Hin].
        destruct (len =? 0); cbv in Hin; contradiction.
    + now apply Hrec in Hin.
Qed.

(** Every position where the pattern matches is reported, or lies inside a
    match reported before: [mid] is what separates the two positions. *)
Lemma scan_covers (ic : bool) (r : regex) (s : str) :
  forall prev skip pre rest len cs,
    s = pre ++ rest ->
    skip <= length pre ->
    match_at ic r (prev_at prev pre) rest = Some (len, cs) ->
    exists pre1 mid len' cs',
      pre = pre1 ++ mid
      /\ skip <= length pre1
      /\ match_at ic r (prev_at prev pre1) (mid ++ rest) = Some (len', cs')
      /\ In (firstn len' (mid ++ rest), cs') (hits (scan ic r prev s skip))
      /\ (mid = [] \/ length mid < len').
Proof.
  induction s as [|c s IH]; intros prev skip pre rest len cs Hs Hskip Hm.
  - symmetry in Hs. apply app_eq_nil in Hs as [-> ->].
    cbn [length] in Hskip. assert (skip = 0) as -> by lia.
    exists [], [], len, cs. cbn [prev_at app scan] in *. rewrite Hm.
    repeat split; trivial; [now left | now left].
  - assert (Hrec : forall skip' pre',
               pre = c :: pre' -> skip' <= length pre' ->
               exists pre1 mid len' cs',
                 pre = pre1 ++ mid
                 /\ S skip' <= length pre1
                 /\ match_at ic r (prev_at prev pre1) (mid ++ rest)
                    = Some (len', cs')
                 /\ In (firstn len' (mid ++ rest), cs')
                       (hits (scan ic r (Some c) s skip'))
                 /\ (mid = [] \/ length mid < len')).
    { intros skip' pre' -> Hskip'. cbn [app] in Hs. injection Hs as Hs.
      destruct (IH (Some c) skip' pre' rest len cs Hs Hskip' Hm)
        as (pre1 & mid & len' & cs' & -> & H1 & H2 & H3 & H4).
      exists (c :: pre1), mid, len', cs'. cbn [length prev_at].
      repeat split; trivial. lia. }
    destruct skip as [|skip].
    + cbn [scan].
      destruct pre as [|c' pre'].
      * cbn [app prev_at] in *. subst rest. rewrite Hm.
        exists [], [], len, cs. cbn [prev_at app].
        repeat split; trivial; [now left | now left].
      * assert (c' = c) as -> by (cbn [app] in Hs; congruence).
        destruct (match_at ic r prev (c :: s)) as [[len0 cs0]|] eqn:E.
        -- destruct (Nat.le_gt_cases (len0 - 1) (length pre')) as [Hle|Hgt].
           ++ destruct (Hrec (len0 - 1) pre' eq_refl Hle)
                as (pre1 & mid & len' & cs' & Hp & H1 & H2 & H3 & H4).
              exists pre1, mid, len', cs'. repeat split; trivial; [lia|].
              rewrite hits_Hit, hits_app. right. apply in_or_app. now right.
           ++ exists [], (c :: pre'), len0, cs0. cbn [prev_at app].
              cbn [app] in Hs. rewrite <- Hs, E, hits_Hit.
              repeat split; trivial; [now left|].
              right. cbn [length]. lia.
        -- destruct (Hrec 0 pre' eq_refl (Nat.le_0_l _))
             as (pre1 & mid & len' & cs' & Hp & H1 & H2 & H3 & H4).
           exists pre1, mid, len', cs'. rewrite hits_Lit.
           repeat split; trivial. lia.
    + cbn [scan].
      destruct pre as [|c' pre']; [cbn [length] in Hskip; lia|].
      assert (c' = c) as -> by (cbn [app] in Hs; congruence).
      cbn [length] in Hskip.
      destruct (Hrec skip pre' eq_refl) as
        (pre1 & mid & len' & cs' & Hp & H1 & H2 & H3 & H4); [lia|].
      now exists pre1, mid, len', cs'.
Qed.

(** ** Reading the meaning of a pattern *)

Section DenInversion.

Variable ic : bool.

Lemma den_Eps_inv prev t rest cs p1 cs1 :
  den ic Eps prev t rest cs p1 cs1 -> t = [] /\ cs1 = cs.
Proof. inversion 1; subst; auto. Qed.

Lemma den_Chr_inv c prev t rest cs p1 cs1 :
  den ic (Chr c) prev t rest cs p1 cs1 ->
  exists x, t = [x] /\ chr_match ic c x = true /\ cs1 = cs.
Proof. inversion 1; subst; eauto. Qed.

Lemma den_Cls_inv p prev t rest cs p1 cs1 :
  den ic (Cls p) prev t rest cs p1 cs1 ->
  exists x, t = [x] /\ p x = true /\ cs1 = cs.
Proof. inversion 1; subst; eauto. Qed.

Lemma den_Seq_inv r1 r2 prev t rest cs p2 cs2 :
  den ic (Seq r1 r2) prev t rest cs p2 cs2 ->
  exists t1 t2 p1 cs1,
    t = t1 ++ t2
    /\ den ic r1 prev t1 (t2 ++ rest) cs p1 cs1
    /\ den ic r2 p1 t2 rest cs1 p2 cs2.
Proof. inversion 1; subst; eauto 10. Qed.

Lemma den_Alt_inv r1 r2 prev t rest cs p1 cs1 :
  den ic (Alt r1 r2) prev t rest cs p1 cs1 ->
  den ic r1 prev t rest cs p1 cs1 \/ den ic r2 prev t rest cs p1 cs1.
Proof. inversion 1; subst; auto. Qed.

Lemma den_Grp_inv n r prev t rest cs p1 cs' :
  den ic (Grp n r) prev t rest cs p1 cs' ->
  exists cs1, cs' = (n, t) :: cs1 /\ den ic r prev t rest cs p1 cs1.
Proof. inversion 1; subst; eauto. Qed.

Lemma den_Opt_Chr_inv c prev t rest cs p1 cs1 :
  den ic (Opt (Chr c)) prev t rest cs p1 cs1 ->
  (t = [] \/ exists x, t = [x] /\ chr_match ic c x = true) /\ cs1 = cs.
Proof.
  intros H. apply den_Alt_inv in H as [H|H].
  - apply den_Chr_inv in H as (x & -> & Hx & ->). eauto.
  - apply den_Eps_inv in H as [-> ->]. auto.
Qed.

Lemma den_Star_Cls_inv p prev t rest cs p1 cs1 :
  den ic (Star (Cls p)) prev t rest cs p1 cs1 ->
  forallb p t = true /\ cs1 = cs.
Proof.
  intros H. remember (Star (Cls p)) as r eqn:Er.
  induction H; try discriminate; injection Er as ->.
  - auto.
  - apply den_Cls_inv in H0 as (x & -> & Hx & ->).
    destruct (IHden2 eq_refl) as [Ht ->].
    cbn [app forallb]. now rewrite Hx.
Qed.

Lemma den_Plus_Cls_inv p prev t rest cs p1 cs1 :
  den ic (Plus (Cls p)) prev t rest cs p1 cs1 ->
  t <> [] /\ forallb p t = true /\ cs1 = cs.
Proof.
  intros H. apply den_Seq_inv in H as (t1 & t2 & q & c1 & -> & H1 & H2).
  apply den_Cls_inv in H1 as (x & -> & Hx & ->).
  apply den_Star_Cls_inv in H2 as [H2 ->].
  cbn [app forallb]. rewrite Hx. repeat split; [discriminate | exact H2].
Qed.

End DenInversion.

Lemma chr_match_lower (c x : ascii) :
  chr_match true c x = true <-> to_lower x = to_lower c.
Proof.
  unfold chr_match. cbn [andb]. split.
  - intros H. apply orb_prop in H as [H|H]; apply Ascii.eqb_eq in H;
      congruence.
  - intros H. apply orb_true_intro. right. apply Ascii.eqb_eq. congruence.
Qed.

(** A run of literal characters matches the texts that are equal to it up
    to case. *)
Lemma den_chars_inv (w : str) :
  forall prev t rest cs p1 cs1,
    den true (chars w) prev t rest cs p1 cs1 ->
    lower t = lower w /\ cs1 = cs.
Proof.
  induction w as [|c w IH]; intros prev t rest cs p1 cs1 H.
  - cbn [chars] in H. apply den_Eps_inv in H as [-> ->]. auto.
  - destruct w as [|c' w'].
    + cbn [chars] in H. apply den_Chr_inv in H as (x & -> & Hx & ->).
      apply chr_match_lower in Hx. cbn [lower map]. now rewrite Hx.
    + change (chars (c :: c' :: w')) with (Seq (Chr c) (chars (c' :: w'))) in H.
      apply den_Seq_inv in H as (t1 & t2 & q & c1 & -> & H1 & H2).
      apply den_Chr_inv in H1 as (x & -> & Hx & ->).
      apply IH in H2 as [H2 ->].
      apply chr_match_lower in Hx.
      unfold lower in *. cbn [app map]. now rewrite Hx, H2.
Qed.

Lemma accepts_chars (w t : str) :
  lower t = lower w -> accepts true (chars w) t.
Proof.
  revert t. induction w as [|c w IH]; intros t H prev rest cs.
  - destruct t; [|discriminate]. exists prev, cs. constructor.
  - destruct t as [|x t]; [discriminate|].
    cbn [lower map] in H. injection H as Hx Ht.
    apply chr_match_lower in Hx.
    destruct w as [|c' w'].
    + destruct t; [|discriminate]. exists (Some x), cs. now constructor.
    + change (chars (c :: c' :: w')) with (Seq (Chr c) (chars (c' :: w'))).
      destruct (IH t Ht (Some x) rest cs) as (p1 & cs1 & Hd).
      exists p1, cs1. change (x :: t) with ([x] ++ t).
      apply den_Seq with (p1 := Some x) (cs1 := cs); [now constructor | exact Hd].
Qed.

Section Accepts.

Variable ic : bool.

Lemma accepts_Seq r1 r2 t1 t2 :
  accepts ic r1 t1 -> accepts ic r2 t2 -> accepts ic (Seq r1 r2) (t1 ++ t2).
Proof.
  intros H1 H2 prev rest cs.
  destruct (H1 prev (t2 ++ rest) cs) as (p1 & cs1 & Hd1).
  destruct (H2 p1 rest cs1) as (p2 & cs2 & Hd2).
  exists p2, cs2. now apply den_Seq with (p1 := p1) (cs1 := cs1).
Qed.

Lemma accepts_Alt_l r1 r2 t : accepts ic r1 t -> accepts ic (Alt r1 r2) t.
Proof.
  intros H prev rest cs. destruct (H prev rest cs) as (p1 & cs1 & Hd).
  exists p1, cs1. now apply den_Alt_l.
Qed.

Lemma accepts_Alt_r r1 r2 t : accepts ic r2 t -> accepts ic (Alt r1 r2) t.
Proof.
  intros H prev rest cs. destruct (H prev rest cs) as (p1 & cs1 & Hd).
  exists p1, cs1. now apply den_Alt_r.
Qed.

Lemma accepts_Grp n r t : accepts ic r t -> accepts ic (Grp n r) t.
Proof.
  intros H prev rest cs. destruct (H prev rest cs) as (p1 & cs1 & Hd).
  exists p1, ((n, t) :: cs1). now constructor.
Qed.

Lemma accepts_Eps : accepts ic Eps [].
Proof. intros prev rest cs. exists prev, cs. constructor. Qed.

Lemma accepts_Chr c x : chr_match ic c x = true -> accepts ic (Chr c) [x].
Proof. intros H prev rest cs. exists (Some x), cs. now constructor. Qed.

Lemma accepts_Star_Cls p t : forallb p t = true -> accepts ic (Star (Cls p)) t.
Proof.
  induction t as [|x t IH]; intros H prev rest cs.
  - exists prev, cs. constructor.
  - cbn [forallb] in H. apply andb_prop in H as [Hx Ht].
    destruct (IH Ht (Some x) rest cs) as (p1 & cs1 & Hd).
    exists p1, cs1. change (x :: t) with ([x] ++ t).
    apply den_Star_cons with (p1 := Some x) (cs1 := cs);
      [discriminate | now constructor | exact Hd].
Qed.

Lemma accepts_Plus_Cls p t :
  t <> [] -> forallb p t = true -> accepts ic (Plus (Cls p)) t.
Proof.
  intros Hne H. destruct t as [|x t]; [congruence|].
  cbn [forallb] in H. apply andb_prop in H as [Hx Ht].
  change (x :: t) with ([x] ++ t). apply accepts_Seq.
  - intros prev rest cs. exists (Some x), cs. now constructor.
  - now apply accepts_Star_Cls.
Qed.

End Accepts.
(* ================================================================== *)
(** * The text normaliser                                               *)
(* ================================================================== *)

Lemma no_newline_chr (t : str) :
  forallb (fun c => negb (Ascii.eqb nl c)) t = true ->
  forallb (fun c => negb (chr_match false nl c)) t = true.
Proof.
  induction t as [|c t IH]; [reflexivity|].
  cbn [forallb]. intros H. apply andb_prop in H as [H1 H2].
  rewrite IH by assumption.
  unfold chr_match. cbn [andb]. now rewrite orb_false_r, H1.
Qed.

(** The normaliser is: squeeze the blanks, then strip. *)
Lemma clean_text_squeeze (s : str) :
  _clean_text s = strip (squeeze isspace [sp] false s).
Proof.
  unfold _clean_text, s_. change (of_string " ") with [sp].
  rewrite (@sub_plus_single false (Cls isspace) isspace) by reflexivity.
  rewrite (@sub_plus_single false (Chr nl) (chr_match false nl))
    by reflexivity.
  rewrite squeeze_none; [reflexivity|].
  apply no_newline_chr, (tidy_no_newline false), tidy_squeeze.
Qed.

Lemma clean_text_tidy (s : str) : tidy false (_clean_text s) = true.
Proof. rewrite clean_text_squeeze. apply tidy_strip, tidy_squeeze. Qed.

Lemma clean_text_stripped (s : str) : strip (_clean_text s) = _clean_text s.
Proof. rewrite clean_text_squeeze. apply strip_idem. Qed.

(** C3.  The text normaliser is idempotent: normalising a normalised text
    changes nothing; and the empty string is normalised to the empty
    string. *)
Theorem clean_text_idempotent :
  (forall s : str, _clean_text (_clean_text s) = _clean_text s)
  /\ _clean_text [] = [].
Proof.
  split; [|reflexivity].
  intros s.
  rewrite (clean_text_squeeze (_clean_text s)).
  rewrite squeeze_tidy by apply clean_text_tidy.
  apply clean_text_stripped.
Qed.

Lemma clean_text_no_newline (s : str) :
  forallb (fun c => negb (Ascii.eqb nl c)) (_clean_text s) = true.
Proof. apply (tidy_no_newline false), clean_text_tidy. Qed.

Lemma clean_text_lines (s : str) :
  split_on nl (_clean_text s) = [_clean_text s].
Proof. apply split_on_none, clean_text_no_newline. Qed.

(** C10.  The normalised text holds no newline: splitting it on newlines
    gives one line, the text itself, and that line is all the line-based
    extractors (personal info, institutions, summary) are run on. *)
Theorem clean_text_single_line :
  forall s : str,
    ~ In nl (_clean_text s)
    /\ split_on nl (_clean_text s) = [_clean_text s]
    /\ (forall nlp,
          name (_extract_personal_info nlp (_clean_text s))
          = match nlp, name_loop [_clean_text s] with
            | Some model, None =>
                first_person (model (firstn 500 (_clean_text s)))
            | _, found => found
            end)
    /\ (forall O : SetOrder,
          institutions (_extract_education (_clean_text s))
          = firstn 3 (find_universities [_clean_text s]))
    /\ summary (_extract_summary (_clean_text s))
       = summary_loop [_clean_text s].
Proof.
  intros s.
  pose proof (clean_text_no_newline s) as Hnl.
  pose proof (clean_text_lines s) as Hsplit.
  split; [|split; [exact Hsplit|]].
  - intros Hin. rewrite forallb_forall in Hnl. apply Hnl in Hin.
    now rewrite Ascii.eqb_refl in Hin.
  - repeat split.
    + intros nlp. unfold _extract_personal_info. rewrite Hsplit.
      cbn [firstn name]. now destruct nlp, (name_loop [_clean_text s]).
    + intros O. unfold _extract_education. now rewrite Hsplit.
    + unfold _extract_summary. now rewrite Hsplit.
Qed.

(* ================================================================== *)
(** * The personal-info extractor                                       *)
(* ================================================================== *)

Lemma replace_without_periods (w : str) : replace dot [] w = without_periods w.
Proof.
  unfold replace, without_periods.
  induction w as [|c w IH]; [reflexivity|].
  cbn [flat_map filter]. rewrite IH. now destruct (Ascii.eqb c dot).
Qed.

(** On stripped lines the loop of the extractor is the search for the first
    candidate. *)
Lemma name_loop_find (lines : list str) :
  Forall (fun l => strip l = l) lines ->
  name_loop lines = find name_candidate lines.
Proof.
  induction 1 as [|l lines Hl _ IH]; [reflexivity|].
  cbn [name_loop find]. rewrite Hl, IH.
  unfold name_candidate, any_keyword_in. fold name_stop_words.
  assert (Hall : forallb (fun word => isalpha (replace dot [] word)) (split l)
                 = forallb (fun t => isalpha (without_periods t)) (split l)).
  { generalize (split l). intros ws.
    induction ws as [|w ws IHw]; [reflexivity|].
    cbn [forallb]. now rewrite IHw, replace_without_periods. }
  rewrite Hall.
  change (existsb first_isupper (split l))
    with (existsb starts_uppercase (split l)).
  destruct l as [|c l'].
  - reflexivity.
  - change (0 <? length (c :: l')) with true. rewrite andb_true_l.
    destruct (negb _); [|reflexivity].
    rewrite andb_true_l.
    destruct (_ && _ && _); [|reflexivity].
    rewrite andb_true_l. now destruct (existsb _ _).
Qed.

(** C8.  On a normalised text, without entity recogniser, the extracted name
    is the first of the first five lines that is a candidate (no stop word,
    two to four alphabetic tokens, one of them capitalised), and is null
    when none of them is. *)
Theorem personal_info_first_candidate :
  forall s : str,
    name (_extract_personal_info None (_clean_text s))
    = find name_candidate (firstn 5 (split_on nl (_clean_text s))).
Proof.
  intros s. unfold _extract_personal_info. cbn [name].
  transitivity (name_loop (firstn 5 (split_on nl (_clean_text s)))).
  - now destruct (name_loop _).
  - apply name_loop_find.
    rewrite clean_text_lines. cbn [firstn]. constructor; [apply clean_text_stripped | constructor].
Qed.

(* ================================================================== *)
(** * The summary extractor                                             *)
(* ================================================================== *)

Lemma summary_loop_first (pre : list str) (line : str) (post : list str) :
  Forall (fun l => any_keyword_in summary_keywords l = false) pre ->
  any_keyword_in summary_keywords line = true ->
  summary_loop (pre ++ line :: post)
  = Some (strip (join [nl] (firstn 3 post))).
Proof.
  induction 1 as [|l pre Hl _ IH]; intros Hline; cbn [app summary_loop].
  - now rewrite Hline.
  - rewrite Hl. now apply IH.
Qed.

Lemma summary_loop_none (lines : list str) :
  Forall (fun l => any_keyword_in summary_keywords l = false) lines ->
  summary_loop lines = None.
Proof.
  induction 1 as [|l lines Hl _ IH]; cbn [summary_loop]; [reflexivity|].
  now rewrite Hl.
Qed.

(** C9, as the code has it.  When a line holds one of the summary keywords,
    the summary is made of the lines after the first such line, three at
    most, joined by newlines and stripped; the source tag is ["extracted"]
    when that text is not empty and ["not_found"] when it is.  When no line
    holds a keyword the summary is null and the tag is ["not_found"]. *)
Theorem summary_after_first_keyword :
  forall text : str,
    (forall pre line post,
        split_on nl text = pre ++ line :: post ->
        Forall (fun l => any_keyword_in summary_keywords l = false) pre ->
        any_keyword_in summary_keywords line = true ->
        summary (_extract_summary text)
        = Some (strip (join [nl] (firstn 3 post)))
        /\ source (_extract_summary text)
           = if nonempty (strip (join [nl] (firstn 3 post)))
             then of_string "extracted" else of_string "not_found")
    /\ (Forall (fun l => any_keyword_in summary_keywords l = false)
              (split_on nl text) ->
        summary (_extract_summary text) = None
        /\ source (_extract_summary text) = of_string "not_found").
Proof.
  intros text. unfold _extract_summary. cbn [summary source]. split.
  - intros pre line post -> Hpre Hline.
    rewrite (@summary_loop_first pre line post Hpre Hline).
    split; [reflexivity|].
    now destruct (strip (join [nl] (firstn 3 post))).
  - intros Hnone. now rewrite (@summary_loop_none _ Hnone).
Qed.

(* ================================================================== *)
(** * The skills extractor                                              *)
(* ================================================================== *)

Section SortFacts.

Variable T : Type.
Variable key : T -> nat.

(** Descending order of the keys. *)
Let desc (a b : T) : Prop := key b <= key a.

Lemma insert_desc_Forall (P : T -> Prop) (x : T) (l : list T) :
  P x -> Forall P l -> Forall P (insert_desc key x l).
Proof.
  intros Hx. induction 1 as [|y l Hy Hl IH]; cbn [insert_desc].
  - now constructor.
  - destruct (key y <=? key x); repeat constructor; assumption.
Qed.

Lemma insert_desc_sorted (x : T) (l : list T) :
  StronglySorted desc l -> StronglySorted desc (insert_desc key x l).
Proof.
  induction 1 as [|y l Hl IH Hy]; cbn [insert_desc].
  - repeat constructor.
  - destruct (key y <=? key x) eqn:E.
    + apply Nat.leb_le in E. constructor.
      * now constructor.
      * constructor; [exact E|].
        eapply Forall_impl; [|exact Hy].
        unfold desc. intros z Hz. lia.
    + apply Nat.leb_gt in E. constructor; [exact IH|].
      apply insert_desc_Forall; [unfold desc; lia | exact Hy].
Qed.

Lemma sort_reverse_sorted (l : list T) :
  StronglySorted desc (sort_reverse key l).
Proof.
  induction l as [|x l IH]; cbn [sort_reverse].
  - constructor.
  - now apply insert_desc_sorted.
Qed.

Lemma insert_desc_length (x : T) (l : list T) :
  length (insert_desc key x l) = S (length l).
Proof.
  induction l as [|y l IH]; cbn [insert_desc]; [reflexivity|].
  destruct (key y <=? key x); cbn [length]; now rewrite ?IH.
Qed.

Lemma sort_reverse_length (l : list T) :
  length (sort_reverse key l) = length l.
Proof.
  induction l as [|x l IH]; cbn [sort_reverse]; [reflexivity|].
  rewrite insert_desc_length. now rewrite IH.
Qed.

Lemma sort_reverse_perm (l : list T) : Permutation (sort_reverse key l) l.
Proof.
  induction l as [|x l IH]; cbn [sort_reverse]; [constructor|].
  transitivity (x :: sort_reverse key l); [|now constructor].
  generalize (sort_reverse key l). clear IH l. intros l.
  induction l as [|y l IH]; cbn [insert_desc]; [reflexivity|].
  destruct (key y <=? key x); [reflexivity|].
  rewrite IH. apply perm_swap.
Qed.

(** Stability: the elements of one key come out in the order they came in. *)
Lemma insert_desc_filter (m : nat) (x : T) (l : list T) :
  filter (fun y => key y =? m) (insert_desc key x l)
  = filter (fun y => key y =? m) (x :: l).
Proof.
  induction l as [|y l IH]; cbn [insert_desc]; [reflexivity|].
  destruct (key y <=? key x) eqn:E; [reflexivity|].
  apply Nat.leb_gt in E.
  cbn [filter] in *. rewrite IH.
  destruct (key x =? m) eqn:Ex; [|reflexivity].
  apply Nat.eqb_eq in Ex.
  assert (Hy : (key y =? m) = false) by (apply Nat.eqb_neq; lia).
  now rewrite Hy.
Qed.

Lemma sort_reverse_stable (m : nat) (l : list T) :
  filter (fun y => key y =? m) (sort_reverse key l)
  = filter (fun y => key y =? m) l.
Proof.
  induction l as [|x l IH]; cbn [sort_reverse]; [reflexivity|].
  rewrite insert_desc_filter. cbn [filter]. now rewrite IH.
Qed.

End SortFacts.

Section OrderFacts.

Variable T : Type.

Lemma filter_eq_mid (P : T -> bool) (l : list T) :
  forall u a w,
    filter P l = u ++ a :: w ->
    exists l1 l2, l = l1 ++ a :: l2 /\ filter P l1 = u /\ filter P l2 = w.
Proof.
  induction l as [|x l IH]; intros u a w H.
  - now destruct u.
  - cbn [filter] in H. destruct (P x) eqn:E.
    + destruct u as [|y u]; cbn [app] in H; injection H as Hx H; subst x.
      * now exists [], l.
      * apply IH in H as (l1 & l2 & -> & H1 & H2).
        exists (y :: l1), l2. cbn [filter app]. rewrite E, H1. now repeat split.
    + apply IH in H as (l1 & l2 & -> & H1 & H2).
      exists (x :: l1), l2. cbn [filter app]. rewrite E. now repeat split.
Qed.

(** Two elements in this order in a filtered list are in this order in the
    list. *)
Lemma filter_order (P : T -> bool) (l u v w : list T) (a b : T) :
  filter P l = u ++ a :: v ++ b :: w ->
  exists l1 l2 l3, l = l1 ++ a :: l2 ++ b :: l3.
Proof.
  intros H.
  apply filter_eq_mid in H as (l1 & l2 & -> & _ & H2).
  apply filter_eq_mid in H2 as (l3 & l4 & -> & _ & _).
  now exists l1, l3, l4.
Qed.

Lemma StronglySorted_firstn (R : T -> T -> Prop) (n : nat) (l : list T) :
  StronglySorted R l -> StronglySorted R (firstn n l).
Proof.
  revert l. induction n as [|n IH]; intros l H; [constructor|].
  destruct H as [|x l Hl Hx]; cbn [firstn]; constructor.
  - now apply IH.
  - rewrite <- (firstn_skipn n l) in Hx. apply Forall_app in Hx. tauto.
Qed.

Variable U : Type.

Lemma map_order (f : T -> U) (l : list T) (u v w : list U) (a b : U) :
  map f l = u ++ a :: v ++ b :: w ->
  exists l1 x l2 y l3,
    l = l1 ++ x :: l2 ++ y :: l3 /\ f x = a /\ f y = b.
Proof.
  intros H.
  apply map_eq_app in H as (l1 & r1 & -> & _ & H).
  apply map_eq_cons in H as (x & r2 & -> & Hx & H).
  apply map_eq_app in H as (l2 & r3 & -> & _ & H).
  apply map_eq_cons in H as (y & l3 & -> & Hy & _).
  now exists l1, x, l2, y, l3.
Qed.

End OrderFacts.

(** The skills found, before the sort: one entry for each keyword the text
    holds, in the order of the keyword list. *)
Lemma find_skills_map_filter (keywords : list str) (text_lower : str) :
  find_skills keywords text_lower
  = map (skill_entry text_lower)
        (filter (fun skill => contains (lower skill) text_lower) keywords).
Proof.
  unfold find_skills.
  induction keywords as [|k ks IH]; [reflexivity|].
  cbn [flat_map filter]. rewrite IH.
  now destruct (contains (lower k) text_lower).
Qed.

(** C4.  The skills reported are in descending order of their mention
    counts; two of them with the same count are in the order of their
    keywords in the keyword list; there are at most 20 of them; and
    [total_skills_found], the number of keywords found in the text, is at
    least their number. *)
Theorem skills_sorted_stable_capped :
  forall text : str,
    let r := _extract_skills text in
    StronglySorted (fun a b => mentions b <= mentions a) (technical_skills r)
    /\ (forall l1 a l2 b l3,
          technical_skills r = l1 ++ a :: l2 ++ b :: l3 ->
          mentions a = mentions b ->
          exists k1 ka k2 kb k3,
            skills_keywords = k1 ++ ka :: k2 ++ kb :: k3
            /\ a = skill_entry (lower text) ka
            /\ b = skill_entry (lower text) kb)
    /\ length (technical_skills r) <= 20
    /\ length (technical_skills r) <= total_skills_found r
    /\ total_skills_found r
       = length (filter (fun skill => contains (lower skill) (lower text))
                        skills_keywords).
Proof.
  intros text r. subst r. unfold _extract_skills.
  cbn [technical_skills total_skills_found].
  set (found := find_skills skills_keywords (lower text)).
  set (sorted := sort_reverse mentions found).
  repeat split.
  - apply StronglySorted_firstn, sort_reverse_sorted.
  - intros l1 a l2 b l3 Hcut Heq.
    pose proof (sort_reverse_stable mentions (mentions a) found) as Hst.
    fold sorted in Hst.
    rewrite <- (firstn_skipn 20 sorted), Hcut in Hst.
    assert (Hfilt : exists u v w,
               filter (fun y => mentions y =? mentions a) found
               = u ++ a :: v ++ b :: w).
    { rewrite <- Hst.
      repeat (rewrite ?filter_app; cbn [filter]).
      rewrite <- Heq, Nat.eqb_refl.
      rewrite <- !app_assoc. cbn [app]. rewrite <- !app_assoc.
      eexists _, _, _. reflexivity. }
    destruct Hfilt as (u & v & w & Hfilt).
    apply filter_order in Hfilt as (f1 & f2 & f3 & Hfound).
    unfold found in Hfound. rewrite find_skills_map_filter in Hfound.
    apply map_order in Hfound as (g1 & ka & g2 & kb & g3 & Hk & Ha & Hb).
    apply filter_order in Hk as (k1 & k2 & k3 & Hk).
    exists k1, ka, k2, kb, k3. now repeat split.
  - apply firstn_le_length.
  - rewrite length_firstn. lia.
  - unfold sorted, found.
    now rewrite sort_reverse_length, find_skills_map_filter, length_map.
Qed.

(* ================================================================== *)
(** * Sets                                                              *)
(* ================================================================== *)

Lemma str_eqb_eq (a b : str) : str_eqb a b = true <-> a = b.
Proof.
  unfold str_eqb. destruct (list_eq_dec ascii_dec a b); split; congruence.
Qed.

Lemma str_eqb_neq (a b : str) : a <> b -> str_eqb a b = false.
Proof.
  unfold str_eqb. now destruct (list_eq_dec ascii_dec a b).
Qed.

Lemma dedup_In (A : Type) (HA : Hashable A) (xs : list A) (x : A) :
  In x (dedup xs) <-> In x xs.
Proof.
  induction xs as [|y xs IH]; cbn [dedup In]; [tauto|].
  rewrite filter_In, IH.
  destruct (eq_dec y x) as [->|Hne]; [tauto|].
  split; [tauto|]. intros [E|Hin]; [contradiction | tauto].
Qed.

Lemma dedup_NoDup (A : Type) (HA : Hashable A) (xs : list A) :
  NoDup (dedup xs).
Proof.
  induction xs as [|y xs IH]; cbn [dedup]; constructor.
  - rewrite filter_In. intros [_ H].
    destruct (eq_dec y y); [discriminate | contradiction].
  - now apply NoDup_filter.
Qed.

(** The order of the first occurrences is an iteration order. *)
Definition first_occurrence_order : SetOrder :=
  {| set_list := @dedup;
     set_list_NoDup := @dedup_NoDup;
     set_list_In := @dedup_In |}.

Section SetFacts.

Context {O : SetOrder}.
Context {A : Type} {HA : Hashable A}.

Lemma set_list_nil : set_list (@nil A) = [].
Proof.
  destruct (set_list (@nil A)) as [|x l] eqn:E; [reflexivity|].
  exfalso. apply (set_list_In [] x). rewrite E. now left.
Qed.

Lemma set_list_singleton (x : A) : set_list [x] = [x].
Proof.
  pose proof (set_list_NoDup [x]) as Hnd.
  pose proof (set_list_In [x]) as Hin.
  destruct (set_list [x]) as [|a l].
  - exfalso. apply (Hin x). now left.
  - assert (a = x) as ->.
    { destruct (proj1 (Hin a)); [now left | congruence | contradiction]. }
    destruct l as [|b l]; [reflexivity|].
    assert (b = x) as ->.
    { destruct (proj1 (Hin b)); [right; now left | congruence | contradiction]. }
    inversion Hnd as [|? ? Hnot _]. exfalso. apply Hnot. now left.
Qed.

(** A list cut out of a set has no duplicate. *)
Lemma firstn_set_list_NoDup (n : nat) (xs : list A) :
  NoDup (firstn n (set_list xs)).
Proof.
  pose proof (set_list_NoDup xs) as H.
  rewrite <- (firstn_skipn n (set_list xs)) in H.
  now apply NoDup_app_remove_r in H.
Qed.

End SetFacts.

(* ================================================================== *)
(** * The education extractor                                           *)
(* ================================================================== *)

(** The group of the year pattern holds the first two digits of the year. *)
Lemma year_match_group prev (s : str) (len : nat) (cs : caps) :
  match_at false year_pattern prev s = Some (len, cs) ->
  group 1 cs = of_string "19" \/ group 1 cs = of_string "20".
Proof.
  unfold match_at, year_pattern, d_.
  cbn [seqs lit of_string list_ascii_of_string chars Rep run].
  intros H.
  destruct (xorb _ _); [|discriminate].
  destruct s as [|a [|b s0]];
    try (repeat case_if H; cbn [orelse] in H; discriminate).
  rewrite !length_sub_2 in H.
  destruct (chr_match false "1" a) eqn:Ea.
  - apply chr_match_exact in Ea. subst a.
    change (chr_match false "2" "1") with false in H.
    destruct (chr_match false "9" b) eqn:Eb; [|discriminate].
    apply chr_match_exact in Eb. subst b. left.
    destruct s0 as [|c [|d s1]]; try (repeat case_if H; discriminate).
    repeat case_if H; cbn [orelse] in H; try discriminate.
    injection H as _ <-. reflexivity.
  - cbn [orelse] in H.
    destruct (chr_match false "2" a) eqn:Ea2; [|discriminate].
    destruct (chr_match false "0" b) eqn:Eb; [|discriminate].
    apply chr_match_exact in Ea2, Eb. subst a b. right.
    destruct s0 as [|c [|d s1]]; try (repeat case_if H; discriminate).
    repeat case_if H; try discriminate.
    injection H as _ <-. reflexivity.
Qed.

Lemma findall_years (text : str) :
  Forall (fun y => y = of_string "19" \/ y = of_string "20")
         (findall1 false year_pattern text).
Proof.
  apply Forall_forall. intros y Hy. unfold findall1 in Hy.
  apply in_map_iff in Hy as [[t cs] [<- Hin]].
  apply scan_hit_pos in Hin as (pre & s & len & _ & Hm).
  now apply year_match_group in Hm.
Qed.

(** C1, on the code.  For the text ["Graduated in 2019"] the field
    [graduation_years] is the list of the one string ["20"]: what [findall]
    returns for a pattern with a group is the text of the group, here the
    first two digits.  It is so for every text: the field only ever holds
    the strings ["19"] and ["20"], never a year. *)
Theorem graduation_years_century_only :
  forall O : SetOrder,
    graduation_years (_extract_education "Graduated in 2019")
    = [of_string "20"]
    /\ (forall text : str,
          Forall (fun y => y = of_string "19" \/ y = of_string "20")
                 (graduation_years (_extract_education text))).
Proof.
  intros O. split.
  - unfold _extract_education. cbn [graduation_years].
    replace (findall1 false year_pattern "Graduated in 2019")
      with [of_string "20"] by (vm_compute; reflexivity).
    apply set_list_singleton.
  - intros text. unfold _extract_education. cbn [graduation_years].
    apply Forall_forall. intros y Hy.
    apply (proj1 (set_list_In _ _)) in Hy.
    revert y Hy. apply Forall_forall, findall_years.
Qed.

(* ================================================================== *)
(** * The experience extractor                                          *)
(* ================================================================== *)

(** ** What [int] accepts *)

Lemma int_inr_iff (s : str) (y : Z) :
  int s = inr y <-> length s <= int_max_str_digits /\ y = int_value s.
Proof.
  unfold int. destruct (Nat.ltb_spec int_max_str_digits (length s)).
  - split; [discriminate|]. intros [Hle _]. lia.
  - split.
    + intros E. injection E as <-. split; [lia | reflexivity].
    + now intros [_ ->].
Qed.

Lemma int_inl_iff (s msg : str) :
  int s = inl msg
  <-> int_max_str_digits < length s /\ msg = int_limit_message (length s).
Proof.
  unfold int. destruct (Nat.ltb_spec int_max_str_digits (length s)).
  - split.
    + intros E. injection E as <-. split; [lia | reflexivity].
    + now intros [_ ->].
  - split; [discriminate|]. intros [Hlt _]. lia.
Qed.

(** The list of the numbers is built when every match is within the limit
    of [int], and only then. *)
Lemma years_of_inr (ms : list (str * str)) :
  forall years,
    years_of ms = inr years
    <-> Forall (fun m : str * str => length (fst m) <= int_max_str_digits) ms
        /\ years = map (fun m => int_value (fst m)) ms.
Proof.
  induction ms as [|m ms IH]; intros years; cbn [years_of map].
  - split.
    + intros E. injection E as <-. split; [constructor | reflexivity].
    + now intros [_ ->].
  - destruct (int (fst m)) as [msg|y] eqn:Em.
    + apply int_inl_iff in Em as [Hlen _]. split; [discriminate|].
      intros [Hall _]. apply Forall_inv in Hall. cbn beta in Hall. lia.
    + apply int_inr_iff in Em as [Hlen ->].
      destruct (years_of ms) as [e|ys] eqn:Ems.
      * split; [discriminate|]. intros [Hall _].
        apply Forall_inv_tail in Hall.
        assert (E : @inl exn (list Z) e
                    = inr (map (fun m => int_value (fst m)) ms));
          [|discriminate E].
        apply IH. now split.
      * destruct (proj1 (IH ys) eq_refl) as [Hall ->]. split.
        -- intros E. injection E as <-. split; [now constructor | reflexivity].
        -- now intros [_ ->].
Qed.

(** What is raised is the [ValueError] of a match beyond the limit. *)
Lemma years_of_inl (ms : list (str * str)) (e : exn) :
  years_of ms = inl e ->
  exists m,
    In m ms /\ int_max_str_digits < length (fst m)
    /\ e = ValueError (int_limit_message (length (fst m))).
Proof.
  induction ms as [|m ms IH]; cbn [years_of]; [discriminate|].
  destruct (int (fst m)) as [msg|y] eqn:Em.
  - apply int_inl_iff in Em as [Hlen ->]. intros E. injection E as <-.
    exists m. split; [now left | now split].
  - destruct (years_of ms) as [e'|ys]; [|discriminate].
    intros E. injection E as ->. destruct (IH eq_refl) as (m' & Hin & H).
    exists m'. split; [now right | exact H].
Qed.

(** What [_extract_experience] returns, when it returns. *)
Lemma extract_experience_inr (O : SetOrder) (text : str) (e : Experience) :
  _extract_experience text = inr e ->
  exists years,
    years_of (findall2 true exp_pattern text) = inr years
    /\ e = {| total_years_experience :=
                match years with
                | [] => None
                | y :: years' => Some (Py.max y years')
                end;
              job_titles :=
                firstn 5 (set_list (find_job_titles experience_keywords text));
              companies :=
                firstn 5 (set_list (findall1 false company_pattern text));
              experience_level :=
                _determine_experience_level
                  match years with
                  | [] => None
                  | y :: years' => Some (Py.max y years')
                  end |}.
Proof.
  unfold _extract_experience.
  destruct (years_of (findall2 true exp_pattern text)) as [e'|years];
    [discriminate|].
  intros E. injection E as <-. now exists years.
Qed.

Lemma extract_experience_inl (O : SetOrder) (text : str) (e : exn) :
  _extract_experience text = inl e ->
  years_of (findall2 true exp_pattern text) = inl e.
Proof.
  unfold _extract_experience.
  destruct (years_of (findall2 true exp_pattern text)) as [e'|years];
    [|discriminate].
  intros E. now injection E as ->.
Qed.

(** C6.  The experience level is a function of the total years alone, with
    the thresholds: none gives ["unknown"], below 2 ["entry_level"], from 2
    and below 5 ["junior"], from 5 and below 10 ["mid_level"], from 10 on
    ["senior"]; and the level the extractor reports is that function of the
    total it reports. *)
Theorem experience_level_thresholds :
  _determine_experience_level None = of_string "unknown"
  /\ (forall years : Z,
        ((years < 2)%Z ->
         _determine_experience_level (Some years) = of_string "entry_level")
        /\ ((2 <= years < 5)%Z ->
            _determine_experience_level (Some years) = of_string "junior")
        /\ ((5 <= years < 10)%Z ->
            _determine_experience_level (Some years) = of_string "mid_level")
        /\ ((10 <= years)%Z ->
            _determine_experience_level (Some years) = of_string "senior"))
  /\ (forall (O : SetOrder) (text : str) (e : Experience),
        _extract_experience text = inr e ->
        experience_level e
        = _determine_experience_level (total_years_experience e)).
Proof.
  split; [reflexivity|]. split.
  2:{ intros O text e H. apply extract_experience_inr in H as (years & _ & ->).
      reflexivity. }
  intros years. unfold _determine_experience_level.
  repeat split; intros H.
  - destruct (Z.ltb_spec years 2); [reflexivity | lia].
  - destruct (Z.ltb_spec years 2); [lia|].
    destruct (Z.ltb_spec years 5); [reflexivity | lia].
  - destruct (Z.ltb_spec years 2); [lia|].
    destruct (Z.ltb_spec years 5); [lia|].
    destruct (Z.ltb_spec years 10); [reflexivity | lia].
  - destruct (Z.ltb_spec years 2); [lia|].
    destruct (Z.ltb_spec years 5); [lia|].
    destruct (Z.ltb_spec years 10); [lia | reflexivity].
Qed.

Lemma experience_level_thresholds_witness :
  _determine_experience_level (Some 1%Z) = of_string "entry_level"
  /\ _determine_experience_level (Some 4%Z) = of_string "junior"
  /\ _determine_experience_level (Some 9%Z) = of_string "mid_level"
  /\ _determine_experience_level (Some 10%Z) = of_string "senior".
Proof.
  split; [|split; [|split]].
  - apply (proj1 (proj2 experience_level_thresholds) 1%Z). lia.
  - apply (proj1 (proj2 experience_level_thresholds) 4%Z). lia.
  - apply (proj1 (proj2 experience_level_thresholds) 9%Z). lia.
  - apply (proj1 (proj2 experience_level_thresholds) 10%Z). lia.
Defined.


(** ** The pattern of the years of experience *)

Lemma is_digit_to_lower (x : ascii) : is_digit (to_lower x) = is_digit x.
Proof. destruct x as [[] [] [] [] [] [] [] []]; reflexivity. Qed.

Lemma isspace_not_digit (x : ascii) : isspace x = true -> is_digit x = false.
Proof.
  destruct x as [[] [] [] [] [] [] [] []]; intros H; try reflexivity;
    discriminate H.
Qed.

Lemma chr_match_plus (x : ascii) :
  chr_match true "+" x = true -> x = "+"%char.
Proof.
  destruct x as [[] [] [] [] [] [] [] []]; intros H; try reflexivity;
    discriminate H.
Qed.

Lemma nodigit_lower (u : str) :
  forallb nodigit (lower u) = forallb nodigit u.
Proof.
  induction u as [|x u IH]; [reflexivity|].
  cbn [lower map forallb]. fold (lower u). rewrite IH.
  unfold nodigit at 1 3. now rewrite is_digit_to_lower.
Qed.

Lemma nodigit_blank (ws : str) :
  forallb isspace ws = true -> forallb nodigit ws = true.
Proof.
  induction ws as [|x ws IH]; [reflexivity|].
  cbn [forallb]. intros H. apply andb_prop in H as [Hx Hws].
  unfold nodigit at 1. now rewrite (isspace_not_digit _ Hx), IH.
Qed.

Lemma den_unit_inv prev t rest cs p1 cs1 :
  den true unit_pattern prev t rest cs p1 cs1 ->
  In (lower t) units /\ cs1 = cs.
Proof.
  intros H. apply den_Alt_inv in H as [H|H];
    apply den_Seq_inv in H as (t1 & t2 & q & c1 & -> & H1 & H2);
    apply den_chars_inv in H1 as [H1 ->];
    apply den_Opt_Chr_inv in H2 as [[->|(x & -> & Hx)] ->];
    (split; [|reflexivity]);
    try (apply chr_match_lower in Hx);
    unfold lower in *; rewrite map_app, H1; cbn [map app]; try rewrite Hx;
    cbv; tauto.
Qed.

Lemma accepts_unit (u : str) : In (lower u) units -> accepts true unit_pattern u.
Proof.
  unfold units, strs. cbn [map of_string list_ascii_of_string In].
  intros [H|[H|[H|[H|[]]]]]; symmetry in H.
  - apply accepts_Alt_l. rewrite <- (app_nil_r u).
    apply accepts_Seq; [now apply accepts_chars|].
    apply accepts_Alt_r, accepts_Eps.
  - destruct u as [|a [|b [|c [|d [|e [|]]]]]]; try discriminate.
    cbn [lower map] in H. injection H as Ha Hb Hc Hd He.
    apply accepts_Alt_l. change [a; b; c; d; e] with ([a; b; c; d] ++ [e]).
    apply accepts_Seq.
    + apply accepts_chars. cbn [lower map]. now rewrite Ha, Hb, Hc, Hd.
    + apply accepts_Alt_l, accepts_Chr, chr_match_lower. now rewrite He.
  - apply accepts_Alt_r. rewrite <- (app_nil_r u).
    apply accepts_Seq; [now apply accepts_chars|].
    apply accepts_Alt_r, accepts_Eps.
  - destruct u as [|a [|b [|c [|]]]]; try discriminate.
    cbn [lower map] in H. injection H as Ha Hb Hc.
    apply accepts_Alt_r. change [a; b; c] with ([a; b] ++ [c]).
    apply accepts_Seq.
    + apply accepts_chars. cbn [lower map]. now rewrite Ha, Hb.
    + apply accepts_Alt_l, accepts_Chr, chr_match_lower. now rewrite Hc.
Qed.

(** What the pattern matches is a mention, and its first group is the
    number of the mention. *)
Lemma exp_pattern_mention prev t rest p1 cs :
  den true exp_pattern prev t rest [] p1 cs -> mention (group 1 cs) t.
Proof.
  unfold exp_pattern. cbn [seqs]. fold unit_pattern. intros H.
  apply den_Seq_inv in H as (digits & t1 & q1 & c1 & -> & Hd & H).
  apply den_Grp_inv in Hd as (c0 & -> & Hd).
  apply den_Plus_Cls_inv in Hd as (Hne & Hdig & ->).
  apply den_Seq_inv in H as (plus & t2 & q2 & c2 & -> & Hp & H).
  apply den_Opt_Chr_inv in Hp as [Hp ->].
  apply den_Seq_inv in H as (ws1 & t3 & q3 & c3 & -> & Hw1 & H).
  apply den_Star_Cls_inv in Hw1 as [Hw1 ->].
  apply den_Seq_inv in H as (unit & t4 & q4 & c4 & -> & Hu & H).
  apply den_Grp_inv in Hu as (c0 & -> & Hu).
  apply den_unit_inv in Hu as [Hu ->].
  apply den_Seq_inv in H as (ws2 & t5 & q5 & c5 & -> & Hw2 & H).
  apply den_Star_Cls_inv in Hw2 as [Hw2 ->].
  apply den_Seq_inv in H as (of_ & t6 & q6 & c6 & -> & Ho & H).
  apply den_chars_inv in Ho as [Ho ->].
  apply den_Seq_inv in H as (ws3 & exp_ & q7 & c7 & -> & Hw3 & H).
  apply den_Star_Cls_inv in Hw3 as [Hw3 ->].
  apply den_chars_inv in H as [He ->].
  cbn [group Nat.eqb].
  exists plus, ws1, unit, ws2, of_, ws3, exp_.
  repeat split; trivial.
  destruct Hp as [->|(x & -> & Hx)]; [now left | right].
  now rewrite (chr_match_plus _ Hx).
Qed.

(** The pattern matches every mention. *)
Lemma mention_accepted (digits m : str) :
  mention digits m -> accepts true exp_pattern m.
Proof.
  intros (plus & ws1 & unit & ws2 & of_ & ws3 & exp_ & -> & Hne & Hdig & Hp
          & Hw1 & Hu & Hw2 & Ho & Hw3 & He).
  unfold exp_pattern. cbn [seqs]. fold unit_pattern.
  repeat apply accepts_Seq.
  - now apply accepts_Grp, accepts_Plus_Cls.
  - destruct Hp as [->| ->].
    + apply accepts_Alt_r, accepts_Eps.
    + now apply accepts_Alt_l, accepts_Chr.
  - now apply accepts_Star_Cls.
  - now apply accepts_Grp, accepts_unit.
  - now apply accepts_Star_Cls.
  - now apply accepts_chars.
  - now apply accepts_Star_Cls.
  - now apply accepts_chars.
Qed.

(** A mention is its number followed by a text without digit. *)
Lemma mention_shape (digits m : str) :
  mention digits m ->
  exists tail,
    m = digits ++ tail
    /\ digits <> [] /\ forallb is_digit digits = true
    /\ tail <> [] /\ forallb nodigit tail = true.
Proof.
  intros (plus & ws1 & unit & ws2 & of_ & ws3 & exp_ & -> & Hne & Hdig & Hp
          & Hw1 & Hu & Hw2 & Ho & Hw3 & He).
  exists (plus ++ ws1 ++ unit ++ ws2 ++ of_ ++ ws3 ++ exp_).
  repeat split; trivial.
  - intros E. repeat (apply app_eq_nil in E as [_ E]).
    subst exp_. discriminate He.
  - rewrite !forallb_app.
    rewrite (nodigit_blank _ Hw1), (nodigit_blank _ Hw2), (nodigit_blank _ Hw3).
    rewrite <- (nodigit_lower of_), Ho.
    rewrite <- (nodigit_lower exp_), He.
    rewrite <- (nodigit_lower unit).
    assert (Hunit : forallb nodigit (lower unit) = true).
    { destruct Hu as [<-|[<-|[<-|[<-|[]]]]]; reflexivity. }
    rewrite Hunit.
    destruct Hp as [->| ->]; reflexivity.
Qed.

(** ** Numbers *)

Lemma int_fold_mono (s : str) :
  forall a b : Z,
    (a <= b)%Z ->
    (fold_left (fun acc c => 10 * acc + digit_value c) s a
     <= fold_left (fun acc c => 10 * acc + digit_value c) s b)%Z.
Proof.
  induction s as [|c s IH]; intros a b Hab; cbn [fold_left]; [exact Hab|].
  apply IH. lia.
Qed.

Lemma int_fold_nonneg (s : str) :
  forall a : Z,
    (0 <= a)%Z ->
    (0 <= fold_left (fun acc c => 10 * acc + digit_value c) s a)%Z.
Proof.
  induction s as [|c s IH]; intros a Ha; cbn [fold_left]; [exact Ha|].
  apply IH. unfold digit_value. lia.
Qed.

Lemma int_value_nonneg (s : str) : (0 <= int_value s)%Z.
Proof. apply int_fold_nonneg. lia. Qed.

(** Digits put in front do not make the number smaller. *)
Lemma int_value_suffix (a b : str) : (int_value b <= int_value (a ++ b))%Z.
Proof.
  unfold int_value at 2. rewrite fold_left_app.
  apply int_fold_mono, int_value_nonneg.
Qed.

Lemma starts_nodigit_app (tail rest : str) :
  tail <> [] -> forallb nodigit tail = true -> starts_nodigit (tail ++ rest).
Proof.
  destruct tail as [|c tail]; [congruence|].
  intros _ H. cbn [forallb] in H. apply andb_prop in H as [H _].
  cbn [app starts_nodigit]. unfold nodigit in H. now destruct (is_digit c).
Qed.

Lemma starts_digit_app (digits rest : str) :
  digits <> [] -> forallb is_digit digits = true ->
  ~ starts_nodigit (digits ++ rest).
Proof.
  destruct digits as [|c digits]; [congruence|].
  intros _ H. cbn [forallb] in H. apply andb_prop in H as [H _].
  cbn [app starts_nodigit]. congruence.
Qed.

(** The run of digits at the front of a text is determined by the text. *)
Lemma digit_prefix_unique (d1 : str) :
  forall d2 x1 x2,
    forallb is_digit d1 = true -> forallb is_digit d2 = true ->
    starts_nodigit x1 -> starts_nodigit x2 ->
    d1 ++ x1 = d2 ++ x2 -> d1 = d2.
Proof.
  induction d1 as [|c d1 IH]; intros d2 x1 x2 H1 H2 Hx1 Hx2 E.
  - destruct d2 as [|c2 d2]; [reflexivity|].
    cbn [app] in E. subst x1. cbn [starts_nodigit forallb] in *.
    apply andb_prop in H2 as [H2 _]. congruence.
  - destruct d2 as [|c2 d2].
    + cbn [app] in E. subst x2. cbn [starts_nodigit forallb] in *.
      apply andb_prop in H1 as [H1 _]. congruence.
    + cbn [app forallb] in *. injection E as -> E.
      apply andb_prop in H1 as [_ H1]. apply andb_prop in H2 as [_ H2].
      f_equal. now apply (IH d2 x1 x2).
Qed.

(** ** The mentions and the matches reported *)

Lemma findall2_group1 (ic : bool) (r : regex) (text t : str) (cs : caps) :
  In (t, cs) (hits (finditer ic r text)) ->
  In (group 1 cs) (map fst (findall2 ic r text)).
Proof.
  intros H. unfold findall2. rewrite map_map. cbn [fst].
  now apply (in_map (fun h => group 1 (snd h))) in H.
Qed.

(** Every match reported is a mention in the text. *)
Lemma reported_is_mention (text d : str) :
  In d (map fst (findall2 true exp_pattern text)) ->
  exists pre m post, text = pre ++ m ++ post /\ mention d m.
Proof.
  unfold findall2. rewrite map_map. cbn [fst]. intros H.
  apply in_map_iff in H as ([t cs] & <- & H). cbn [snd].
  apply scan_hit_pos in H as (pre & rest & len & -> & H).
  apply match_at_sound in H as (m & post & p1 & -> & _ & H).
  apply exp_pattern_mention in H.
  now exists pre, m, post.
Qed.

(** Every mention in the text is reported, or stands in the number of a
    mention that is reported, which then ends with its digits. *)
Lemma mention_covered (text pre digits m post : str) :
  text = pre ++ m ++ post ->
  mention digits m ->
  exists d front,
    In d (map fst (findall2 true exp_pattern text))
    /\ d = front ++ digits.
Proof.
  intros -> Hm.
  destruct (mention_accepted Hm (prev_at None pre) post []) as (p1 & cs1 & Hd).
  apply match_at_complete in Hd as (len & cs & Hat).
  destruct (@scan_covers true exp_pattern (pre ++ m ++ post) None 0 pre
              (m ++ post) len cs eq_refl (Nat.le_0_l _) Hat)
    as (pre1 & mid & len' & cs' & -> & _ & Hat' & Hin & Hmid).
  apply findall2_group1 in Hin.
  enough (Hsuffix : exists front, group 1 cs' = front ++ digits).
  { destruct Hsuffix as [front E']. now exists (group 1 cs'), front. }
  apply match_at_sound in Hat' as (t' & rest' & q & E & -> & Hd').
  apply exp_pattern_mention in Hd'.
  destruct (mention_shape Hd') as (tail' & -> & Hne' & Hdig' & Htne' & Htail').
  destruct (mention_shape Hm) as (tail & -> & Hne & Hdig & Htne & Htail).
  set (d' := group 1 cs') in *.
  rewrite <- !app_assoc in E.
  apply app_eq_app in E as (l & [[E1 E2]|[E1 E2]]).
  - (* the position lies after the number reported: impossible *)
    exfalso.
    assert (Hlen : length l < length tail').
    { destruct Hmid as [->|Hmid].
      - symmetry in E1. apply app_eq_nil in E1 as [E1 _]. congruence.
      - rewrite E1, !length_app in Hmid. lia. }
    apply app_eq_app in E2 as (l2 & [[E3 E4]|[E3 E4]]).
    + assert (l2 <> []) by (intros ->; rewrite app_nil_r in E3; subst; lia).
      apply (@starts_digit_app digits (tail ++ post) Hne Hdig).
      rewrite E4. apply starts_nodigit_app; trivial.
      rewrite E3, forallb_app in Htail'.
      now apply andb_prop in Htail' as [_ ?].
    + rewrite E3, length_app in Hlen. lia.
  - (* the position lies in the number reported *)
    rewrite E1, forallb_app in Hdig'. apply andb_prop in Hdig' as [_ Hl].
    assert (digits = l) as <-.
    { apply (@digit_prefix_unique digits l (tail ++ post) (tail' ++ rest'));
        trivial; now apply starts_nodigit_app. }
    eexists. exact E1.
Qed.

(** Such a number is at least as large, and at least as long. *)
Lemma mention_dominated (text pre digits m post : str) :
  text = pre ++ m ++ post ->
  mention digits m ->
  exists d,
    In d (map fst (findall2 true exp_pattern text))
    /\ (int_value digits <= int_value d)%Z
    /\ length digits <= length d.
Proof.
  intros Htext Hm.
  destruct (mention_covered pre post Htext Hm) as (d & front & Hd & ->).
  exists (front ++ digits). split; [exact Hd|]. split.
  - apply int_value_suffix.
  - rewrite length_app. lia.
Qed.

(** [_extract_experience] returns exactly when no mention of the text has a
    number beyond the limit of [int]. *)
Lemma extract_experience_returns (O : SetOrder) (text : str) :
  (exists e, _extract_experience text = inr e)
  <-> (forall pre digits m post,
         text = pre ++ m ++ post -> mention digits m ->
         length digits <= int_max_str_digits).
Proof.
  split.
  - intros [e He] pre digits m post Htext Hm.
    apply extract_experience_inr in He as (years & Hy & _).
    apply years_of_inr in Hy as [Hall _]. rewrite Forall_forall in Hall.
    destruct (mention_dominated pre post Htext Hm) as (d & Hd & _ & Hlen).
    apply in_map_iff in Hd as (mt & <- & Hmt).
    specialize (Hall mt Hmt). cbn beta in Hall. lia.
  - intros Hlim. unfold _extract_experience.
    destruct (years_of (findall2 true exp_pattern text)) as [e|years] eqn:E.
    + exfalso. apply years_of_inl in E as (mt & Hmt & Hlen & _).
      destruct (@reported_is_mention text (fst mt))
        as (pre & m & post & Htext & Hm).
      { now apply in_map. }
      specialize (Hlim pre (fst mt) m post Htext Hm). lia.
    + eexists. reflexivity.
Qed.

(** What it raises is the [ValueError] of [int] for the number of a
    mention. *)
Lemma extract_experience_raises (O : SetOrder) (text : str) (e : exn) :
  _extract_experience text = inl e ->
  exists pre digits m post,
    text = pre ++ m ++ post /\ mention digits m
    /\ int_max_str_digits < length digits
    /\ e = ValueError (int_limit_message (length digits)).
Proof.
  intros H. apply extract_experience_inl in H.
  apply years_of_inl in H as (mt & Hmt & Hlen & ->).
  destruct (@reported_is_mention text (fst mt))
    as (pre & m & post & Htext & Hm).
  { now apply in_map. }
  now exists pre, (fst mt), m, post.
Qed.

(** The numbers of the matches, when the extractor returns. *)
Lemma extract_experience_total (O : SetOrder) (text : str) (e : Experience) :
  _extract_experience text = inr e ->
  total_years_experience e
  = match map (fun m => int_value (fst m)) (findall2 true exp_pattern text) with
    | [] => None
    | y :: years => Some (Py.max y years)
    end.
Proof.
  intros H. apply extract_experience_inr in H as (years & Hy & ->).
  apply years_of_inr in Hy as [_ ->]. reflexivity.
Qed.
(* ================================================================== *)
(** * Years of experience and job titles                                *)
(* ================================================================== *)




Lemma chr_match_bs (x : ascii) : chr_match true bs x = Ascii.eqb bs x.
Proof. destruct x as [[] [] [] [] [] [] [] []]; reflexivity. Qed.

(** The pattern of a keyword starts with a backspace: it matches at no
    other character. *)
Lemma title_pattern_start (keyword : string) prev (s : str) :
  match s with
  | x :: _ => Ascii.eqb bs x = false
  | [] => True
  end ->
  match_at true (title_pattern keyword) prev s = None.
Proof.
  unfold match_at, title_pattern. cbn [seqs]. cbn [run].
  destruct s as [|x s']; [reflexivity|].
  rewrite chr_match_bs. now intros ->.
Qed.

Lemma has_char_false (c : ascii) (s : str) :
  has_char c s = false ->
  forallb (fun x => negb (Ascii.eqb c x)) s = true.
Proof.
  unfold has_char. induction s as [|x s IH]; [reflexivity|].
  cbn [existsb forallb]. intros H. apply orb_false_elim in H as [-> H].
  now rewrite IH.
Qed.

Lemma find_job_titles_none (keywords : list string) (text : str) :
  has_char bs text = false -> find_job_titles keywords text = [].
Proof.
  intros H. apply has_char_false in H. unfold find_job_titles.
  induction keywords as [|k ks IH]; [reflexivity|].
  cbn [flat_map]. rewrite IH, app_nil_r.
  unfold findall1, finditer.
  now rewrite (@scan_no_start true (title_pattern k) (Ascii.eqb bs)
                 (title_pattern_start k) text None 0 H).
Qed.

(** With the backspace in the text the pattern does find the title. *)
Example find_job_titles_after_backspace :
  find_job_titles experience_keywords
    (bs :: of_string "senior software engineer")
  = [wide (of_string "Senior Software")].
Proof. vm_compute. reflexivity. Qed.

(** The titles reported are distinct and at most five. *)
Lemma job_titles_distinct_capped (O : SetOrder) (text : str) (e : Experience) :
  _extract_experience text = inr e ->
  NoDup (job_titles e) /\ length (job_titles e) <= 5.
Proof.
  intros H. apply extract_experience_inr in H as (years & _ & ->).
  cbn [job_titles]. split.
  - apply firstn_set_list_NoDup.
  - apply firstn_le_length.
Qed.

(** C2, on the code.  For the text ["senior software engineer"] the
    extractor returns and the list [job_titles] is empty, and it is empty
    whenever the extractor returns for a text without a backspace character:
    in the pattern, which is built from a literal that is not raw, the word
    boundary has become that character. *)
Theorem job_titles_need_backspace :
  forall O : SetOrder,
    (exists e,
        _extract_experience "senior software engineer" = inr e
        /\ job_titles e = [])
    /\ (forall (text : str) (e : Experience),
          has_char bs text = false ->
          _extract_experience text = inr e ->
          job_titles e = []).
Proof.
  intros O.
  assert (H : forall (text : str) (e : Experience),
             has_char bs text = false ->
             _extract_experience text = inr e ->
             job_titles e = []).
  { intros text e Hbs He.
    apply extract_experience_inr in He as (years & _ & ->).
    cbn [job_titles].
    rewrite (@find_job_titles_none experience_keywords text Hbs), set_list_nil.
    reflexivity. }
  split; [|exact H].
  destruct (proj2 (extract_experience_returns O "senior software engineer"))
    as [e He].
  - intros pre digits m post Htext Hm.
    assert (Hlen : length digits <= length (of_string "senior software engineer")).
    { rewrite Htext, !length_app.
      destruct Hm as (plus & ws1 & unit & ws2 & of_ & ws3 & exp_ & -> & _).
      rewrite !length_app. lia. }
    cbn [of_string list_ascii_of_string length] in Hlen.
    unfold int_max_str_digits. lia.
  - exists e. split; [exact He|].
    apply (H (of_string "senior software engineer") e);
      [reflexivity | exact He].
Qed.

Lemma job_titles_need_backspace_witness :
  has_char bs "senior software engineer" = false
  /\ exists e,
       @_extract_experience first_occurrence_order
         "senior software engineer" = inr e
       /\ job_titles e = [].
Proof.
  split; [reflexivity|].
  assert (He : exists e,
             @_extract_experience first_occurrence_order
               "senior software engineer" = inr e).
  { eexists. vm_compute. reflexivity. }
  destruct He as [e He]. exists e. split; [exact He|].
  apply (proj2 (job_titles_need_backspace first_occurrence_order)
           (of_string "senior software engineer") e);
    [reflexivity | exact He].
Defined.

(* ================================================================== *)
(** * Unsupported documents                                             *)
(* ================================================================== *)

(** C5.  For a declared type that is none of the three supported ones,
    [parse_resume_file] fails with the error raised for an unsupported type
    (a [ValueError]), such as it was raised; all it has done by then is log
    the error: no file was read and no decoder was called. *)
Theorem unsupported_type_fails_before_decoding :
  forall (rt : Runtime) (file : UploadFile) (tr : list event),
    content_type file <> of_string "application/pdf" ->
    content_type file <>
      of_string "application/vnd.openxmlformats-officedocument.wordprocessingml.document" ->
    content_type file <> of_string "application/msword" ->
    let raised :=
      ValueError (of_string "Unsupported file type: " ++ content_type file) in
    exists logged_events,
      parse_resume_file rt file tr = (tr ++ logged_events, inl raised)
      /\ logged_events
         = [LogError (of_string "Error parsing resume file: "
                        ++ exn_str raised)]
      /\ existsb decoder_event logged_events = false.
Proof.
  intros rt file tr Hpdf Hdocx Hdoc raised. eexists. split; [|split].
  - unfold parse_resume_file, logged, bind, mem. cbn [existsb].
    rewrite (str_eqb_neq Hpdf), (str_eqb_neq Hdocx), (str_eqb_neq Hdoc).
    cbn [orb]. unfold raise. fold raised. reflexivity.
  - reflexivity.
  - reflexivity.
Qed.

Lemma unsupported_type_fails_before_decoding_witness :
  let rt := {| PDF_AVAILABLE := true;
               DOCX_AVAILABLE := true;
               pdf_pages := fun _ => inr [Some (of_string "page")];
               docx_paragraphs := fun _ => inr [of_string "paragraph"];
               nlp := None;
               utcnow_isoformat := "2024-05-01T10:00:00";
               set_order := first_occurrence_order |} in
  let file := {| file_name := "photo.png";
                 content_type := "image/png";
                 read := inr [] |} in
  exists logged_events,
    parse_resume_file rt file []
    = ([] ++ logged_events,
       inl (ValueError (of_string "Unsupported file type: image/png")))
    /\ logged_events
       = [LogError (of_string
            "Error parsing resume file: Unsupported file type: image/png")]
    /\ existsb decoder_event logged_events = false.
Proof.
  intros rt file.
  apply (@unsupported_type_fails_before_decoding rt file []);
    cbn [content_type file]; discriminate.
Defined.

(* ================================================================== *)
(** * Worked examples                                                   *)
(* ================================================================== *)

(** C9 as stated fails: the one line of ["Summary"] holds a keyword, and the
    source tag is not ["extracted"]: the lines after it, joined and stripped,
    make the empty string, which the code takes as no summary.  So it is not
    true that the tag is ["extracted"] whenever a line holds a keyword. *)
Lemma summary_source_counterexample :
  any_keyword_in summary_keywords "Summary" = true
  /\ split_on nl "Summary" = [of_string "Summary"]
  /\ summary (_extract_summary "Summary") = Some []
  /\ source (_extract_summary "Summary") = of_string "not_found"
  /\ ~ (forall text : str,
          (exists line, In line (split_on nl text)
                        /\ any_keyword_in summary_keywords line = true) ->
          source (_extract_summary text) = of_string "extracted").
Proof.
  split; [reflexivity|]. split; [reflexivity|]. split; [reflexivity|].
  split; [reflexivity|].
  intros H. specialize (H (of_string "Summary")).
  assert (E : source (_extract_summary "Summary") = of_string "extracted").
  { apply H. exists (of_string "Summary"). split; [now left | reflexivity]. }
  discriminate E.
Qed.

Lemma summary_after_first_keyword_witness :
  let text : str :=
    of_string "Jane Roe" ++ nl :: of_string "My Profile" ++ nl ::
    of_string " builds compilers" ++ nl :: of_string "and proofs " in
  summary (_extract_summary text)
  = Some (of_string "builds compilers" ++ nl :: of_string "and proofs")
  /\ source (_extract_summary text) = of_string "extracted".
Proof.
  intros text.
  apply (proj1 (summary_after_first_keyword text)
           [of_string "Jane Roe"] (of_string "My Profile")
           [of_string " builds compilers"; of_string "and proofs "]).
  - reflexivity.
  - repeat constructor.
  - reflexivity.
Defined.

Lemma skills_sorted_stable_capped_witness :
  exists k1 ka k2 kb k3,
    skills_keywords = k1 ++ ka :: k2 ++ kb :: k3
    /\ skill_entry (lower "Java and Python") "python"
       = skill_entry (lower "Java and Python") ka
    /\ skill_entry (lower "Java and Python") "java"
       = skill_entry (lower "Java and Python") kb.
Proof.
  apply (proj1 (proj2 (skills_sorted_stable_capped "Java and Python"))
           [] (skill_entry (lower "Java and Python") "python")
           [] (skill_entry (lower "Java and Python") "java")
           []).
  - reflexivity.
  - reflexivity.
Defined.

Lemma clean_text_single_line_witness :
  split_on nl (_clean_text (of_string "Jane  Roe" ++ nl :: of_string "Profile"))
  = [of_string "Jane Roe Profile"].
Proof.
  apply (proj1 (proj2 (clean_text_single_line
                         (of_string "Jane  Roe" ++ nl :: of_string "Profile")))).
Defined.


(* ================================================================== *)
(** * More on the text normaliser                                       *)
(* ================================================================== *)

(** ** Tokens *)

Lemma split_from_blank (t : str) (w : str) :
  forallb isspace t = true -> split_from w t = emit w.
Proof.
  revert w. induction t as [|c t IH]; intros w H; [reflexivity|].
  cbn [forallb] in H. apply andb_prop in H as [Hc Ht].
  cbn [split_from]. rewrite Hc, (IH [] Ht). apply app_nil_r.
Qed.

Lemma split_from_app_blank (x t : str) :
  forallb isspace t = true ->
  forall w, split_from w (x ++ t) = split_from w x.
Proof.
  intros Ht. induction x as [|c x IH]; intros w; cbn [app split_from].
  - now apply split_from_blank.
  - destruct (isspace c); now rewrite IH.
Qed.

Lemma split_lstrip (s : str) : split (lstrip s) = split s.
Proof.
  unfold split, lstrip. induction s as [|c s IH]; [reflexivity|].
  cbn [dropwhile split_from]. destruct (isspace c) eqn:E.
  - exact IH.
  - cbn [split_from]. now rewrite E.
Qed.

Lemma split_rstrip (s : str) : split (rstrip s) = split s.
Proof.
  unfold rstrip.
  destruct (dropwhile_suffix isspace (rev s)) as (t & Ht & Hblank).
  assert (Hs : s = rev (dropwhile isspace (rev s)) ++ rev t).
  { rewrite <- rev_app_distr, <- Ht. now rewrite rev_involutive. }
  rewrite Hs at 2. unfold split. symmetry. apply split_from_app_blank.
  rewrite forallb_forall in *. intros c Hc. apply Hblank.
  now apply in_rev.
Qed.

Lemma split_strip (s : str) : split (strip s) = split s.
Proof. unfold strip. now rewrite split_rstrip, split_lstrip. Qed.

(** Squeezing the blanks keeps the tokens. *)
Lemma split_from_squeeze (s : str) :
  forall (b : bool) (w : str),
    (b = true -> w = []) ->
    split_from w (squeeze isspace [sp] b s) = split_from w s.
Proof.
  induction s as [|c s IH]; intros b w Hb; [reflexivity|].
  cbn [squeeze split_from]. destruct (isspace c) eqn:E.
  - destruct b.
    + rewrite (Hb eq_refl). cbn [app emit]. now apply IH.
    + cbn [app split_from]. change (isspace sp) with true. cbn iota.
      f_equal. now apply IH.
  - cbn [split_from]. rewrite E. apply IH. discriminate.
Qed.

(** ** Texts in normal form *)

Lemma join_cons (sep p : str) (ps : list str) :
  ps <> [] -> join sep (p :: ps) = p ++ sep ++ join sep ps.
Proof. destruct ps; [congruence | reflexivity]. Qed.

Lemma ends_nonspace_tail (c : ascii) (s : str) :
  s <> [] -> ends_nonspace (c :: s) = ends_nonspace s.
Proof. destruct s; [congruence | reflexivity]. Qed.

(** A text whose blanks are single spaces between tokens is its tokens
    joined by spaces. *)
Lemma join_split_tidy (t : str) :
  forall (b : bool) (w : str),
    tidy b t = true ->
    ends_nonspace t = true ->
    (w = [] -> starts_nonspace t = true) ->
    join [sp] (split_from w t) = w ++ t.
Proof.
  induction t as [|c t IH]; intros b w Htidy Hend Hstart.
  - cbn [split_from]. rewrite app_nil_r. now destruct w.
  - cbn [split_from]. cbn [tidy] in Htidy. destruct (isspace c) eqn:E.
    + apply andb_prop in Htidy as [Hc Ht]. apply andb_prop in Hc as [Hc _].
      apply Ascii.eqb_eq in Hc. subst c.
      destruct w as [|x w].
      { specialize (Hstart eq_refl). cbn [starts_nonspace] in Hstart.
        rewrite E in Hstart. discriminate. }
      destruct t as [|d t].
      { cbn [ends_nonspace] in Hend. rewrite E in Hend. discriminate. }
      assert (Hd : isspace d = false).
      { cbn [tidy] in Ht. destruct (isspace d); [|reflexivity].
        rewrite andb_false_r in Ht. discriminate. }
      assert (Hrest : join [sp] (split_from [] (d :: t)) = d :: t).
      { apply (IH true []); trivial.
        intros _. cbn [starts_nonspace]. now rewrite Hd. }
      cbn [emit app]. change ([x :: w] ++ split_from [] (d :: t))
        with ((x :: w) :: split_from [] (d :: t)).
      rewrite join_cons.
      * now rewrite Hrest.
      * intros Hnil. rewrite Hnil in Hrest. discriminate Hrest.
    + assert (Hrec : join [sp] (split_from (w ++ [c]) t) = (w ++ [c]) ++ t).
      { apply (IH false); trivial.
        - destruct t as [|d t]; [reflexivity|].
          now rewrite ends_nonspace_tail in Hend.
        - intros Hnil. now destruct w. }
      rewrite Hrec, <- app_assoc. reflexivity.
Qed.

Lemma stripped_starts (t : str) : strip t = t -> starts_nonspace t = true.
Proof.
  intros H.
  assert (Hl : lstrip t = t).
  { rewrite <- H at 1. rewrite <- H at 2. unfold strip.
    apply lstrip_rstrip_lstrip. }
  destruct t as [|c t]; [reflexivity|].
  unfold lstrip in Hl. apply dropwhile_head in Hl.
  cbn [starts_nonspace]. now rewrite Hl.
Qed.

Lemma ends_nonspace_snoc (l : str) (x : ascii) :
  ends_nonspace (l ++ [x]) = negb (isspace x).
Proof.
  induction l as [|c l IH]; [reflexivity|].
  cbn [app]. rewrite ends_nonspace_tail; [exact IH|].
  now destruct l.
Qed.

Lemma stripped_ends (t : str) : strip t = t -> ends_nonspace t = true.
Proof.
  intros H.
  assert (Hr : rstrip t = t).
  { rewrite <- H at 1. rewrite <- H at 2. unfold strip. apply rstrip_idem. }
  unfold rstrip in Hr.
  assert (Hd : dropwhile isspace (rev t) = rev t).
  { rewrite <- Hr at 2. now rewrite rev_involutive. }
  destruct (rev t) as [|x r] eqn:Erev.
  - apply (f_equal (@rev ascii)) in Erev. rewrite rev_involutive in Erev.
    now subst t.
  - apply dropwhile_head in Hd.
    apply (f_equal (@rev ascii)) in Erev. rewrite rev_involutive in Erev.
    subst t. cbn [rev]. now rewrite ends_nonspace_snoc, Hd.
Qed.

Lemma clean_text_split (s : str) : split (_clean_text s) = split s.
Proof.
  rewrite clean_text_squeeze, split_strip. unfold split.
  apply split_from_squeeze. discriminate.
Qed.

Lemma clean_text_join (s : str) : _clean_text s = join [sp] (split s).
Proof.
  rewrite <- (clean_text_split s). unfold split. symmetry.
  apply (@join_split_tidy (_clean_text s) false []).
  - apply clean_text_tidy.
  - apply stripped_ends, clean_text_stripped.
  - intros _. apply stripped_starts, clean_text_stripped.
Qed.

(** X1.  The normaliser gives the tokens of the text joined by single
    spaces ([" ".join(text.split())]); in particular it keeps the tokens. *)
Theorem clean_text_join_split :
  forall s : str,
    _clean_text s = join [sp] (split s)
    /\ split (_clean_text s) = split s.
Proof.
  intros s. split; [apply clean_text_join | apply clean_text_split].
Qed.

(* ================================================================== *)
(** * The pipeline of [_parse_text]                                     *)
(* ================================================================== *)

(** What [_parse_text] returns, when it returns. *)
Lemma parse_text_inr (O : SetOrder) (nlp : option recogniser) (text : str)
    (r : ParsedData) :
  _parse_text nlp text = inr r ->
  exists experience_info,
    _extract_experience (_clean_text text) = inr experience_info
    /\ r = {| personal_info := _extract_personal_info nlp (_clean_text text);
              contact_info := _extract_contact_info (_clean_text text);
              skills := _extract_skills (_clean_text text);
              education := _extract_education (_clean_text text);
              experience := experience_info;
              summary_section := _extract_summary (_clean_text text);
              raw_text := if 1000 <? length text
                          then firstn 1000 text ++ of_string "..."
                          else text;
              metadata := None |}.
Proof.
  unfold _parse_text.
  destruct (_extract_experience (_clean_text text)) as [e|experience_info];
    [discriminate|].
  intros E. exists experience_info. split; [reflexivity | congruence].
Qed.

Lemma parse_text_inl (O : SetOrder) (nlp : option recogniser) (text : str)
    (e : exn) :
  _parse_text nlp text = inl e <-> _extract_experience (_clean_text text) = inl e.
Proof.
  unfold _parse_text.
  destruct (_extract_experience (_clean_text text)) as [e'|experience_info].
  - split; congruence.
  - split; discriminate.
Qed.

(** X2.  Two texts with the same tokens, whatever the blanks between them,
    are parsed alike: both parses raise the same exception, or both return,
    and then with the same fields; only the preview [raw_text] tells them
    apart. *)
Theorem parse_text_blank_insensitive :
  forall (O : SetOrder) (nlp : option recogniser) (t1 t2 : str),
    split t1 = split t2 ->
    match _parse_text nlp t1, _parse_text nlp t2 with
    | inr r1, inr r2 =>
        personal_info r1 = personal_info r2
        /\ contact_info r1 = contact_info r2
        /\ skills r1 = skills r2
        /\ education r1 = education r2
        /\ experience r1 = experience r2
        /\ summary_section r1 = summary_section r2
    | inl e1, inl e2 => e1 = e2
    | _, _ => False
    end.
Proof.
  intros O nlp t1 t2 H. unfold _parse_text.
  rewrite (clean_text_join t1), (clean_text_join t2), H.
  destruct (_extract_experience (join [sp] (split t2))) as [e|experience_info].
  - reflexivity.
  - cbn [personal_info contact_info skills education experience
         summary_section].
    repeat split.
Qed.

Lemma parse_text_blank_insensitive_witness :
  match @_parse_text first_occurrence_order None
          (of_string "Python  and" ++ nl :: of_string " SQL"),
        @_parse_text first_occurrence_order None "Python and SQL" with
  | inr r1, inr r2 =>
      personal_info r1 = personal_info r2
      /\ contact_info r1 = contact_info r2
      /\ skills r1 = skills r2
      /\ education r1 = education r2
      /\ experience r1 = experience r2
      /\ summary_section r1 = summary_section r2
  | inl e1, inl e2 => e1 = e2
  | _, _ => False
  end.
Proof.
  apply (@parse_text_blank_insensitive first_occurrence_order None
           (of_string "Python  and" ++ nl :: of_string " SQL")
           (of_string "Python and SQL")).
  reflexivity.
Defined.

(** X3.  In the pipeline the summary is never extracted: the text given to
    the summary extractor is one line, so there is no line after a keyword;
    in every record [_parse_text] returns the source tag is ["not_found"]
    and the summary is null or the empty string.  For the same reason at
    most one institution is reported. *)
Theorem parse_text_summary_never_extracted :
  forall (O : SetOrder) (nlp : option recogniser) (text : str)
         (r : ParsedData),
    _parse_text nlp text = inr r ->
    source (summary_section r) = of_string "not_found"
    /\ (summary (summary_section r) = None
        \/ summary (summary_section r) = Some [])
    /\ length (institutions (education r)) <= 1.
Proof.
  intros O nlp text r Hr.
  apply parse_text_inr in Hr as (experience_info & _ & ->).
  cbn [summary_section education].
  unfold _extract_summary, _extract_education.
  cbn [source summary institutions].
  rewrite clean_text_lines. cbn [summary_loop firstn].
  split; [|split].
  - now destruct (any_keyword_in summary_keywords (_clean_text text)).
  - destruct (any_keyword_in summary_keywords (_clean_text text));
      [right | left]; reflexivity.
  - unfold find_universities. cbn [flat_map]. rewrite app_nil_r.
    destruct (any_keyword_in university_keywords (_clean_text text));
      [|cbn; lia].
    destruct (5 <? length _); cbn; lia.
Qed.

Lemma parse_text_summary_never_extracted_witness :
  exists r,
    @_parse_text first_occurrence_order None
      (of_string "Profile" ++ nl :: of_string "Jane Roe builds compilers")
    = inr r
    /\ source (summary_section r) = of_string "not_found"
    /\ (summary (summary_section r) = None
        \/ summary (summary_section r) = Some [])
    /\ length (institutions (education r)) <= 1.
Proof.
  assert (Hr : exists r,
             @_parse_text first_occurrence_order None
               (of_string "Profile" ++ nl
                  :: of_string "Jane Roe builds compilers") = inr r).
  { eexists. vm_compute. reflexivity. }
  destruct Hr as [r Hr]. exists r. split; [exact Hr|].
  apply (@parse_text_summary_never_extracted first_occurrence_order None
           (of_string "Profile" ++ nl :: of_string "Jane Roe builds compilers")
           r Hr).
Defined.

(** X25.  [_parse_text] returns exactly when no mention of years of
    experience in the normalised text has a number of more than 4300
    digits; what it raises otherwise is the [ValueError] of [int] for the
    number of such a mention, and nothing else. *)
Theorem parse_text_outcomes :
  forall (O : SetOrder) (nlp : option recogniser) (text : str),
    ((exists r, _parse_text nlp text = inr r)
     <-> (forall pre digits m post : str,
            _clean_text text = pre ++ m ++ post -> mention digits m ->
            length digits <= int_max_str_digits))
    /\ (forall raised : exn,
          _parse_text nlp text = inl raised ->
          exists pre digits m post,
            _clean_text text = pre ++ m ++ post /\ mention digits m
            /\ int_max_str_digits < length digits
            /\ raised = ValueError (int_limit_message (length digits))).
Proof.
  intros O nlp text. split.
  - rewrite <- (extract_experience_returns O (_clean_text text)). split.
    + intros [r Hr]. apply parse_text_inr in Hr as (e & He & _).
      now exists e.
    + intros [e He]. unfold _parse_text. rewrite He. eexists. reflexivity.
  - intros raised Hr. apply parse_text_inl in Hr.
    now apply extract_experience_raises in Hr.
Qed.

(** X4.  In every record [_parse_text] returns, the preview [raw_text] is
    the text itself up to 1000 characters; beyond, it is the first 1000
    characters followed by three dots, 1003 characters in all.  It is never
    longer than 1003 characters and its first 1000 characters are those of
    the text. *)
Theorem parse_text_raw_text_bounded :
  forall (O : SetOrder) (nlp : option recogniser) (text : str)
         (r : ParsedData),
    _parse_text nlp text = inr r ->
    length (raw_text r) <= 1003
    /\ firstn 1000 (raw_text r) = firstn 1000 text
    /\ (length text <= 1000 -> raw_text r = text)
    /\ (1000 < length text ->
        raw_text r = firstn 1000 text ++ of_string "..."
        /\ length (raw_text r) = 1003).
Proof.
  intros O nlp text r Hr.
  apply parse_text_inr in Hr as (experience_info & _ & ->). cbn [raw_text].
  destruct (1000 <? length text) eqn:E.
  - apply Nat.ltb_lt in E.
    assert (Hlen : length (firstn 1000 text) = 1000)
      by (rewrite length_firstn; lia).
    assert (Hdots : length (of_string "...") = 3) by reflexivity.
    split; [|split; [|split]].
    + rewrite length_app, Hlen, Hdots. lia.
    + rewrite firstn_app, Hlen, Nat.sub_diag, firstn_O, app_nil_r.
      apply firstn_firstn.
    + lia.
    + intros _. split; [reflexivity|].
      rewrite length_app, Hlen, Hdots. lia.
  - apply Nat.ltb_ge in E. split; [lia|]. split; [reflexivity|].
    split; [reflexivity | lia].
Qed.

Lemma parse_text_raw_text_bounded_witness :
  exists r,
    @_parse_text first_occurrence_order None "Jane Roe" = inr r
    /\ raw_text r = of_string "Jane Roe".
Proof.
  assert (Hr : exists r,
             @_parse_text first_occurrence_order None "Jane Roe" = inr r).
  { eexists. vm_compute. reflexivity. }
  destruct Hr as [r Hr]. exists r. split; [exact Hr|].
  apply (proj1 (proj2 (proj2
           (@parse_text_raw_text_bounded first_occurrence_order None
              (of_string "Jane Roe") r Hr)))).
  cbn. lia.
Defined.

(* ================================================================== *)
(** * More on the personal-info extractor                               *)
(* ================================================================== *)

Lemma name_loop_strip (lines : list str) :
  name_loop lines = name_loop (map strip lines).
Proof.
  induction lines as [|l lines IH]; [reflexivity|].
  cbn [map name_loop]. now rewrite strip_idem, IH.
Qed.

(** X5.  For any text, without entity recogniser, the name is the first
    candidate among the first five lines once stripped; and the recogniser
    is only asked when that search finds nothing: a name found by the
    search is the result whatever the recogniser, and when nothing is found
    the result is the first PERSON entity of the first 500 characters. *)
Theorem personal_info_heuristic_first :
  forall text : str,
    name (_extract_personal_info None text)
    = find name_candidate (map strip (firstn 5 (split_on nl text)))
    /\ (forall (nlp : option recogniser) (n : str),
          name (_extract_personal_info None text) = Some n ->
          name (_extract_personal_info nlp text) = Some n)
    /\ (forall model : recogniser,
          name (_extract_personal_info None text) = None ->
          name (_extract_personal_info (Some model) text)
          = first_person (model (firstn 500 text))).
Proof.
  intros text. unfold _extract_personal_info. cbn [name].
  split; [|split].
  - rewrite name_loop_strip. apply name_loop_find.
    apply Forall_forall. intros l Hl.
    apply in_map_iff in Hl as (l0 & <- & _). apply strip_idem.
  - intros nlp n H. rewrite H. now destruct nlp.
  - intros model H. now rewrite H.
Qed.

Lemma personal_info_heuristic_first_witness :
  name (_extract_personal_info (Some (fun _ => [(of_string "Bob", of_string "PERSON")]))
          (of_string "  Jane Roe " ++ nl :: of_string "Engineer"))
  = Some (of_string "Jane Roe").
Proof.
  apply (proj1 (proj2 (personal_info_heuristic_first
                         (of_string "  Jane Roe " ++ nl :: of_string "Engineer")))).
  reflexivity.
Defined.

(* ================================================================== *)
(** * More on the skills extractor                                      *)
(* ================================================================== *)

Lemma count_from_contains (sub s : str) :
  sub <> [] -> contains sub s = true -> 1 <= count_from sub s 0.
Proof.
  intros Hsub. induction s as [|c s IH]; cbn [contains count_from].
  - rewrite orb_false_r. destruct sub; [congruence | discriminate].
  - destruct (startswith sub (c :: s)); [lia|]. cbn [orb]. exact IH.
Qed.

(** A substring is counted at least once. *)
Lemma count_contains (sub s : str) :
  sub <> [] -> contains sub s = true -> 1 <= count sub s.
Proof.
  intros Hsub H. destruct sub as [|a sub]; [congruence|].
  now apply count_from_contains.
Qed.

Lemma to_lower_idem (c : ascii) : to_lower (to_lower c) = to_lower c.
Proof. destruct c as [[] [] [] [] [] [] [] []]; reflexivity. Qed.

Lemma lower_idem (s : str) : lower (lower s) = lower s.
Proof.
  unfold lower. rewrite map_map. apply map_ext. intros c. apply to_lower_idem.
Qed.

Lemma skills_keywords_wellformed :
  forallb (fun k => nonempty k && str_eqb (lower k) k) skills_keywords = true.
Proof. vm_compute. reflexivity. Qed.

Lemma categorize_skill_tags (skill : str) :
  In (_categorize_skill skill)
     (strs ["programming_language"; "framework"; "database";
            "cloud_devops"; "other"]).
Proof.
  unfold _categorize_skill.
  repeat match goal with
         | |- context [if ?c then _ else _] => destruct c
         end; cbn; tauto.
Qed.

Lemma In_firstn {A} (n : nat) (l : list A) (x : A) :
  In x (firstn n l) -> In x l.
Proof.
  intros H. rewrite <- (firstn_skipn n l). apply in_or_app. now left.
Qed.

Lemma found_skills_In (text : str) (e : SkillEntry) :
  In e (technical_skills (_extract_skills text)) ->
  exists k,
    In k skills_keywords
    /\ contains (lower k) (lower text) = true
    /\ e = skill_entry (lower text) k.
Proof.
  unfold _extract_skills. cbn [technical_skills]. intros H.
  apply In_firstn in H.
  apply (Permutation_in _ (sort_reverse_perm mentions _)) in H.
  rewrite find_skills_map_filter in H.
  apply in_map_iff in H as (k & <- & Hk). apply filter_In in Hk as [Hk Hc].
  now exists k.
Qed.

(** X6.  Every skill reported is the entry of a keyword of the list that
    the lowered text holds: its name is the keyword in title case, its
    mention count is at least 1, and its category is one of the five
    tags. *)
Theorem skills_entries_wellformed :
  forall (text : str) (e : SkillEntry),
    In e (technical_skills (_extract_skills text)) ->
    exists k,
      In k skills_keywords
      /\ contains k (lower text) = true
      /\ skill e = title k
      /\ mentions e = count k (lower text)
      /\ 1 <= mentions e
      /\ In (category e)
            (strs ["programming_language"; "framework"; "database";
                   "cloud_devops"; "other"]).
Proof.
  intros text e H. apply found_skills_In in H as (k & Hk & Hc & ->).
  pose proof skills_keywords_wellformed as Hwf.
  rewrite forallb_forall in Hwf. specialize (Hwf k Hk).
  apply andb_prop in Hwf as [Hne Hlow]. apply str_eqb_eq in Hlow.
  rewrite Hlow in Hc.
  exists k. unfold skill_entry. cbn [skill mentions category].
  rewrite Hlow. repeat split; trivial.
  - apply count_contains; [|exact Hc]. now destruct k.
  - apply categorize_skill_tags.
Qed.

Lemma skills_entries_wellformed_witness :
  exists k,
    In k skills_keywords
    /\ contains k (lower "I know SQL and mysql") = true
    /\ title "sql" = title k
    /\ 2 = count k (lower "I know SQL and mysql")
    /\ 1 <= 2
    /\ In (of_string "other")
          (strs ["programming_language"; "framework"; "database";
                 "cloud_devops"; "other"]).
Proof.
  apply (skills_entries_wellformed "I know SQL and mysql"
           {| skill := title "sql"; mentions := 2; category := "other" |}).
  left. reflexivity.
Defined.

Lemma filter_length_zero {A} (p : A -> bool) (l : list A) :
  length (filter p l) = 0 <-> forall x, In x l -> p x = false.
Proof.
  induction l as [|a l IH]; cbn [filter].
  - split; [intros _ x [] | reflexivity].
  - destruct (p a) eqn:E; cbn [length].
    + split; [discriminate|]. intros H.
      rewrite (H a (or_introl eq_refl)) in E. discriminate.
    + rewrite IH. split.
      * intros H x [<-|Hx]; [exact E | now apply H].
      * intros H x Hx. apply H. now right.
Qed.

(** X7.  The skills extractor does not see the case of the text: a text
    and its lowered form give the same result.  It reports no skill, and a
    total of 0, exactly when no keyword is in the lowered text; the empty
    text is such a text. *)
Theorem skills_case_and_zero :
  forall text : str,
    _extract_skills (lower text) = _extract_skills text
    /\ (total_skills_found (_extract_skills text) = 0
        <-> forall k, In k skills_keywords ->
                      contains (lower k) (lower text) = false)
    /\ (total_skills_found (_extract_skills text) = 0
        <-> technical_skills (_extract_skills text) = [])
    /\ _extract_skills [] = {| technical_skills := []; total_skills_found := 0 |}.
Proof.
  intros text. split; [|split; [|split]].
  - unfold _extract_skills. now rewrite lower_idem.
  - unfold _extract_skills. cbn [total_skills_found].
    rewrite sort_reverse_length, find_skills_map_filter, length_map.
    apply filter_length_zero.
  - unfold _extract_skills. cbn [total_skills_found technical_skills].
    destruct (sort_reverse mentions _) as [|e l]; cbn [length firstn].
    + tauto.
    + split; discriminate.
  - vm_compute. reflexivity.
Qed.

Lemma skills_case_and_zero_witness :
  technical_skills (_extract_skills "2024") = [].
Proof.
  apply (proj1 (proj2 (proj2 (skills_case_and_zero "2024")))).
  reflexivity.
Defined.

(* ================================================================== *)
(** * More on the experience extractor                                  *)
(* ================================================================== *)

Lemma experience_level_unknown (years : option Z) :
  _determine_experience_level years = of_string "unknown" <-> years = None.
Proof.
  destruct years as [y|]; cbn [_determine_experience_level].
  - split; [|discriminate].
    destruct (y <? 2)%Z; [discriminate|].
    destruct (y <? 5)%Z; [discriminate|].
    destruct (y <? 10)%Z; discriminate.
  - tauto.
Qed.

Lemma total_years_none (O : SetOrder) (text : str) (e : Experience) :
  _extract_experience text = inr e ->
  total_years_experience e = None
  <-> findall2 true exp_pattern text = [].
Proof.
  intros He. rewrite (@extract_experience_total O text e He).
  destruct (findall2 true exp_pattern text) as [|m ms]; cbn [map].
  - tauto.
  - split; discriminate.
Qed.

(** X8.  When the extractor returns, the experience level is ["unknown"],
    and the total of years null, exactly when the text holds no mention of
    years of experience; and for a text without a mention the extractor does
    return, with no total and the level ["unknown"]. *)
Theorem experience_unknown_iff_no_mention :
  forall (O : SetOrder) (text : str),
    (forall e : Experience,
        _extract_experience text = inr e ->
        (experience_level e = of_string "unknown"
         <-> total_years_experience e = None)
        /\ (total_years_experience e = None
            <-> ~ exists pre digits m post,
                    text = pre ++ m ++ post /\ mention digits m))
    /\ ((~ exists pre digits m post,
            text = pre ++ m ++ post /\ mention digits m) ->
        exists e,
          _extract_experience text = inr e
          /\ total_years_experience e = None
          /\ experience_level e = of_string "unknown").
Proof.
  intros O text.
  assert (Hiff : forall e : Experience,
             _extract_experience text = inr e ->
             total_years_experience e = None
             <-> ~ exists pre digits m post,
                     text = pre ++ m ++ post /\ mention digits m).
  { intros e He. rewrite (@total_years_none O text e He). split.
    - intros Hnone (pre & digits & m & post & Htext & Hm).
      destruct (mention_dominated pre post Htext Hm) as (d & Hd & _).
      now rewrite Hnone in Hd.
    - intros Hno.
      destruct (findall2 true exp_pattern text) as [|m ms] eqn:E;
        [reflexivity|].
      exfalso. apply Hno.
      destruct (@reported_is_mention text (fst m))
        as (pre & m' & post & H1 & H2).
      { rewrite E. now left. }
      now exists pre, (fst m), m', post. }
  assert (Hlevel : forall e : Experience,
             _extract_experience text = inr e ->
             experience_level e = of_string "unknown"
             <-> total_years_experience e = None).
  { intros e He. apply extract_experience_inr in He as (years & _ & ->).
    cbn [experience_level total_years_experience].
    apply experience_level_unknown. }
  split.
  - intros e He. split; [now apply Hlevel | now apply Hiff].
  - intros Hno.
    destruct (proj2 (extract_experience_returns O text)) as [e He].
    { intros pre digits m post Htext Hm. exfalso. apply Hno.
      now exists pre, digits, m, post. }
    exists e. split; [exact He|].
    assert (Hnone : total_years_experience e = None)
      by now apply (proj2 (Hiff e He)).
    split; [exact Hnone|]. now apply (proj2 (Hlevel e He)).
Qed.

Lemma experience_unknown_iff_no_mention_witness :
  exists e,
    @_extract_experience first_occurrence_order "ten years of work" = inr e
    /\ ~ exists pre digits m post,
          of_string "ten years of work" = pre ++ m ++ post
          /\ mention digits m.
Proof.
  assert (He : exists e,
             @_extract_experience first_occurrence_order "ten years of work"
             = inr e /\ total_years_experience e = None).
  { eexists. split; vm_compute; reflexivity. }
  destruct He as (e & He & Hnone). exists e. split; [exact He|].
  apply (proj1 (proj2 (proj1 (experience_unknown_iff_no_mention
                                first_occurrence_order "ten years of work")
                         e He))).
  exact Hnone.
Defined.

(* ================================================================== *)
(** * The contact extractor and the companies                           *)
(* ================================================================== *)

(** ** From the matches reported to the meaning of the pattern *)

Lemma scan_hit_text (ic : bool) (r : regex) (s : str) :
  forall prev skip t cs,
    In (t, cs) (hits (scan ic r prev s skip)) ->
    exists pre rest len,
      s = pre ++ rest
      /\ match_at ic r (prev_at prev pre) rest = Some (len, cs)
      /\ t = firstn len rest.
Proof.
  induction s as [|c s IH]; intros prev skip t cs Hin.
  - destruct skip; cbn [scan] in Hin; [|contradiction].
    destruct (match_at ic r prev []) as [[len cs']|] eqn:E; [|contradiction].
    destruct Hin as [Hin|[]]. injection Hin as <- <-.
    now exists [], [], len.
  - assert (Hrec : forall skip',
               In (t, cs) (hits (scan ic r (Some c) s skip')) ->
               exists pre rest len,
                 c :: s = pre ++ rest
                 /\ match_at ic r (prev_at prev pre) rest = Some (len, cs)
                 /\ t = firstn len rest).
    { intros skip' H. apply IH in H as (pre & rest & len & -> & H & Ht).
      now exists (c :: pre), rest, len. }
    destruct skip; cbn [scan] in Hin; [|now apply Hrec in Hin].
    destruct (match_at ic r prev (c :: s)) as [[len cs']|] eqn:E.
    + rewrite hits_Hit in Hin. destruct Hin as [Hin|Hin].
      * injection Hin as <- <-. now exists [], (c :: s), len.
      * rewrite hits_app in Hin.
        apply in_app_or in Hin as [Hin|Hin]; [|now apply Hrec in Hin].
        destruct (len =? 0); cbv in Hin; contradiction.
    + rewrite hits_Lit in Hin. now apply Hrec in Hin.
Qed.

(** A match reported stands in the text and is a match of the pattern. *)
Lemma hit_den (ic : bool) (r : regex) (text t : str) (cs : caps) :
  In (t, cs) (hits (finditer ic r text)) ->
  exists pre post p0 p1,
    text = pre ++ t ++ post /\ den ic r p0 t post [] p1 cs.
Proof.
  intros H. apply scan_hit_text in H as (pre & rest & len & -> & Hm & ->).
  apply match_at_sound in Hm as (t & post & p1 & -> & -> & Hd).
  exists pre, post, (prev_at None pre), p1.
  rewrite <- (Nat.add_0_r (length t)), firstn_app_2. cbn [firstn].
  rewrite app_nil_r. now split.
Qed.

Lemma findall0_den (ic : bool) (r : regex) (text e : str) :
  In e (findall0 ic r text) ->
  exists pre post p0 p1 cs,
    text = pre ++ e ++ post /\ den ic r p0 e post [] p1 cs.
Proof.
  unfold findall0. intros H. apply in_map_iff in H as ([t cs] & <- & H).
  apply hit_den in H as (pre & post & p0 & p1 & H1 & H2).
  now exists pre, post, p0, p1, cs.
Qed.

Lemma findall1_den (ic : bool) (r : regex) (text g : str) :
  In g (findall1 ic r text) ->
  exists pre t post p0 p1 cs,
    text = pre ++ t ++ post /\ den ic r p0 t post [] p1 cs
    /\ g = group 1 cs.
Proof.
  unfold findall1. intros H. apply in_map_iff in H as ([t cs] & <- & H).
  apply hit_den in H as (pre & post & p0 & p1 & H1 & H2).
  now exists pre, t, post, p0, p1, cs.
Qed.

(** The same, with the character that stands before the match. *)
Lemma findall1_den_prev (ic : bool) (r : regex) (text g : str) :
  In g (findall1 ic r text) ->
  exists pre t post p1 cs,
    text = pre ++ t ++ post
    /\ den ic r (prev_at None pre) t post [] p1 cs
    /\ g = group 1 cs.
Proof.
  unfold findall1. intros H. apply in_map_iff in H as ([t cs] & <- & H).
  apply scan_hit_text in H as (pre & rest & len & -> & Hm & ->).
  apply match_at_sound in Hm as (t & post & p1 & -> & -> & Hd).
  exists pre, t, post, p1, cs.
  rewrite <- (Nat.add_0_r (length t)), firstn_app_2. cbn [firstn].
  rewrite app_nil_r. now split.
Qed.

Section MoreInversion.

Variable ic : bool.

Lemma den_Bnd_inv prev t rest cs p1 cs1 :
  den ic Bnd prev t rest cs p1 cs1 -> t = [] /\ cs1 = cs.
Proof. inversion 1; subst; auto. Qed.

Lemma den_Bnd_xor prev t rest cs p1 cs1 :
  den ic Bnd prev t rest cs p1 cs1 ->
  xorb (word_at prev) (word_at (hd_error rest)) = true.
Proof. inversion 1; subst; auto. Qed.

Lemma den_Rep_Cls_inv p n :
  forall prev t rest cs p1 cs1,
    den ic (Rep n (Cls p)) prev t rest cs p1 cs1 ->
    length t = n /\ forallb p t = true /\ cs1 = cs.
Proof.
  induction n as [|n IH]; intros prev t rest cs p1 cs1 H; cbn [Rep] in H.
  - apply den_Eps_inv in H as [-> ->]. auto.
  - apply den_Seq_inv in H as (t1 & t2 & q & c1 & -> & H1 & H2).
    apply den_Cls_inv in H1 as (x & -> & Hx & ->).
    apply IH in H2 as (Hlen & Hall & ->).
    cbn [app length forallb]. rewrite Hx, Hlen. auto.
Qed.

Lemma den_UpTo_Cls_inv p n :
  forall prev t rest cs p1 cs1,
    den ic (UpTo n (Cls p)) prev t rest cs p1 cs1 ->
    forallb p t = true /\ cs1 = cs.
Proof.
  induction n as [|n IH]; intros prev t rest cs p1 cs1 H; cbn [UpTo] in H.
  - apply den_Eps_inv in H as [-> ->]. auto.
  - apply den_Alt_inv in H as [H|H].
    + apply den_Seq_inv in H as (t1 & t2 & q & c1 & -> & H1 & H2).
      apply den_Cls_inv in H1 as (x & -> & Hx & ->).
      apply IH in H2 as (Hall & ->).
      cbn [app forallb]. rewrite Hx. auto.
    + apply den_Eps_inv in H as [-> ->]. auto.
Qed.

Lemma den_Range_Cls_inv p lo hi prev t rest cs p1 cs1 :
  den ic (Range lo hi (Cls p)) prev t rest cs p1 cs1 ->
  lo <= length t /\ forallb p t = true /\ cs1 = cs.
Proof.
  unfold Range. intros H.
  apply den_Seq_inv in H as (t1 & t2 & q & c1 & -> & H1 & H2).
  apply den_Rep_Cls_inv in H1 as (Hlen & H1 & ->).
  apply den_UpTo_Cls_inv in H2 as (H2 & ->).
  rewrite length_app, forallb_app, H1, H2. repeat split. lia.
Qed.

Lemma den_AtLeast_Cls_inv p lo prev t rest cs p1 cs1 :
  den ic (AtLeast lo (Cls p)) prev t rest cs p1 cs1 ->
  lo <= length t /\ forallb p t = true /\ cs1 = cs.
Proof.
  unfold AtLeast. intros H.
  apply den_Seq_inv in H as (t1 & t2 & q & c1 & -> & H1 & H2).
  apply den_Rep_Cls_inv in H1 as (Hlen & H1 & ->).
  apply den_Star_Cls_inv in H2 as (H2 & ->).
  rewrite length_app, forallb_app, H1, H2. repeat split. lia.
Qed.

End MoreInversion.

(** Without [IGNORECASE] a run of literal characters matches itself. *)
Lemma den_chars_exact (w : str) :
  forall prev t rest cs p1 cs1,
    den false (chars w) prev t rest cs p1 cs1 -> t = w /\ cs1 = cs.
Proof.
  induction w as [|c w IH]; intros prev t rest cs p1 cs1 H.
  - cbn [chars] in H. apply den_Eps_inv in H as [-> ->]. auto.
  - destruct w as [|c' w'].
    + cbn [chars] in H. apply den_Chr_inv in H as (x & -> & Hx & ->).
      apply chr_match_exact in Hx. now subst x.
    + change (chars (c :: c' :: w')) with (Seq (Chr c) (chars (c' :: w'))) in H.
      apply den_Seq_inv in H as (t1 & t2 & q & c1 & -> & H1 & H2).
      apply den_Chr_inv in H1 as (x & -> & Hx & ->).
      apply IH in H2 as [-> ->].
      apply chr_match_exact in Hx. now subst x.
Qed.

(** ** E-mail addresses *)

(** X9.  Every e-mail address reported stands in the text and is made of a
    local part, an at sign, a domain, a dot and an ending of two characters
    at least, each part with the characters of its class; and no address is
    reported twice. *)
Theorem emails_wellformed :
  forall (O : SetOrder) (text : str),
    NoDup (emails (_extract_contact_info text))
    /\ forall e : str,
         In e (emails (_extract_contact_info text)) ->
         exists pre post local domain tld,
           text = pre ++ e ++ post
           /\ e = local ++ of_string "@" ++ domain ++ of_string "." ++ tld
           /\ local <> [] /\ forallb email_local_char local = true
           /\ domain <> [] /\ forallb email_domain_char domain = true
           /\ 2 <= length tld /\ forallb email_tld_char tld = true.
Proof.
  intros O text. unfold _extract_contact_info. cbn [emails].
  split; [apply set_list_NoDup|].
  intros e He. apply (proj1 (set_list_In _ _)) in He.
  apply findall0_den in He as (pre & post & p0 & p1 & cs & Htext & H).
  exists pre, post.
  unfold email_pattern in H. cbn [seqs] in H.
  apply den_Seq_inv in H as (t0 & t' & q0 & c0 & -> & H0 & H).
  apply den_Bnd_inv in H0 as [-> ->].
  apply den_Seq_inv in H as (local & t1 & q1 & c1 & -> & Hl & H).
  apply den_Plus_Cls_inv in Hl as (Hlne & Hl & ->).
  apply den_Seq_inv in H as (at_ & t2 & q2 & c2 & -> & Ha & H).
  apply den_Chr_inv in Ha as (x & -> & Hx & ->).
  apply chr_match_exact in Hx. subst x.
  apply den_Seq_inv in H as (domain & t3 & q3 & c3 & -> & Hd & H).
  apply den_Plus_Cls_inv in Hd as (Hdne & Hd & ->).
  apply den_Seq_inv in H as (dot_ & t4 & q4 & c4 & -> & Hdot & H).
  apply den_Chr_inv in Hdot as (x & -> & Hx & ->).
  apply chr_match_exact in Hx. subst x.
  apply den_Seq_inv in H as (tld & t5 & q5 & c5 & -> & Ht & H).
  apply den_AtLeast_Cls_inv in Ht as (Htlen & Ht & ->).
  apply den_Bnd_inv in H as [-> ->].
  exists local, domain, tld. rewrite app_nil_r in Htext |- *.
  repeat split; trivial.
Qed.

Lemma emails_wellformed_witness :
  exists pre post local domain tld,
    of_string "mail jane@roe.org now"
    = pre ++ of_string "jane@roe.org" ++ post
    /\ of_string "jane@roe.org"
       = local ++ of_string "@" ++ domain ++ of_string "." ++ tld
    /\ local <> [] /\ forallb email_local_char local = true
    /\ domain <> [] /\ forallb email_domain_char domain = true
    /\ 2 <= length tld /\ forallb email_tld_char tld = true.
Proof.
  apply (proj2 (@emails_wellformed first_occurrence_order
                  "mail jane@roe.org now") "jane@roe.org").
  left. reflexivity.
Defined.

(** ** Telephone numbers *)

Lemma digits_in_app (a b : str) :
  digits_in (a ++ b) = digits_in a + digits_in b.
Proof. unfold digits_in. now rewrite filter_app, length_app. Qed.

Lemma digits_in_all (t : str) :
  forallb is_digit t = true -> digits_in t = length t.
Proof.
  unfold digits_in. induction t as [|c t IH]; [reflexivity|].
  cbn [forallb filter]. intros H. apply andb_prop in H as [-> H].
  cbn [length]. now rewrite IH.
Qed.

Ltac inv_seq H H1 :=
  apply den_Seq_inv in H as (?u & ?u & ?q & ?c & -> & H1 & H).

Ltac inv_digits H :=
  first [ apply den_Rep_Cls_inv in H as (?Hlen & H & ?)
        | apply den_Range_Cls_inv in H as (?Hlen & H & ?) ];
  apply digits_in_all in H.

Lemma phone_pattern_1_digits p0 t post cs p1 cs1 :
  den false (nth 0 phone_patterns Eps) p0 t post cs p1 cs1 ->
  10 <= digits_in t.
Proof.
  cbn [nth phone_patterns seqs]. unfold d_. intros H.
  inv_seq H H1. inv_seq H H2. inv_seq H H3. inv_seq H H4.
  inv_seq H H5. inv_seq H H6. inv_seq H H7. inv_seq H H8.
  inv_seq H H9.
  inv_digits H5. inv_digits H8. inv_digits H.
  rewrite !digits_in_app. lia.
Qed.

Lemma phone_pattern_2_digits p0 t post cs p1 cs1 :
  den false (nth 1 phone_patterns Eps) p0 t post cs p1 cs1 ->
  10 <= digits_in t.
Proof.
  cbn [nth phone_patterns seqs]. unfold d_. intros H.
  inv_seq H H1. inv_seq H H2. inv_seq H H3. inv_seq H H4.
  inv_seq H H5. inv_seq H H6. inv_seq H H7. inv_seq H H8.
  inv_seq H H9.
  inv_digits H2. inv_digits H5. inv_digits H8. inv_digits H.
  rewrite !digits_in_app. lia.
Qed.

Lemma phone_pattern_3_digits p0 t post cs p1 cs1 :
  den false (nth 2 phone_patterns Eps) p0 t post cs p1 cs1 ->
  10 <= digits_in t.
Proof.
  cbn [nth phone_patterns seqs]. unfold d_. intros H.
  inv_seq H H1. inv_seq H H2. inv_seq H H3. inv_seq H H4.
  inv_seq H H5. inv_seq H H6.
  inv_digits H2. inv_digits H5. inv_digits H.
  rewrite !digits_in_app. lia.
Qed.

(** X10.  Every telephone number reported stands in the text and holds at
    least ten digits; and no number is reported twice. *)
Theorem phones_wellformed :
  forall (O : SetOrder) (text : str),
    NoDup (phones (_extract_contact_info text))
    /\ forall p : str,
         In p (phones (_extract_contact_info text)) ->
         (exists pre post, text = pre ++ p ++ post)
         /\ 10 <= digits_in p.
Proof.
  intros O text. unfold _extract_contact_info. cbn [phones].
  split; [apply set_list_NoDup|].
  intros p Hp. apply (proj1 (set_list_In _ _)) in Hp.
  apply in_flat_map in Hp as (r & Hr & Hp).
  apply findall0_den in Hp as (pre & post & p0 & p1 & cs & Htext & H).
  split; [now exists pre, post|].
  destruct Hr as [<-|[<-|[<-|[]]]].
  - now apply (@phone_pattern_1_digits p0 p post [] p1 cs).
  - now apply (@phone_pattern_2_digits p0 p post [] p1 cs).
  - now apply (@phone_pattern_3_digits p0 p post [] p1 cs).
Qed.

Lemma phones_wellformed_witness :
  (exists pre post,
      of_string "call (555) 123-4567" = pre ++ of_string "(555) 123-4567" ++ post)
  /\ 10 <= digits_in "(555) 123-4567".
Proof.
  apply (proj2 (@phones_wellformed first_occurrence_order
                  "call (555) 123-4567") "(555) 123-4567").
  left. reflexivity.
Defined.

(** ** The LinkedIn handle *)

Lemma linkedin_den p0 t post p1 cs :
  den true linkedin_pattern p0 t post [] p1 cs ->
  exists p h,
    t = p ++ h /\ lower p = of_string "linkedin.com/in/"
    /\ h <> [] /\ forallb handle_char h = true /\ group 1 cs = h.
Proof.
  unfold linkedin_pattern, lit. cbn [seqs]. intros H.
  apply den_Seq_inv in H as (p & h & q & c1 & -> & Hp & H).
  apply den_chars_inv in Hp as [Hp ->].
  apply den_Grp_inv in H as (c0 & -> & H).
  apply den_Plus_Cls_inv in H as (Hne & Hall & ->).
  exists p, h. cbn [group Nat.eqb]. repeat split; trivial.
Qed.

Lemma linkedin_accepts (p h : str) :
  lower p = of_string "linkedin.com/in/" ->
  h <> [] -> forallb handle_char h = true ->
  accepts true linkedin_pattern (p ++ h).
Proof.
  intros Hp Hne Hall. unfold linkedin_pattern, lit. cbn [seqs].
  apply accepts_Seq.
  - now apply accepts_chars.
  - now apply accepts_Grp, accepts_Plus_Cls.
Qed.

(** X11.  The LinkedIn handle reported follows, in the text, the prefix
    [linkedin.com/in/] written in any case, is not empty and is made of
    letters, digits and hyphens; and no handle is reported exactly when the
    text holds no such prefix followed by such a character. *)
Theorem linkedin_handle_wellformed :
  forall (O : SetOrder) (text : str),
    (forall h : str,
        linkedin (_extract_contact_info text) = Some h ->
        exists pre p post,
          text = pre ++ p ++ h ++ post
          /\ lower p = of_string "linkedin.com/in/"
          /\ h <> [] /\ forallb handle_char h = true)
    /\ (linkedin (_extract_contact_info text) = None
        <-> ~ exists pre p h post,
                text = pre ++ p ++ h ++ post
                /\ lower p = of_string "linkedin.com/in/"
                /\ h <> [] /\ forallb handle_char h = true).
Proof.
  intros O text. unfold _extract_contact_info. cbn [linkedin].
  assert (Hsound : forall h,
             In h (findall1 true linkedin_pattern text) ->
             exists pre p post,
               text = pre ++ p ++ h ++ post
               /\ lower p = of_string "linkedin.com/in/"
               /\ h <> [] /\ forallb handle_char h = true).
  { intros h Hh.
    apply findall1_den in Hh as (pre & t & post & p0 & p1 & cs & -> & H & ->).
    apply linkedin_den in H as (p & h & -> & Hp & Hne & Hall & ->).
    exists pre, p, post. rewrite <- app_assoc. now repeat split. }
  split.
  - intros h Hh. apply Hsound.
    destruct (findall1 true linkedin_pattern text) as [|x l];
      [discriminate|].
    injection Hh as ->. now left.
  - split.
    + intros Hnone (pre & p & h & post & -> & Hp & Hne & Hall).
      rewrite (app_assoc p h post) in Hnone.
      destruct (@linkedin_accepts p h Hp Hne Hall (prev_at None pre) post [])
        as (p1 & cs1 & Hd).
      apply match_at_complete in Hd as (len & cs & Hat).
      destruct (@scan_covers true linkedin_pattern
                  (pre ++ (p ++ h) ++ post) None 0 pre ((p ++ h) ++ post)
                  len cs eq_refl (Nat.le_0_l _) Hat)
        as (pre1 & mid & len' & cs' & _ & _ & _ & Hin & _).
      assert (Hin' : In (group 1 cs')
                        (findall1 true linkedin_pattern
                           (pre ++ (p ++ h) ++ post))).
      { unfold findall1.
        now apply (in_map (fun hit => group 1 (snd hit))) in Hin. }
      destruct (findall1 true linkedin_pattern (pre ++ (p ++ h) ++ post));
        [contradiction | discriminate].
    + intros Hno.
      destruct (findall1 true linkedin_pattern text) as [|x l] eqn:E;
        [reflexivity|].
      exfalso. apply Hno.
      destruct (Hsound x (or_introl eq_refl)) as (pre & p & post & H).
      now exists pre, p, x, post.
Qed.

Lemma linkedin_handle_wellformed_witness :
  exists pre p post,
    of_string "see LinkedIn.com/in/jane-roe." = pre ++ p ++ of_string "jane-roe" ++ post
    /\ lower p = of_string "linkedin.com/in/"
    /\ of_string "jane-roe" <> []
    /\ forallb handle_char (of_string "jane-roe") = true.
Proof.
  apply (proj1 (@linkedin_handle_wellformed first_occurrence_order
                  (of_string "see LinkedIn.com/in/jane-roe."))
           (of_string "jane-roe")).
  reflexivity.
Defined.

(** ** Companies *)

Lemma company_den p0 t post p1 cs :
  den false company_pattern p0 t post [] p1 cs ->
  exists ws x rest,
    t = of_string "at" ++ ws ++ x :: rest
    /\ ws <> [] /\ forallb isspace ws = true
    /\ between 65 90 x = true /\ rest <> []
    /\ group 1 cs = x :: rest
    /\ word_at p0 = false.
Proof.
  unfold company_pattern, lit. cbn [seqs]. unfold s_. intros H.
  apply den_Seq_inv in H as (t0 & t' & q0 & c0 & -> & H0 & H).
  pose proof (den_Bnd_xor H0) as Hb.
  apply den_Bnd_inv in H0 as [-> ->].
  apply den_Seq_inv in H as (at_ & t1 & q1 & c1 & -> & Ha & H).
  apply den_chars_exact in Ha as [-> ->].
  assert (Hp0 : word_at p0 = false).
  { cbn in Hb. now destruct (word_at p0). }
  clear Hb.
  apply den_Seq_inv in H as (ws & tg & q2 & c2 & -> & Hw & H).
  apply den_Plus_Cls_inv in Hw as (Hwne & Hw & ->).
  apply den_Grp_inv in H as (c3 & -> & H).
  apply den_Seq_inv in H as (tx & t2 & q3 & c4 & -> & Hx & H).
  apply den_Cls_inv in Hx as (x & -> & Hx & ->).
  apply den_Seq_inv in H as (body & suffix & q4 & c5 & -> & Hb & H).
  apply den_Plus_Cls_inv in Hb as (Hbne & _ & _).
  exists ws, x, (body ++ suffix). cbn [group Nat.eqb app].
  repeat split; trivial.
  intros E. apply app_eq_nil in E as [E _]. contradiction.
Qed.

(** X12.  In every record the extractor returns, every company reported
    stands in the text after the word [at] (no word character stands before
    it) and blanks, starts with a capital letter from A to Z and has two
    characters at least; the companies reported are distinct and at most
    five. *)
Theorem companies_wellformed :
  forall (O : SetOrder) (text : str) (e : Experience),
    _extract_experience text = inr e ->
    NoDup (companies e)
    /\ length (companies e) <= 5
    /\ forall c : str,
         In c (companies e) ->
         exists pre ws post x rest,
           text = pre ++ of_string "at" ++ ws ++ c ++ post
           /\ word_at (prev_at None pre) = false
           /\ ws <> [] /\ forallb isspace ws = true
           /\ c = x :: rest /\ between 65 90 x = true /\ rest <> [].
Proof.
  intros O text e He. apply extract_experience_inr in He as (years & _ & ->).
  cbn [companies].
  split; [apply firstn_set_list_NoDup|]. split; [apply firstn_le_length|].
  intros c Hc. apply In_firstn in Hc. apply (proj1 (set_list_In _ _)) in Hc.
  apply findall1_den_prev in Hc as (pre & t & post & p1 & cs & -> & H & ->).
  apply company_den
    in H as (ws & x & rest & -> & Hne & Hw & Hx & Hr & -> & Hp0).
  exists pre, ws, post, x, rest.
  repeat split; trivial. now rewrite <- !app_assoc.
Qed.

Lemma companies_wellformed_witness :
  exists e,
    @_extract_experience first_occurrence_order "worked at Acme" = inr e
    /\ exists pre ws post x rest,
         of_string "worked at Acme"
         = pre ++ of_string "at" ++ ws ++ of_string "Acme" ++ post
         /\ word_at (prev_at None pre) = false
         /\ ws <> [] /\ forallb isspace ws = true
         /\ of_string "Acme" = x :: rest /\ between 65 90 x = true
         /\ rest <> [].
Proof.
  assert (He : exists e,
             @_extract_experience first_occurrence_order "worked at Acme"
             = inr e /\ In (of_string "Acme") (companies e)).
  { eexists. split; [vm_compute; reflexivity|]. left. reflexivity. }
  destruct He as (e & He & Hin). exists e. split; [exact He|].
  apply (proj2 (proj2 (@companies_wellformed first_occurrence_order
                         "worked at Acme" e He)) "Acme").
  exact Hin.
Defined.

(* ================================================================== *)
(** * Decoding a document                                               *)
(* ================================================================== *)

Lemma str_eqb_refl (a : str) : str_eqb a a = true.
Proof. now apply str_eqb_eq. Qed.

(** X13.  When the decoder of the declared type is not installed the parse
    fails with an [ImportError] that names the missing library, before the
    file is read: the only event is the log entry of [parse_resume_file].
    Word documents of both declared types need the same decoder. *)
Theorem decoder_unavailable_fails_before_reading :
  forall (rt : Runtime) (file : UploadFile) (tr : list event),
    (content_type file = pdf_type ->
     PDF_AVAILABLE rt = false ->
     let raised :=
       ImportError
         "pdfplumber not available. Install with: pip install pdfplumber" in
     parse_resume_file rt file tr
     = (tr ++ [LogError (of_string "Error parsing resume file: "
                           ++ exn_str raised)], inl raised))
    /\ (content_type file = docx_type \/ content_type file = msword_type ->
        DOCX_AVAILABLE rt = false ->
        let raised :=
          ImportError
            "python-docx not available. Install with: pip install python-docx" in
        parse_resume_file rt file tr
        = (tr ++ [LogError (of_string "Error parsing resume file: "
                              ++ exn_str raised)], inl raised)).
Proof.
  intros rt file tr. split.
  - intros Ht Hav raised. unfold parse_resume_file, logged, bind.
    rewrite Ht. change (str_eqb pdf_type "application/pdf") with true.
    cbn iota. unfold _extract_text_from_pdf. rewrite Hav. reflexivity.
  - intros Ht Hav raised. unfold parse_resume_file, logged, bind.
    destruct Ht as [Ht|Ht]; rewrite Ht.
    + change (str_eqb docx_type "application/pdf") with false.
      replace (mem docx_type _) with true by (vm_compute; reflexivity).
      cbn iota. unfold _extract_text_from_docx. rewrite Hav. reflexivity.
    + change (str_eqb msword_type "application/pdf") with false.
      replace (mem msword_type _) with true by (vm_compute; reflexivity).
      cbn iota. unfold _extract_text_from_docx. rewrite Hav. reflexivity.
Qed.

Lemma decoder_unavailable_fails_before_reading_witness :
  let rt := {| PDF_AVAILABLE := false;
               DOCX_AVAILABLE := true;
               pdf_pages := fun _ => inr [];
               docx_paragraphs := fun _ => inr [];
               nlp := None;
               utcnow_isoformat := "2024-05-01T10:00:00";
               set_order := first_occurrence_order |} in
  let file := {| file_name := "cv.pdf";
                 content_type := "application/pdf";
                 read := inr [] |} in
  parse_resume_file rt file []
  = ([LogError
        (of_string
           "Error parsing resume file: pdfplumber not available. Install with: pip install pdfplumber")],
     inl (ImportError
            "pdfplumber not available. Install with: pip install pdfplumber")).
Proof.
  intros rt file.
  apply (proj1 (decoder_unavailable_fails_before_reading rt file []));
    reflexivity.
Defined.

(** X14.  A failure of the read or of the PDF decoder comes out of
    [parse_resume_file] as it was raised, and is logged twice, by the text
    extractor and by [parse_resume_file]; after a failed read the decoder is
    not called. *)
Theorem pdf_failure_propagates :
  forall (rt : Runtime) (file : UploadFile) (tr : list event) (e : exn),
    content_type file = pdf_type ->
    PDF_AVAILABLE rt = true ->
    (read file = inl e ->
     parse_resume_file rt file tr
     = (tr ++ [FileRead (file_name file);
               LogError (of_string "Error extracting text from PDF: "
                           ++ exn_str e);
               LogError (of_string "Error parsing resume file: "
                           ++ exn_str e)],
        inl e))
    /\ (forall content,
          read file = inr content ->
          pdf_pages rt content = inl e ->
          parse_resume_file rt file tr
          = (tr ++ [FileRead (file_name file);
                    PdfOpen content;
                    LogError (of_string "Error extracting text from PDF: "
                                ++ exn_str e);
                    LogError (of_string "Error parsing resume file: "
                                ++ exn_str e)],
             inl e)).
Proof.
  intros rt file tr e Ht Hav. split.
  - intros Hread. unfold parse_resume_file, logged, bind.
    rewrite Ht. change (str_eqb pdf_type "application/pdf") with true.
    cbn iota. unfold _extract_text_from_pdf, logged, bind, tell, lift.
    rewrite Hav, Hread. cbn [negb].
    rewrite <- !app_assoc. reflexivity.
  - intros content Hread Hpages. unfold parse_resume_file, logged, bind.
    rewrite Ht. change (str_eqb pdf_type "application/pdf") with true.
    cbn iota. unfold _extract_text_from_pdf, logged, bind, tell, lift.
    rewrite Hav, Hread, Hpages. cbn [negb].
    rewrite <- !app_assoc. reflexivity.
Qed.

Lemma pdf_failure_propagates_witness :
  let rt := {| PDF_AVAILABLE := true;
               DOCX_AVAILABLE := true;
               pdf_pages := fun _ => inl (LibraryError "No /Root object");
               docx_paragraphs := fun _ => inr [];
               nlp := None;
               utcnow_isoformat := "2024-05-01T10:00:00";
               set_order := first_occurrence_order |} in
  let file := {| file_name := "cv.pdf";
                 content_type := "application/pdf";
                 read := inr [] |} in
  parse_resume_file rt file []
  = ([FileRead (of_string "cv.pdf");
      PdfOpen [];
      LogError (of_string "Error extracting text from PDF: No /Root object");
      LogError (of_string "Error parsing resume file: No /Root object")],
     inl (LibraryError "No /Root object")).
Proof.
  intros rt file.
  apply (proj2 (@pdf_failure_propagates rt file []
                  (LibraryError "No /Root object") eq_refl eq_refl) []);
    reflexivity.
Defined.

Lemma pages_text_flat_map (pages : list (option str)) :
  forall text,
    pages_text pages text
    = text ++ flat_map (fun page => match page with
                                    | Some (c :: page_text) =>
                                        (c :: page_text) ++ [nl]
                                    | _ => []
                                    end) pages.
Proof.
  induction pages as [|page pages IH]; intros text; cbn [pages_text flat_map].
  - now rewrite app_nil_r.
  - destruct page as [[|c page_text]|]; rewrite IH; try reflexivity.
    rewrite <- app_assoc. reflexivity.
Qed.

Lemma paragraphs_text_flat_map (paragraphs : list str) :
  forall text,
    paragraphs_text paragraphs text
    = text ++ flat_map (fun paragraph => paragraph ++ [nl]) paragraphs.
Proof.
  induction paragraphs as [|p ps IH]; intros text;
    cbn [paragraphs_text flat_map].
  - now rewrite app_nil_r.
  - rewrite IH. now rewrite <- !app_assoc.
Qed.

(** X15.  When a PDF is read and decoded, the text parsed is the texts of
    the pages that have one, each followed by a newline, stripped as a
    whole.  When [_parse_text] returns for that text, the result is its
    record with the metadata of the file, [text_length] being the length of
    that text, and the run reads the file, opens it, and logs no error.
    When [_parse_text] raises, the exception is logged by
    [parse_resume_file] and comes out as it was raised. *)
Theorem pdf_success :
  forall (rt : Runtime) (file : UploadFile) (tr : list event)
         (content : bytes) (pages : list (option str)),
    content_type file = pdf_type ->
    PDF_AVAILABLE rt = true ->
    read file = inr content ->
    pdf_pages rt content = inr pages ->
    let text :=
      strip (flat_map (fun page => match page with
                                   | Some (c :: page_text) =>
                                       (c :: page_text) ++ [nl]
                                   | _ => []
                                   end) pages) in
    parse_resume_file rt file tr
    = match @_parse_text (set_order rt) (nlp rt) text with
      | inr parsed_data =>
          (tr ++ [FileRead (file_name file); PdfOpen content],
           inr (with_metadata parsed_data
                  {| filename := file_name file;
                     file_type := content_type file;
                     parsed_at := utcnow_isoformat rt;
                     text_length := length text;
                     parser_version := "1.0.0" |}))
      | inl e =>
          (tr ++ [FileRead (file_name file); PdfOpen content;
                  LogError (of_string "Error parsing resume file: "
                              ++ exn_str e)],
           inl e)
      end
    /\ strip text = text.
Proof.
  intros rt file tr content pages Ht Hav Hread Hpages text. split.
  - assert (Hsel : str_eqb (content_type file) "application/pdf" = true)
      by (rewrite Ht; reflexivity).
    unfold parse_resume_file, logged, bind. rewrite Hsel.
    unfold _extract_text_from_pdf, logged, bind, tell, lift, ret.
    rewrite Hav, Hread, Hpages. cbn [negb].
    rewrite pages_text_flat_map, app_nil_l. fold text.
    destruct (_parse_text (nlp rt) text) as [e|parsed_data];
      rewrite <- !app_assoc; reflexivity.
  - apply strip_idem.
Qed.

Lemma pdf_success_witness :
  let rt := {| PDF_AVAILABLE := true;
               DOCX_AVAILABLE := true;
               pdf_pages := fun _ => inr [Some (of_string " Jane Roe");
                                           None; Some (of_string "SQL ")];
               docx_paragraphs := fun _ => inr [];
               nlp := None;
               utcnow_isoformat := "2024-05-01T10:00:00";
               set_order := first_occurrence_order |} in
  let file := {| file_name := "cv.pdf";
                 content_type := "application/pdf";
                 read := inr [] |} in
  let text := of_string "Jane Roe" ++ nl :: of_string "SQL" in
  exists parsed_data,
    @_parse_text first_occurrence_order None text = inr parsed_data
    /\ parse_resume_file rt file []
       = ([FileRead (of_string "cv.pdf"); PdfOpen []],
          inr (with_metadata parsed_data
                 {| filename := "cv.pdf";
                    file_type := "application/pdf";
                    parsed_at := "2024-05-01T10:00:00";
                    text_length := 12;
                    parser_version := "1.0.0" |}))
    /\ strip text = text.
Proof.
  intros rt file text.
  assert (Hp : exists parsed_data,
             @_parse_text first_occurrence_order None text = inr parsed_data).
  { eexists. vm_compute. reflexivity. }
  destruct Hp as [parsed_data Hp]. exists parsed_data. split; [exact Hp|].
  destruct (@pdf_success rt file [] []
              [Some (of_string " Jane Roe"); None; Some (of_string "SQL ")]
              eq_refl eq_refl eq_refl eq_refl) as [H Hs].
  split; [|exact Hs].
  change (parse_resume_file rt file []
          = match @_parse_text first_occurrence_order None text with
            | inr parsed_data =>
                ([FileRead (of_string "cv.pdf"); PdfOpen []],
                 inr (with_metadata parsed_data
                        {| filename := "cv.pdf";
                           file_type := "application/pdf";
                           parsed_at := "2024-05-01T10:00:00";
                           text_length := 12;
                           parser_version := "1.0.0" |}))
            | inl e =>
                ([FileRead (of_string "cv.pdf"); PdfOpen [];
                  LogError (of_string "Error parsing resume file: "
                              ++ exn_str e)],
                 inl e)
            end) in H.
  rewrite Hp in H. exact H.
Defined.

(** X16.  A Word document, of either declared type, goes through the DOCX
    decoder: the text parsed is the paragraphs, each followed by a newline,
    stripped as a whole, and the run reads the file and opens it as a DOCX
    document.  When [_parse_text] returns for that text the result is its
    record with the metadata of the file and no error is logged; when it
    raises, the exception is logged by [parse_resume_file] and comes out as
    it was raised. *)
Theorem docx_success :
  forall (rt : Runtime) (file : UploadFile) (tr : list event)
         (content : bytes) (paragraphs : list str),
    content_type file = docx_type \/ content_type file = msword_type ->
    DOCX_AVAILABLE rt = true ->
    read file = inr content ->
    docx_paragraphs rt content = inr paragraphs ->
    let text := strip (flat_map (fun paragraph => paragraph ++ [nl])
                                paragraphs) in
    parse_resume_file rt file tr
    = match @_parse_text (set_order rt) (nlp rt) text with
      | inr parsed_data =>
          (tr ++ [FileRead (file_name file); DocxOpen content],
           inr (with_metadata parsed_data
                  {| filename := file_name file;
                     file_type := content_type file;
                     parsed_at := utcnow_isoformat rt;
                     text_length := length text;
                     parser_version := "1.0.0" |}))
      | inl e =>
          (tr ++ [FileRead (file_name file); DocxOpen content;
                  LogError (of_string "Error parsing resume file: "
                              ++ exn_str e)],
           inl e)
      end.
Proof.
  intros rt file tr content paragraphs Ht Hav Hread Hpars text.
  assert (Hsel : str_eqb (content_type file) "application/pdf" = false
                 /\ mem (content_type file)
                      [ "application/vnd.openxmlformats-officedocument.wordprocessingml.document";
                        "application/msword" ] = true).
  { destruct Ht as [-> | ->]; split; vm_compute; reflexivity. }
  destruct Hsel as [Hpdf Hmem].
  unfold parse_resume_file, logged, bind. rewrite Hpdf, Hmem.
  unfold _extract_text_from_docx, logged, bind, tell, lift, ret.
  rewrite Hav, Hread, Hpars. cbn [negb].
  rewrite paragraphs_text_flat_map, app_nil_l. fold text.
  destruct (_parse_text (nlp rt) text) as [e|parsed_data];
    rewrite <- !app_assoc; reflexivity.
Qed.

Lemma docx_success_witness :
  let rt := {| PDF_AVAILABLE := false;
               DOCX_AVAILABLE := true;
               pdf_pages := fun _ => inr [];
               docx_paragraphs := fun _ => inr [of_string "Jane Roe";
                                                 of_string "SQL"];
               nlp := None;
               utcnow_isoformat := "2024-05-01T10:00:00";
               set_order := first_occurrence_order |} in
  let file := {| file_name := "cv.doc";
                 content_type := "application/msword";
                 read := inr [] |} in
  let text := of_string "Jane Roe" ++ nl :: of_string "SQL" in
  exists parsed_data,
    @_parse_text first_occurrence_order None text = inr parsed_data
    /\ parse_resume_file rt file []
       = ([FileRead (of_string "cv.doc"); DocxOpen []],
          inr (with_metadata parsed_data
                 {| filename := "cv.doc";
                    file_type := "application/msword";
                    parsed_at := "2024-05-01T10:00:00";
                    text_length := 12;
                    parser_version := "1.0.0" |})).
Proof.
  intros rt file text.
  assert (Hp : exists parsed_data,
             @_parse_text first_occurrence_order None text = inr parsed_data).
  { eexists. vm_compute. reflexivity. }
  destruct Hp as [parsed_data Hp]. exists parsed_data. split; [exact Hp|].
  pose proof (@docx_success rt file [] []
                [of_string "Jane Roe"; of_string "SQL"]
                (or_intror eq_refl) eq_refl eq_refl eq_refl) as H.
  change (parse_resume_file rt file []
          = match @_parse_text first_occurrence_order None text with
            | inr parsed_data =>
                ([FileRead (of_string "cv.doc"); DocxOpen []],
                 inr (with_metadata parsed_data
                        {| filename := "cv.doc";
                           file_type := "application/msword";
                           parsed_at := "2024-05-01T10:00:00";
                           text_length := 12;
                           parser_version := "1.0.0" |}))
            | inl e =>
                ([FileRead (of_string "cv.doc"); DocxOpen [];
                  LogError (of_string "Error parsing resume file: "
                              ++ exn_str e)],
                 inl e)
            end) in H.
  rewrite Hp in H. exact H.
Defined.

(* ================================================================== *)
(** * The handlers                                                      *)
(* ================================================================== *)

Import Api ApiSpec.

(** X17.  [parse_resume] turns down a file of a type that is not allowed
    with the status 400 before it reads it, and a file of more than 10 MB
    with the status 413 once it has read it; in both cases the parser is
    not run. *)
Theorem parse_resume_rejections :
  forall (rt : Runtime) (file : UploadFile) (tr : list api_event),
    (mem (content_type file) allowed_types = false ->
     parse_resume rt file tr
     = (tr, inl (HTTPException 400
                   (of_string "Unsupported file type: " ++ content_type file
                      ++ of_string ". Supported types: PDF, DOC, DOCX"))))
    /\ (forall content : bytes,
          mem (content_type file) allowed_types = true ->
          read file = inr content ->
          (10 * 1024 * 1024 < N.of_nat (length content))%N ->
          parse_resume rt file tr
          = (tr ++ [HandlerRead (file_name file)],
             inl (HTTPException 413 "File too large. Maximum size: 10MB"))).
Proof.
  intros rt file tr. split.
  - intros Hmem. unfold parse_resume, guarded. rewrite Hmem. reflexivity.
  - intros content Hmem Hread Hsize.
    unfold parse_resume, guarded, hbind, read_file, external.
    rewrite Hmem, Hread. cbn [negb].
    apply N.ltb_lt in Hsize. rewrite Hsize. reflexivity.
Qed.

Lemma parse_resume_rejections_witness :
  let rt := {| PDF_AVAILABLE := true;
               DOCX_AVAILABLE := true;
               pdf_pages := fun _ => inr [];
               docx_paragraphs := fun _ => inr [];
               nlp := None;
               utcnow_isoformat := "2024-05-01T10:00:00";
               set_order := first_occurrence_order |} in
  let file := {| file_name := "photo.png";
                 content_type := "image/png";
                 read := inr [] |} in
  parse_resume rt file []
  = ([], inl (HTTPException 400
                (of_string
                   "Unsupported file type: image/png. Supported types: PDF, DOC, DOCX"))).
Proof.
  intros rt file.
  apply (proj1 (parse_resume_rejections rt file [])). reflexivity.
Defined.

(** X18.  Whatever the file, [parse_resume] only adds events to the trace
    and ends in one of four ways: the exceptions of status 400 and 413,
    raised before the parser is run; the answer 200, exactly with the data
    the parser returns; the answer 500, whose detail is the text of the
    exception of the read or of the parser.  No other exception comes out,
    and the parser is only run on a file of an allowed type. *)
Theorem parse_resume_outcomes :
  forall (rt : Runtime) (file : UploadFile) (tr : list api_event),
    exists evs,
      fst (parse_resume rt file tr) = tr ++ evs
      /\ (existsb parser_event evs = true ->
          mem (content_type file) allowed_types = true)
      /\ match snd (parse_resume rt file tr) with
         | inl (HTTPException status _) =>
             (status = 400 \/ status = 413)
             /\ existsb parser_event evs = false
         | inl (Unhandled _) => False
         | inr (JSONResponse status body) =>
             (status = 200
              /\ exists data size,
                   snd (parse_resume_file rt file []) = inr data
                   /\ body = ParsedContent "Resume parsed successfully"
                               (file_name file) size data)
             \/ (status = 500
                 /\ exists e,
                      (read file = inl e
                       \/ snd (parse_resume_file rt file []) = inl e)
                      /\ body = ErrorContent
                                  "Internal server error while parsing resume"
                                  (exn_str e))
         end.
Proof.
  intros rt file tr.
  unfold parse_resume, guarded, hbind, read_file, external, htell, hret,
    hraise, call_parser.
  destruct (mem (content_type file) allowed_types) eqn:Hmem; cbn [negb].
  - destruct (read file) as [e|content] eqn:Hread.
    + exists [HandlerRead (file_name file);
              HandlerLog (of_string "Error parsing resume: " ++ exn_str e)].
      cbn [fst snd]. rewrite <- app_assoc.
      split; [reflexivity|]. split; [reflexivity|].
      right. split; [reflexivity|]. exists e. split; [now left | reflexivity].
    + destruct (10 * 1024 * 1024 <? N.of_nat (length content))%N.
      * exists [HandlerRead (file_name file)]. cbn [fst snd].
        split; [reflexivity|]. split; [reflexivity|].
        split; [now right | reflexivity].
      * destruct (parse_resume_file rt file []) as [pevs [e|data]] eqn:Hp;
          cbn [fst snd].
        -- exists ([HandlerRead (file_name file); HandlerSeek (file_name file)]
                     ++ map ParserEvent pevs
                     ++ [HandlerLog (of_string "Error parsing resume: "
                                       ++ exn_str e)]).
           rewrite <- !app_assoc. split; [reflexivity|].
           split; [reflexivity|].
           right. split; [reflexivity|]. exists e.
           split; [now right | reflexivity].
        -- exists ([HandlerRead (file_name file); HandlerSeek (file_name file)]
                     ++ map ParserEvent pevs).
           rewrite <- !app_assoc. split; [reflexivity|].
           split; [reflexivity|].
           left. split; [reflexivity|].
           now exists data, (N.of_nat (length content)).
  - exists []. cbn [fst snd existsb]. rewrite app_nil_r.
    split; [reflexivity|]. split; [discriminate|].
    split; [now left | reflexivity].
Qed.

Lemma parse_resume_outcomes_witness :
  let rt := {| PDF_AVAILABLE := false;
               DOCX_AVAILABLE := true;
               pdf_pages := fun _ => inr [];
               docx_paragraphs := fun _ => inr [];
               nlp := None;
               utcnow_isoformat := "2024-05-01T10:00:00";
               set_order := first_occurrence_order |} in
  let file := {| file_name := "cv.pdf";
                 content_type := "application/pdf";
                 read := inr [] |} in
  exists evs,
    fst (parse_resume rt file []) = [] ++ evs
    /\ (existsb parser_event evs = true ->
        mem (content_type file) allowed_types = true)
    /\ snd (parse_resume rt file [])
       = inr (JSONResponse 500
                (ErrorContent "Internal server error while parsing resume"
                   "pdfplumber not available. Install with: pip install pdfplumber")).
Proof.
  intros rt file.
  destruct (parse_resume_outcomes rt file []) as (evs & H1 & H2 & _).
  exists evs. split; [exact H1|]. split; [exact H2 | reflexivity].
Defined.

(** ** The batch *)

Lemma batch_item_spec (rt : Runtime) (file : UploadFile) (tr : list api_event) :
  exists evs entry,
    batch_item rt file tr = (tr ++ evs, inr entry) /\ item_of rt file entry.
Proof.
  unfold batch_item, item_of, call_parser.
  destruct (mem (content_type file) allowed_types); cbn [negb].
  - destruct (parse_resume_file rt file []) as [pevs [e|data]]; cbn [snd].
    + now exists (map ParserEvent pevs), (ItemError (file_name file) (exn_str e)).
    + now exists (map ParserEvent pevs), (ItemSuccess (file_name file) data).
  - eexists [], _. rewrite app_nil_r. split; reflexivity.
Qed.

(** The loop adds to [results] one entry for each file, in order. *)
Lemma batch_loop_spec (rt : Runtime) (files : list UploadFile) :
  forall (results : list item) (tr : list api_event),
    exists evs new,
      batch_loop rt files results tr = (tr ++ evs, inr (results ++ new))
      /\ Forall2 (item_of rt) files new.
Proof.
  induction files as [|file files IH]; intros results tr; cbn [batch_loop].
  - exists [], []. unfold hret. rewrite !app_nil_r. split; [reflexivity|constructor].
  - destruct (batch_item_spec rt file tr) as (evs1 & entry & H1 & Hentry).
    destruct (IH (results ++ [entry]) (tr ++ evs1)) as (evs2 & new & H2 & Hnew).
    exists (evs1 ++ evs2), (entry :: new). unfold hbind. rewrite H1, H2.
    rewrite <- !app_assoc. split; [reflexivity|]. now constructor.
Qed.

Lemma item_of_filename (rt : Runtime) (file : UploadFile) (entry : item) :
  item_of rt file entry -> item_filename entry = file_name file.
Proof.
  unfold item_of. destruct (mem _ _).
  - destruct (snd _); now intros ->.
  - now intros ->.
Qed.

(** X19.  A batch of more than ten files is turned down with the status
    400 before any file is looked at.  A batch of ten files at most always
    gets the answer 200: the results hold one entry for each file, in the
    order of the files and under their names, and the entry of a file is
    told by that file alone: a failure on one file leaves the entries of
    the others as they are. *)
Theorem parse_resume_batch_results :
  forall (rt : Runtime) (files : list UploadFile) (tr : list api_event),
    (10 < length files ->
     parse_resume_batch rt files tr
     = (tr, inl (HTTPException 400 "Maximum 10 files allowed per batch")))
    /\ (length files <= 10 ->
        exists evs results,
          parse_resume_batch rt files tr
          = (tr ++ evs,
             inr (JSONResponse 200
                    (BatchContent
                       (of_string "Processed " ++ str_of_nat (length files)
                          ++ of_string " files")
                       results)))
          /\ Forall2 (item_of rt) files results
          /\ length results = length files
          /\ map item_filename results = map file_name files).
Proof.
  intros rt files tr. split.
  - intros Hlen. unfold parse_resume_batch, guarded.
    apply Nat.ltb_lt in Hlen. rewrite Hlen. reflexivity.
  - intros Hlen. unfold parse_resume_batch, guarded, hbind, hret.
    apply Nat.ltb_ge in Hlen. rewrite Hlen.
    destruct (batch_loop_spec rt files [] tr) as (evs & results & H & Hall).
    cbn [app] in H. rewrite H.
    exists evs, results. split; [reflexivity|]. split; [exact Hall|].
    split.
    + symmetry. eapply Forall2_length. exact Hall.
    + clear H Hlen. induction Hall as [|file entry files results Hentry _ IH];
        [reflexivity|].
      cbn [map]. now rewrite (@item_of_filename rt file entry Hentry), IH.
Qed.

Lemma parse_resume_batch_results_witness :
  let rt := {| PDF_AVAILABLE := false;
               DOCX_AVAILABLE := true;
               pdf_pages := fun _ => inr [];
               docx_paragraphs := fun _ => inr [of_string "Jane Roe"];
               nlp := None;
               utcnow_isoformat := "2024-05-01T10:00:00";
               set_order := first_occurrence_order |} in
  let files := [ {| file_name := "a.pdf";
                    content_type := "application/pdf";
                    read := inr [] |};
                 {| file_name := "b.png";
                    content_type := "image/png";
                    read := inr [] |};
                 {| file_name := "c.doc";
                    content_type := "application/msword";
                    read := inr [] |} ] in
  exists evs results,
    parse_resume_batch rt files []
    = ([] ++ evs,
       inr (JSONResponse 200
              (BatchContent (of_string "Processed 3 files") results)))
    /\ Forall2 (item_of rt) files results
    /\ length results = 3
    /\ map item_filename results
       = [of_string "a.pdf"; of_string "b.png"; of_string "c.doc"].
Proof.
  intros rt files.
  apply (proj2 (parse_resume_batch_results rt files [])).
  cbn. lia.
Defined.

(* ================================================================== *)
(** * All the ways of [parse_resume_file]                               *)
(* ================================================================== *)

(** X20.  Whatever the file, [parse_resume_file] only adds events to the
    trace.  When it fails, the last event is the log entry of the exception
    that comes out.  When it succeeds, the declared type is one of the three
    allowed ones, the file was read, no error was logged, and the result is
    the record [_parse_text] returns for a text, with the metadata of the
    file: its name, its declared type, the length of that text and the
    parser version ["1.0.0"]. *)
Theorem parse_resume_file_outcomes :
  forall (rt : Runtime) (file : UploadFile) (tr : list event),
    exists evs,
      fst (parse_resume_file rt file tr) = tr ++ evs
      /\ match snd (parse_resume_file rt file tr) with
         | inl e =>
             exists evs',
               evs = evs' ++ [LogError (of_string "Error parsing resume file: "
                                          ++ exn_str e)]
         | inr data =>
             mem (content_type file) allowed_types = true
             /\ forallb decoder_event evs = true
             /\ (exists content, read file = inr content)
             /\ exists text parsed_data m,
                  @_parse_text (set_order rt) (nlp rt) text = inr parsed_data
                  /\ data = with_metadata parsed_data m
                  /\ filename m = file_name file
                  /\ file_type m = content_type file
                  /\ text_length m = length text
                  /\ parser_version m = of_string "1.0.0"
         end.
Proof.
  intros rt file tr.
  unfold parse_resume_file, logged, bind, ret, raise.
  destruct (str_eqb (content_type file) "application/pdf") eqn:Hpdf.
  - assert (Hmem : mem (content_type file) allowed_types = true).
    { unfold mem, allowed_types. cbn [existsb]. now rewrite Hpdf. }
    unfold _extract_text_from_pdf, logged, bind, tell, lift, ret, raise.
    destruct (PDF_AVAILABLE rt); cbn [negb].
    + destruct (read file) as [e|content] eqn:Hread.
      * eexists. cbn [fst snd]. split.
        -- rewrite <- !app_assoc. reflexivity.
        -- now exists [FileRead (file_name file);
                       LogError (of_string "Error extracting text from PDF: "
                                   ++ exn_str e)].
      * destruct (pdf_pages rt content) as [e|pages].
        -- eexists. cbn [fst snd]. split.
           ++ rewrite <- !app_assoc. reflexivity.
           ++ now exists [FileRead (file_name file); PdfOpen content;
                          LogError (of_string "Error extracting text from PDF: "
                                      ++ exn_str e)].
        -- destruct (_parse_text (nlp rt) (strip (pages_text pages [])))
             as [e|parsed_data] eqn:Hparse.
           ++ eexists. cbn [fst snd]. split.
              ** rewrite <- !app_assoc. reflexivity.
              ** now exists [FileRead (file_name file); PdfOpen content].
           ++ exists [FileRead (file_name file); PdfOpen content].
              cbn [fst snd]. split; [now rewrite <- !app_assoc|].
              split; [exact Hmem|]. split; [reflexivity|].
              split; [now exists content|].
              eexists _, parsed_data, _. split; [exact Hparse|].
              split; [reflexivity|]. now repeat split.
    + eexists. cbn [fst snd]. split; [reflexivity|]. now exists [].
  - destruct (mem (content_type file) _) eqn:Hdocx.
    + assert (Hmem : mem (content_type file) allowed_types = true).
      { unfold mem, allowed_types in *. cbn [existsb] in *.
        now rewrite Hdocx, orb_true_r. }
      unfold _extract_text_from_docx, logged, bind, tell, lift, ret, raise.
      destruct (DOCX_AVAILABLE rt); cbn [negb].
      * destruct (read file) as [e|content] eqn:Hread.
        -- eexists. cbn [fst snd]. split.
           ++ rewrite <- !app_assoc. reflexivity.
           ++ now exists [FileRead (file_name file);
                          LogError (of_string "Error extracting text from DOCX: "
                                      ++ exn_str e)].
        -- destruct (docx_paragraphs rt content) as [e|paragraphs].
           ++ eexists. cbn [fst snd]. split.
              ** rewrite <- !app_assoc. reflexivity.
              ** now exists [FileRead (file_name file); DocxOpen content;
                             LogError (of_string
                                         "Error extracting text from DOCX: "
                                         ++ exn_str e)].
           ++ destruct (_parse_text (nlp rt)
                          (strip (paragraphs_text paragraphs [])))
                as [e|parsed_data] eqn:Hparse.
              ** eexists. cbn [fst snd]. split.
                 --- rewrite <- !app_assoc. reflexivity.
                 --- now exists [FileRead (file_name file); DocxOpen content].
              ** exists [FileRead (file_name file); DocxOpen content].
                 cbn [fst snd]. split; [now rewrite <- !app_assoc|].
                 split; [exact Hmem|]. split; [reflexivity|].
                 split; [now exists content|].
                 eexists _, parsed_data, _. split; [exact Hparse|].
                 split; [reflexivity|]. now repeat split.
      * eexists. cbn [fst snd]. split; [reflexivity|]. now exists [].
    + eexists. cbn [fst snd]. split; [reflexivity|]. now exists [].
Qed.

(* ================================================================== *)
(** * Degrees and job titles                                            *)
(* ================================================================== *)

Lemma findall2_den (ic : bool) (r : regex) (text g1 g2 : str) :
  In (g1, g2) (findall2 ic r text) ->
  exists pre t post p0 p1 cs,
    text = pre ++ t ++ post /\ den ic r p0 t post [] p1 cs
    /\ g1 = group 1 cs /\ g2 = group 2 cs.
Proof.
  unfold findall2. intros H. apply in_map_iff in H as ([t cs] & E & H).
  injection E as <- <-.
  apply hit_den in H as (pre & post & p0 & p1 & H1 & H2).
  now exists pre, t, post, p0, p1, cs.
Qed.












(* ================================================================== *)
(** * The institutions                                                  *)
(* ================================================================== *)

(** [\d{4}] matches where four digits stand, and nowhere else. *)
Lemma match_at_four_digits (prev : option ascii) (s : str) :
  match_at false (Rep 4 d_) prev s
  = if 4 <=? lead is_digit s then Some (4, []) else None.
Proof.
  unfold match_at, d_. cbn [Rep run].
  destruct s as [|a s]; [reflexivity|]. cbn [lead].
  destruct (is_digit a); [|reflexivity].
  destruct s as [|b s]; [reflexivity|]. cbn [lead].
  destruct (is_digit b); [|reflexivity].
  destruct s as [|c s]; [reflexivity|]. cbn [lead].
  destruct (is_digit c); [|reflexivity].
  destruct s as [|d s]; [reflexivity|]. cbn [lead].
  destruct (is_digit d); [|reflexivity].
  cbn [Nat.leb length]. do 2 f_equal. lia.
Qed.

Lemma sub_empty_kept (ic : bool) (r : regex) (s : str) :
  sub ic r [] s = kept (finditer ic r s).
Proof. reflexivity. Qed.

(** Cutting the years out leaves no run of four digits, not even across a
    cut: a cut starts where the run starts, so less than four digits are
    left at its end. *)
Lemma kept_runs_below (s : str) :
  forall prev skip k,
    k = 0 \/ (skip = 0 /\ k + lead is_digit s < 4) ->
    runs_below 4 k (kept (scan false (Rep 4 d_) prev s skip)) = true.
Proof.
  induction s as [|c s IH]; intros prev skip k Hk.
  - destruct skip; cbn [scan]; [|reflexivity].
    rewrite match_at_four_digits. reflexivity.
  - destruct skip as [|skip]; cbn [scan].
    + rewrite match_at_four_digits.
      destruct (4 <=? lead is_digit (c :: s)) eqn:E.
      * apply Nat.leb_le in E.
        assert (k = 0) as -> by lia.
        cbn [kept flat_map Nat.eqb app]. fold (kept (scan false (Rep 4 d_) (Some c) s (4 - 1))).
        apply IH. now left.
      * apply Nat.leb_gt in E.
        assert (Hlt : k + lead is_digit (c :: s) < 4) by lia.
        cbn [kept flat_map app]. fold (kept (scan false (Rep 4 d_) (Some c) s 0)).
        cbn [runs_below]. cbn [lead] in Hlt.
        destruct (is_digit c).
        -- apply andb_true_intro. split; [apply Nat.ltb_lt; lia|].
           apply IH. right. split; [reflexivity | lia].
        -- apply IH. now left.
    + destruct Hk as [->|[Hk _]]; [|discriminate].
      apply IH. now left.
Qed.

Lemma runs_below_digits (d post : str) :
  forall k,
    runs_below 4 k (d ++ post) = true -> forallb is_digit d = true ->
    k + length d < 4 \/ d = [].
Proof.
  induction d as [|c d IH]; intros k H Hd; [now right|]. left.
  cbn [app runs_below forallb] in *.
  apply andb_prop in Hd as [Hc Hd]. rewrite Hc in H.
  apply andb_prop in H as [Hk H]. apply Nat.ltb_lt in Hk.
  destruct (IH _ H Hd) as [Hlt | ->]; cbn [length]; lia.
Qed.

Lemma runs_below_skip (pre x : str) :
  forall k, runs_below 4 k (pre ++ x) = true ->
            exists k', runs_below 4 k' x = true.
Proof.
  induction pre as [|c pre IH]; intros k H; [now exists k|].
  cbn [app runs_below] in H. destruct (is_digit c).
  - apply andb_prop in H as [_ H]. now apply IH in H.
  - now apply IH in H.
Qed.

Lemma runs_below_no_run (s : str) :
  runs_below 4 0 s = true -> no_digit_run 4 s.
Proof.
  intros H pre d post -> Hlen.
  apply runs_below_skip in H as [k H].
  destruct (forallb is_digit d) eqn:Hd; [|reflexivity].
  destruct (runs_below_digits _ _ _ H Hd) as [Hlt | ->];
    [lia | discriminate].
Qed.

Lemma no_digit_run_part (n : nat) (pre s post : str) :
  no_digit_run n (pre ++ s ++ post) -> no_digit_run n s.
Proof.
  intros H p d q -> Hlen.
  apply (H (pre ++ p) d (q ++ post)); [|exact Hlen].
  now rewrite <- !app_assoc.
Qed.

Lemma strip_part (s : str) : exists pre post, s = pre ++ strip s ++ post.
Proof.
  unfold strip.
  destruct (dropwhile_suffix isspace s) as (pre & Hpre & _).
  destruct (rstrip_prefix (lstrip s)) as (post & Hpost).
  exists pre, post. fold (lstrip s) in Hpre. now rewrite <- Hpost.
Qed.

(** The characters kept are characters of the subject. *)
Lemma kept_incl (ic : bool) (r : regex) (s : str) :
  forall prev skip x, In x (kept (scan ic r prev s skip)) -> In x s.
Proof.
  induction s as [|c s IH]; intros prev skip x H.
  - destruct skip; cbn [scan] in H; [|contradiction].
    destruct (match_at ic r prev []) as [[len cs]|]; exact H.
  - destruct skip as [|skip]; cbn [scan] in H.
    + destruct (match_at ic r prev (c :: s)) as [[len cs]|].
      * cbn [kept flat_map app] in H. unfold kept in IH.
        rewrite flat_map_app in H. apply in_app_or in H as [H|H].
        -- destruct (len =? 0); [|contradiction].
           cbn in H. destruct H as [<-|[]]. now left.
        -- right. eapply IH. exact H.
      * cbn [kept flat_map app] in H. destruct H as [<-|H]; [now left|].
        right. eapply IH. exact H.
    + right. eapply IH. exact H.
Qed.

Lemma split_on_no_sep (sep : ascii) (s : str) :
  forall l, In l (split_on sep s) -> ~ In sep l.
Proof.
  induction s as [|c s IH]; intros l H.
  - cbn in H. destruct H as [<-|[]]. intros [].
  - cbn [split_on] in H.
    destruct (Ascii.eqb c sep) eqn:E.
    + destruct H as [<-|H]; [intros []|]. now apply IH.
    + destruct (split_on sep s) as [|l0 ls] eqn:Es.
      * destruct H as [<-|[]]. intros [->|[]].
        now rewrite Ascii.eqb_refl in E.
      * destruct H as [<-|H].
        -- intros [->|Hin]; [now rewrite Ascii.eqb_refl in E|].
           apply (IH l0); [now left | exact Hin].
        -- apply IH. now right.
Qed.

(** X23.  At most three institutions are reported.  Each one comes from a
    line of the text that holds one of the words university, college,
    institute, school (in any case); it is longer than five characters, has
    no blank around it and no newline in it, and no run of four digits is
    left in it. *)
Theorem institutions_wellformed :
  forall (O : SetOrder) (text i : str),
    In i (institutions (_extract_education text)) ->
    length (institutions (_extract_education text)) <= 3
    /\ 5 < length i
    /\ strip i = i
    /\ ~ In nl i
    /\ no_digit_run 4 i
    /\ exists line,
         In line (split_on nl text)
         /\ any_keyword_in university_keywords line = true
         /\ forall c, In c i -> In c line.
Proof.
  intros O text i Hi. unfold _extract_education in *.
  cbn [institutions] in *.
  split; [apply firstn_le_length|].
  apply In_firstn in Hi. unfold find_universities in Hi.
  apply in_flat_map in Hi as (line & Hline & Hi).
  destruct (any_keyword_in university_keywords line) eqn:Hk; [|contradiction].
  cbv zeta in Hi.
  destruct (5 <? length _) eqn:Hlen; [|contradiction].
  destruct Hi as [<-|[]].
  apply Nat.ltb_lt in Hlen.
  set (cut := sub false (Rep 4 d_) [] line) in *.
  assert (Hincl : forall c, In c (strip cut) -> In c line).
  { intros c Hc. destruct (strip_part cut) as (pre & post & E).
    apply (@kept_incl false (Rep 4 d_) line None 0).
    change (In c cut). rewrite E. apply in_or_app. right.
    apply in_or_app. now left. }
  split; [exact Hlen|]. split; [apply strip_idem|]. split; [|split].
  - intros Hnl. apply Hincl in Hnl.
    exact (split_on_no_sep _ _ _ Hline Hnl).
  - destruct (strip_part cut) as (pre & post & E).
    apply (@no_digit_run_part 4 pre (strip cut) post). rewrite <- E.
    apply runs_below_no_run. subst cut. rewrite sub_empty_kept.
    apply kept_runs_below. now left.
  - exists line. repeat split; trivial.
Qed.

Lemma institutions_wellformed_witness :
  length (institutions
            (@_extract_education first_occurrence_order
               (of_string "MIT 19991234 school of 20245 science")))
  <= 3
  /\ 5 < length (of_string "MIT  school of 5 science")
  /\ strip (of_string "MIT  school of 5 science")
     = of_string "MIT  school of 5 science"
  /\ ~ In nl (of_string "MIT  school of 5 science")
  /\ no_digit_run 4 (of_string "MIT  school of 5 science")
  /\ exists line,
       In line (split_on nl (of_string "MIT 19991234 school of 20245 science"))
       /\ any_keyword_in university_keywords line = true
       /\ forall c, In c (of_string "MIT  school of 5 science") -> In c line.
Proof.
  apply (@institutions_wellformed first_occurrence_order
           (of_string "MIT 19991234 school of 20245 science")
           (of_string "MIT  school of 5 science")).
  left. reflexivity.
Defined.

(* ================================================================== *)
(** * The location                                                      *)
(* ================================================================== *)

Lemma location_den p0 t post p1 cs :
  den false location_pattern p0 t post [] p1 cs ->
  exists city blanks state,
    t = city ++ of_string "," ++ blanks ++ state
    /\ city <> [] /\ forallb place_char city = true
    /\ forallb isspace blanks = true
    /\ 2 <= length state /\ forallb place_char state = true
    /\ group 1 cs = city /\ group 2 cs = state.
Proof.
  unfold location_pattern. cbn [seqs]. unfold s_. intros H.
  apply den_Seq_inv in H as (b0 & t0 & q0 & c0 & -> & Hb & H).
  apply den_Bnd_inv in Hb as (-> & ->).
  apply den_Seq_inv in H as (city & t1 & q1 & c1 & -> & Hc & H).
  apply den_Grp_inv in Hc as (c1' & -> & Hc).
  apply den_Plus_Cls_inv in Hc as (Hne & Hcity & ->).
  apply den_Seq_inv in H as (comma & t2 & q2 & c2 & -> & Hcomma & H).
  apply den_Chr_inv in Hcomma as (x & -> & Hx & ->).
  apply den_Seq_inv in H as (blanks & t3 & q3 & c3 & -> & Hbl & H).
  apply den_Star_Cls_inv in Hbl as (Hblanks & ->).
  apply den_Seq_inv in H as (state & t4 & q4 & c4 & -> & Hs & H).
  apply den_Grp_inv in Hs as (c4' & -> & Hs).
  apply den_AtLeast_Cls_inv in Hs as (Hlen & Hstate & ->).
  apply den_Bnd_inv in H as (-> & ->).
  exists city, blanks, state.
  assert (x = ","%char) as ->.
  { unfold chr_match in Hx. cbn [andb orb] in Hx.
    rewrite orb_false_r in Hx. now apply Ascii.eqb_eq in Hx. }
  rewrite app_nil_r. cbn [app group Nat.eqb].
  repeat split; trivial.
Qed.

(** X24.  The location reported is a pair (city, state) that stands in the
    text as the city, a comma, blanks, and the state; the city is not empty,
    the state has at least two characters, and both are made of ASCII letters
    and blanks only. *)
Theorem location_wellformed :
  forall (O : SetOrder) (text city state : str),
    location (_extract_contact_info text) = Some (city, state) ->
    exists pre blanks post,
      text = pre ++ city ++ of_string "," ++ blanks ++ state ++ post
      /\ city <> [] /\ forallb place_char city = true
      /\ forallb isspace blanks = true
      /\ 2 <= length state /\ forallb place_char state = true.
Proof.
  intros O text city state H. unfold _extract_contact_info in H.
  cbn [location] in H.
  assert (Hin : In (city, state) (findall2 false location_pattern text)).
  { destruct (findall2 false location_pattern text) as [|x l];
      [discriminate|].
    injection H as ->. now left. }
  apply findall2_den in Hin
    as (pre & t & post & p0 & p1 & cs & -> & Hd & Hc & Hs).
  apply location_den in Hd
    as (c & b & s & -> & Hne & Hcity & Hb & Hlen & Hstate & E1 & E2).
  rewrite E1 in Hc. rewrite E2 in Hs. subst city state.
  exists pre, b, post. rewrite <- !app_assoc.
  repeat split; trivial.
Qed.

Lemma location_wellformed_witness :
  exists pre blanks post,
    of_string "1 Austin, TX." = pre ++ of_string " Austin" ++ of_string ","
                                  ++ blanks ++ of_string "TX" ++ post
    /\ of_string " Austin" <> []
    /\ forallb place_char (of_string " Austin") = true
    /\ forallb isspace blanks = true
    /\ 2 <= length (of_string "TX")
    /\ forallb place_char (of_string "TX") = true.
Proof.
  apply (@location_wellformed first_occurrence_order
           (of_string "1 Austin, TX.") (of_string " Austin")
           (of_string "TX")).
  reflexivity.
Defined.
